(** * FA Logistics catalogue: CSV ingestion, search ranking and filtering

    A shallow embedding of the parsing and ranking code of [app.js] (the
    shop front) and [staff.js] (the staff lookup view), followed by the
    properties the catalogue specification states about them.

    Conventions of the embedding:
    - a JavaScript string is the list of its UTF-16 code units ([N]);
    - [undefined] results (array reads out of range, failed matches,
      [findIndex] returning -1, [NaN]) are [None];
    - integers produced by [parseInt] are mathematical integers ([Z]); the
      rounding of the host to binary64 above 2^53 is outside the model;
    - search weights are binary64 numbers ([spec_float] at precision 53);
    - [String.prototype.toLowerCase] is a parameter of the development (the
      host's Unicode case mapping), instantiated by [JS.asciiLower] in the
      closed examples, which agrees with the host on ASCII text. *)

From stdpp Require Import gmap.
From Stdlib Require Import String Ascii.
From Stdlib Require Import List ZArith NArith Bool Lia Permutation Sorted.
From Stdlib Require Import Floats.SpecFloat.
Import ListNotations.

Abbreviation jsstring := (list N).

(* ===================================================================== *)
(** * Host primitives *)
(* ===================================================================== *)

Module JS.

(** String literals of the source that are plain ASCII. *)
Definition lit (s : string) : jsstring :=
  map N_of_ascii (list_ascii_of_string s).
Definition lits (l : list string) : list jsstring := map lit l.
Arguments lit _%_string.

Definition QUOTE : N := 34.
Definition COMMA : N := 44.
Definition PIPE : N := 124.
Definition SPACE : N := 32.
Definition LF : N := 10.
Definition CR : N := 13.
(** U+20A6 NAIRA SIGN and U+2014 EM DASH, both one code unit. *)
Definition NAIRA : N := 8358.
Definition EM_DASH : N := 8212.

(** [a === b] on strings. *)
Fixpoint streq (a b : jsstring) : bool :=
  match a, b with
  | [], [] => true
  | x :: a', y :: b' => (x =? y)%N && streq a' b'
  | _, _ => false
  end.

(** A string is truthy when it is not empty. *)
Definition truthy (s : jsstring) : bool :=
  match s with [] => false | _ :: _ => true end.

(** [x || ''] for a possibly undefined string. *)
Definition orEmpty (o : option jsstring) : jsstring :=
  match o with Some s => s | None => [] end.

(** ECMAScript LineTerminator: LF, CR, U+2028, U+2029 (what [.] of a
    regular expression refuses). *)
Definition isLineTerminator (c : N) : bool :=
  ((c =? 10) || (c =? 13) || (c =? 8232) || (c =? 8233))%N.

(** ECMAScript WhiteSpace and LineTerminator: the characters removed by
    [trim] and matched by [\s]. *)
Definition isWhiteSpace (c : N) : bool :=
  ((c =? 9) || (c =? 11) || (c =? 12) || (c =? 32) || (c =? 160)
   || (c =? 5760) || ((8192 <=? c) && (c <=? 8202))
   || (c =? 8239) || (c =? 8287) || (c =? 12288) || (c =? 65279))%N
  || isLineTerminator c.

(** [\d] *)
Definition isDigit (c : N) : bool := ((48 <=? c) && (c <=? 57))%N.

Fixpoint dropWhile (f : N -> bool) (s : jsstring) : jsstring :=
  match s with
  | [] => []
  | c :: s' => if f c then dropWhile f s' else s
  end.

Fixpoint takeWhile (f : N -> bool) (s : jsstring) : jsstring :=
  match s with
  | [] => []
  | c :: s' => if f c then c :: takeWhile f s' else []
  end.

Definition trimStart (s : jsstring) : jsstring := dropWhile isWhiteSpace s.
Definition trimEnd (s : jsstring) : jsstring :=
  rev (dropWhile isWhiteSpace (rev s)).
Definition trim (s : jsstring) : jsstring := trimEnd (trimStart s).

(** [s.startsWith(p)] and [s.includes(p)]. *)
Fixpoint startsWith (s p : jsstring) {struct p} : bool :=
  match p, s with
  | [], _ => true
  | _ :: _, [] => false
  | b :: p', a :: s' => (a =? b)%N && startsWith s' p'
  end.

Fixpoint includes (s p : jsstring) : bool :=
  startsWith s p
  || match s with [] => false | _ :: s' => includes s' p end.

(** [s.split(sep)] for a one-character separator: the empty string
    splits into one empty piece. *)
Fixpoint split (sep : N) (s : jsstring) : list jsstring :=
  match s with
  | [] => [[]]
  | c :: s' =>
      if (c =? sep)%N then [] :: split sep s'
      else match split sep s' with
           | w :: ws => (c :: w) :: ws
           | [] => [[c]]
           end
  end.

(** [s.split(/\s+/)]: [cur] is the piece being read and [inSep] tells
    that the previous character belonged to a separator run. *)
Fixpoint splitWsFrom (s cur : jsstring) (inSep : bool) : list jsstring :=
  match s with
  | [] => [cur]
  | c :: s' =>
      if isWhiteSpace c
      then (if inSep then splitWsFrom s' cur true
            else cur :: splitWsFrom s' [] true)
      else splitWsFrom s' (cur ++ [c]) false
  end.

Definition splitWs (s : jsstring) : list jsstring := splitWsFrom s [] false.

(** [s.replace(/\n/g, ' ')] *)
Definition newlinesToSpaces (s : jsstring) : jsstring :=
  map (fun c => if (c =? LF)%N then SPACE else c) s.

(** [arr.findIndex(f)], [None] standing for -1. *)
Fixpoint findIndex {A : Type} (f : A -> bool) (l : list A) : option nat :=
  match l with
  | [] => None
  | x :: l' => if f x then Some O
               else match findIndex f l' with
                    | Some i => Some (S i)
                    | None => None
                    end
  end.

(** [Array.prototype.sort] with a consistent comparator.  The language
    requires the sort to be stable, which fixes its result; [gt x y]
    reads: the comparator is positive at (x, y), that is, x must go
    after y. *)
Fixpoint insertBy {A : Type} (gt : A -> A -> bool) (x : A) (l : list A)
  : list A :=
  match l with
  | [] => [x]
  | y :: l' => if gt x y then y :: insertBy gt x l' else x :: l
  end.

Definition sortBy {A : Type} (gt : A -> A -> bool) (l : list A) : list A :=
  fold_right (insertBy gt) [] l.

(** ** parseInt *)

(** Value of a digit of [parseInt] in the given radix. *)
Definition digitValue (radix : Z) (c : N) : option Z :=
  let v :=
    if ((48 <=? c) && (c <=? 57))%N then Some (Z.of_N c - 48)%Z
    else if ((97 <=? c) && (c <=? 122))%N then Some (Z.of_N c - 87)%Z
    else if ((65 <=? c) && (c <=? 90))%N then Some (Z.of_N c - 55)%Z
    else None in
  match v with
  | Some d => if (d <? radix)%Z then Some d else None
  | None => None
  end.

(** Longest prefix of digits, read left to right; [None] when there is
    no digit at all. *)
Fixpoint readDigits (radix : Z) (acc : option Z) (s : jsstring)
  : option Z :=
  match s with
  | [] => acc
  | c :: s' =>
      match digitValue radix c with
      | Some d =>
          readDigits radix
            (Some (match acc with
                   | Some a => a * radix + d
                   | None => d
                   end)%Z) s'
      | None => acc
      end
  end.

Definition stripHexPrefix (s : jsstring) : option jsstring :=
  match s with
  | 48%N :: x :: r => if ((x =? 120) || (x =? 88))%N then Some r else None
  | _ => None
  end.

(** [parseInt(s, radix)]; [radix = None] is the one-argument call.
    [None] is NaN.  The result is the integer the digits spell; the host
    rounds it to binary64, which leaves it as it is up to 2^53 and is
    outside the model above. *)
Definition parseInt (s : jsstring) (radix : option Z) : option Z :=
  let s1 := trimStart s in
  let '(neg, s2) :=
    match s1 with
    | 45%N :: r => (true, r)
    | 43%N :: r => (false, r)
    | _ => (false, s1)
    end in
  let r0 := match radix with Some r => r | None => 0%Z end in
  if ((r0 =? 0) || ((2 <=? r0) && (r0 <=? 36)))%Z then
    let '(R, s3) :=
      if ((r0 =? 0) || (r0 =? 16))%Z then
        match stripHexPrefix s2 with
        | Some r => (16%Z, r)
        | None => ((if (r0 =? 0)%Z then 10 else r0)%Z, s2)
        end
      else (r0, s2) in
    match readDigits R None s3 with
    | Some v => Some (if neg then (- v)%Z else v)
    | None => None
    end
  else None.

(** [n || 0] for a number that may be NaN. *)
Definition orZero (n : option Z) : Z :=
  match n with Some v => v | None => 0%Z end.

(** ** Numbers (binary64) *)

Abbreviation num := spec_float.
Definition prec : Z := 53.
Definition emax : Z := 1024.

Definition ofZ (z : Z) : num := binary_normalize prec emax z 0 false.
(** The decimal literal [n/d] (for instance 0.7 is [decimal 7 10]): the
    correctly rounded quotient of two exact integers is the binary64
    number nearest to the literal. *)
Definition decimal (n d : Z) : num := SFdiv prec emax (ofZ n) (ofZ d).

Definition add : num -> num -> num := SFadd prec emax.
Definition sub : num -> num -> num := SFsub prec emax.
Definition mul : num -> num -> num := SFmul prec emax.
(** [x > y] *)
Definition gtb (x y : num) : bool := SFltb y x.
(** [Math.max(x, y)] on numbers that are not NaN. *)
Definition max (x y : num) : num := if SFltb x y then y else x.

(** The ASCII part of [toLowerCase]. *)
Definition lowerChar (c : N) : N :=
  if ((65 <=? c) && (c <=? 90))%N then (c + 32)%N else c.
Definition asciiLower (s : jsstring) : jsstring := map lowerChar s.

(** ** Regular expression tests with the [i] flag

    The patterns of the classifier are alternations of ASCII literals
    and of pairs [a.*b]; without the [u] flag the [i] flag only folds
    the ASCII letters of such patterns. *)
Fixpoint startsWithCI (s p : jsstring) {struct p} : bool :=
  match p, s with
  | [], _ => true
  | _ :: _, [] => false
  | b :: p', a :: s' =>
      (lowerChar a =? lowerChar b)%N && startsWithCI s' p'
  end.

Fixpoint includesCI (s p : jsstring) : bool :=
  startsWithCI s p
  || match s with [] => false | _ :: s' => includesCI s' p end.

(** Remainder of [s] after a prefix that matches [p]. *)
Fixpoint afterPrefixCI (s p : jsstring) {struct p}
  : option jsstring :=
  match p, s with
  | [], _ => Some s
  | _ :: _, [] => None
  | b :: p', a :: s' =>
      if (lowerChar a =? lowerChar b)%N then afterPrefixCI s' p' else None
  end.

(** [/a.*b/i.test(s)] *)
Fixpoint testGapCI (a b s : jsstring) : bool :=
  match afterPrefixCI s a with
  | Some r =>
      includesCI (takeWhile (fun c => negb (isLineTerminator c)) r) b
  | None => false
  end
  || match s with [] => false | _ :: s' => testGapCI a b s' end.

Inductive alt : Type :=
| Lit (w : jsstring)
| Gap (a b : jsstring).

Definition testAlt (s : jsstring) (x : alt) : bool :=
  match x with
  | Lit w => includesCI s w
  | Gap a b => testGapCI a b s
  end.

(** [/x1|x2|.../i.test(s)] *)
Definition test (alts : list alt) (s : jsstring) : bool :=
  existsb (testAlt s) alts.

Definition L (w : string) : alt := Lit (lit w).
Definition G (a b : string) : alt := Gap (lit a) (lit b).
Arguments L _%_string.
Arguments G _%_string _%_string.

End JS.

(* ===================================================================== *)
(** * Data model *)
(* ===================================================================== *)

Module Variant.
Record t : Type := mk {
  name : jsstring;
  price : jsstring;
  priceValue : Z
}.
End Variant.

(** The regular expressions of the two [parseVariants] share their head
    [(.+?)\s*] and differ in what follows; [variantMatch tail part] is
    [part.match(/(.+?)<tail>/)] for a tail that yields the second capture.
    The search order is that of the backtracking matcher: leftmost start
    first, then the shortest first capture. *)
Module VariantRegex.
Import JS.

(** First capture [g1] already read (not empty), [s] is what follows. *)
Fixpoint fromStart (tail : jsstring -> option jsstring)
         (g1 s : jsstring) : option (jsstring * jsstring) :=
  match tail s with
  | Some g2 => Some (g1, g2)
  | None =>
      match s with
      | c :: s' =>
          if isLineTerminator c then None
          else fromStart tail (g1 ++ [c]) s'
      | [] => None
      end
  end.

Fixpoint variantMatch (tail : jsstring -> option jsstring)
         (part : jsstring) : option (jsstring * jsstring) :=
  match part with
  | [] => None
  | c :: s' =>
      match (if isLineTerminator c then None else fromStart tail [c] s') with
      | Some r => Some r
      | None => variantMatch tail s'
      end
  end.

(** [\s*X] for a literal X that is not white space: the greedy run
    either ends just before X or the match fails. *)
Definition afterWsChar (x : N) (s : jsstring) : option jsstring :=
  match dropWhile isWhiteSpace s with
  | c :: r => if (c =? x)%N then Some r else None
  | [] => None
  end.

End VariantRegex.

(* ===================================================================== *)
(** * app.js *)
(* ===================================================================== *)

Module App.
Import JS.

Record Product : Type := mkProduct {
  id : nat;
  productId : jsstring;
  name : jsstring;
  description : jsstring;
  price : jsstring;
  priceValue : Z;
  variants : list Variant.t;
  category : jsstring;
  emoji : jsstring;
  imageUrl : jsstring;
  sameDay : bool
}.

(** [parseInt(priceStr.replace(/[₦,]/g, '')) || 0] *)
Definition parsePriceValue (priceStr : jsstring) : Z :=
  orZero
    (parseInt
       (filter (fun c => negb ((c =? NAIRA) || (c =? COMMA))%N) priceStr)
       None).

(** [\s*(₦[\d,]+)]: the price capture of the variant pattern. *)
Definition priceCapture (r : jsstring) : option jsstring :=
  match VariantRegex.afterWsChar NAIRA r with
  | Some r' =>
      match takeWhile (fun c => isDigit c || (c =? COMMA)%N) r' with
      | [] => None
      | ds => Some (NAIRA :: ds)
      end
  | None => None
  end.

(** Tail [\s*—\s*(₦[\d,]+)] of the variant pattern. *)
Definition variantTail (s : jsstring) : option jsstring :=
  match VariantRegex.afterWsChar EM_DASH s with
  | Some r => priceCapture r
  | None => None
  end.

(** Body of the loop of [parseVariants]: the variant pushed for one
    entry of the blob, or [None] when the entry does not match. *)
Definition variantOf (part : jsstring) : option Variant.t :=
  match VariantRegex.variantMatch variantTail part with
  | Some (m1, m2) =>
      Some (Variant.mk (trim m1) (trim m2) (parsePriceValue m2))
  | None => None
  end.

Definition parseVariants (variantsStr : jsstring) : list Variant.t :=
  if negb (truthy variantsStr) || streq (trim variantsStr) [] then []
  else
    flat_map
      (fun part =>
         match variantOf part with Some v => [v] | None => [] end)
      (split PIPE variantsStr).

(** The loop of [parseCSVRow]; a doubled quote is consumed as a pair. *)
Fixpoint parseCSVRowFrom (row : jsstring) (fields : list jsstring)
         (currentField : jsstring) (inQuotes : bool) : list jsstring :=
  match row with
  | [] => fields ++ [trim currentField]
  | char :: rest =>
      if (char =? QUOTE)%N then
        match rest with
        | next :: rest' =>
            if (next =? QUOTE)%N
            then parseCSVRowFrom rest' fields (currentField ++ [QUOTE])
                                 inQuotes
            else parseCSVRowFrom rest fields currentField (negb inQuotes)
        | [] => parseCSVRowFrom rest fields currentField (negb inQuotes)
        end
      else if (char =? COMMA)%N && negb inQuotes then
        parseCSVRowFrom rest (fields ++ [trim currentField]) [] inQuotes
      else parseCSVRowFrom rest fields (currentField ++ [char]) inQuotes
  end.

Definition parseCSVRow (row : jsstring) : list jsstring :=
  parseCSVRowFrom row [] [] false.

(** [if (currentRow.trim()) rows.push(currentRow)] *)
Definition pushRow (rows : list jsstring) (currentRow : jsstring)
  : list jsstring :=
  if truthy (trim currentRow) then rows ++ [currentRow] else rows.

(** The row-splitting loop at the head of [parseCSV]. *)
Fixpoint splitRowsFrom (text : jsstring) (rows : list jsstring)
         (currentRow : jsstring) (inQuotes : bool) : list jsstring :=
  match text with
  | [] => pushRow rows currentRow
  | char :: rest =>
      if (char =? QUOTE)%N then
        splitRowsFrom rest rows (currentRow ++ [char]) (negb inQuotes)
      else if (char =? LF)%N && negb inQuotes then
        splitRowsFrom rest (pushRow rows currentRow) [] inQuotes
      else
        match rest with
        | nextChar :: rest' =>
            if (char =? CR)%N && (nextChar =? LF)%N && negb inQuotes
            then splitRowsFrom rest' (pushRow rows currentRow) [] inQuotes
            else splitRowsFrom rest rows (currentRow ++ [char]) inQuotes
        | [] => splitRowsFrom rest rows (currentRow ++ [char]) inQuotes
        end
  end.

Definition splitRows (text : jsstring) : list jsstring :=
  splitRowsFrom text [] [] false.

(** The replace call of the row loop, whose pattern is: start, quote,
    any run of [.], exactly one quote, end.  One layer of enclosing
    quotes is removed when nothing between them is a line terminator. *)
Definition unwrapQuotes (f : jsstring) : jsstring :=
  match f with
  | q :: r =>
      if (q =? QUOTE)%N then
        match rev r with
        | q' :: m =>
            if (q' =? QUOTE)%N
               && forallb (fun c => negb (isLineTerminator c)) m
            then rev m else f
        | [] => f
        end
      else f
  | [] => f
  end.

Definition cleanField (f : jsstring) : jsstring := trim (unwrapQuotes f).

(** [(a, b) => a.priceValue - b.priceValue] is positive. *)
Definition dearer (a b : Variant.t) : bool :=
  (0 <? Variant.priceValue a - Variant.priceValue b)%Z.

(** The display price of a row: its own price field, else the price of
    the first variant of the list sorted by price. *)
Definition resolvePrice (finalPrice : option jsstring)
           (variants : list Variant.t) : jsstring * Z :=
  let displayPrice := trim (orEmpty finalPrice) in
  let displayPriceValue := parsePriceValue displayPrice in
  if negb (truthy displayPrice) && (0 <? length variants)%nat then
    match sortBy dearer variants with
    | v :: _ => (Variant.price v, Variant.priceValue v)
    | [] => (displayPrice, displayPriceValue)
    end
  else (displayPrice, displayPriceValue).

(** [isSameDay] of a row. *)
Definition sameDayOf (toLowerCase : jsstring -> jsstring)
           (sameDayColIdx : option nat) (cleanFields : list jsstring)
  : bool :=
  match sameDayColIdx with
  | Some i =>
      match nth_error cleanFields i with
      | Some cell =>
          truthy cell && streq (toLowerCase cell) (lit "true")
      | None => false
      end
  | None => false
  end.

(** [h => h.toLowerCase().trim() === 'sameday'] over the header. *)
Definition sameDayColumn (toLowerCase : jsstring -> jsstring)
           (headerFields : list jsstring) : option nat :=
  findIndex (fun h => streq (trim (toLowerCase h)) (lit "sameday"))
            headerFields.

Section Host.
Variable toLowerCase : jsstring -> jsstring.

Definition categorizeProduct (name : jsstring) : jsstring :=
  let n := toLowerCase name in
  if test [L "ring"; L "necklace"; L "earring"; L "bracelet";
           L "jewelry"; L "jewel"] n then lit "Jewelry"
  else if test [L "teddy"; L "bear"; L "plush"; L "stuffed"] n
  then lit "Teddy Bears"
  else if test [L "rose"; L "flower"; L "bouquet"; L "soap flower"] n
  then lit "Flowers"
  else if test [L "gift basket"; L "gift box"; L "gift set";
                L "gift hamper"] n then lit "Gift Baskets"
  else if test [L "pizza"; L "burger"; L "chicken"; L "sandwich";
                L "pasta"; L "italian"; L "asian"; L "quesadilla";
                L "pie"; L "sesame"] n then lit "Food"
  else if test [G "cake" "wine"; G "cake" "champagne"; G "wine" "cake";
                G "wine" "roses"] n then lit "Wine & Treats"
  else if test [L "custom"; L "personalized"; L "photo"; L "print";
                L "mug"; L "blanket"; L "t-shirt"; L "hoodie";
                L "card"] n then lit "Custom Items"
  else if test [L "christmas"; L "xmas"; L "santa"; L "tree"] n
  then lit "Christmas"
  else if test [L "watch"; L "wristwatch"] n then lit "Watches"
  else if test [L "key fob"; L "remote"; L "tesla"; L "bmw";
                L "mercedes"] n then lit "Car Keys"
  else if test [L "military"; L "army"; L "camo"; L "uniform"] n
  then lit "Military"
  else if test [L "underwear"; L "boxer"; L "brief"] n
  then lit "Underwear"
  else if test [L "wine"; L "chocolate"; L "ferrero"; L "champagne"] n
  then lit "Wine & Treats"
  else lit "Other".

(** The emoji are given by their UTF-16 code units. *)
Definition getProductEmoji (name : jsstring) : jsstring :=
  let n := toLowerCase name in
  if test [L "ring"] n then [55357; 56461]%N
  else if test [L "necklace"] n then [55357; 56575]%N
  else if test [L "earring"] n then [55357; 56386]%N
  else if test [L "watch"] n then [8986]%N
  else if test [L "teddy"; L "bear"] n then [55358; 56824]%N
  else if test [L "rose"; L "flower"] n then [55356; 57145]%N
  else if test [L "gift"; L "basket"] n then [55356; 57217]%N
  else if test [L "pizza"] n then [55356; 57173]%N
  else if test [L "burger"] n then [55356; 57172]%N
  else if test [L "chicken"] n then [55356; 57175]%N
  else if test [L "christmas"; L "xmas"; L "santa"] n
  then [55356; 57220]%N
  else if test [L "chocolate"] n then [55356; 57195]%N
  else if test [L "wine"] n then [55356; 57207]%N
  else if test [L "mug"; L "cup"] n then [9749]%N
  else if test [L "photo"; L "picture"] n then [55357; 56568]%N
  else if test [L "card"] n then [55357; 56460]%N
  else if test [L "quesadilla"] n then [55356; 57134]%N
  else if test [L "pie"] n then [55358; 56679]%N
  else if test [L "sesame"] n then [55356; 57179]%N
  else if test [L "cake"] n then [55356; 57218]%N
  else if test [L "key"] n then [55357; 56593]%N
  else [55357; 56550]%N.

(** Body of the row loop of [parseCSV]: the record pushed for the row,
    or [None] when the row is skipped. [productId] is the counter. *)
Definition rowRecord (sameDayColIdx : option nat) (productId : nat)
           (row : jsstring) : option Product :=
  let fields := parseCSVRow row in
  let cleanFields := map cleanField fields in
  if (2 <=? length cleanFields)%nat
     && truthy (orEmpty (nth_error cleanFields 0))
  then
    let prodId := nth_error cleanFields 0 in
    let name := nth_error cleanFields 1 in
    let description := nth_error cleanFields 2 in
    let finalPrice := nth_error cleanFields 3 in
    let variantsPrices := nth_error cleanFields 4 in
    let imageUrl := nth_error cleanFields 5 in
    let variants := parseVariants (orEmpty variantsPrices) in
    let '(displayPrice, displayPriceValue) :=
      resolvePrice finalPrice variants in
    if negb (truthy displayPrice) then None
    else
      let descClean :=
        if truthy (orEmpty description)
           && negb (streq (orEmpty description) (lit "No description"))
        then trim (newlinesToSpaces (orEmpty description))
        else [] in
      Some {|
        id := productId;
        productId := orEmpty prodId;
        name := trim (newlinesToSpaces (orEmpty name));
        description := descClean;
        price := displayPrice;
        priceValue := displayPriceValue;
        variants := variants;
        category := categorizeProduct (orEmpty name);
        emoji := getProductEmoji (orEmpty name);
        imageUrl := orEmpty imageUrl;
        sameDay := sameDayOf toLowerCase sameDayColIdx cleanFields
      |}
  else None.

Fixpoint parseRows (sameDayColIdx : option nat) (rows : list jsstring)
         (productId : nat) : list Product :=
  match rows with
  | [] => []
  | row :: rows' =>
      match rowRecord sameDayColIdx productId row with
      | Some p => p :: parseRows sameDayColIdx rows' (S productId)
      | None => parseRows sameDayColIdx rows' productId
      end
  end.

Definition parseCSV (text : jsstring) : list Product :=
  let rows := splitRows text in
  let headerRow := orEmpty (nth_error rows 0) in
  let headerFields := parseCSVRow headerRow in
  let sameDayColIdx := sameDayColumn toLowerCase headerFields in
  parseRows sameDayColIdx (tl rows) 1.

(** ** Prioritizer *)

Definition featuredIds : list jsstring :=
  lits ["PROD-1487"; "PROD-1488"]%string.

Definition priorityKeywords : list jsstring :=
  lits ["flower"; "rose"; "bouquet"; "pizza"; "drink"; "beverage";
        "chicken"; "ring"; "engagement"; "wedding"; "document";
        "certificate"; "processing"]%string.

(** The first [forEach]: a later product with a pinned identifier
    overwrites an earlier one. *)
Definition featuredMapOf (products : list Product)
  : gmap jsstring Product :=
  fold_left
    (fun (featuredMap : gmap jsstring Product) product =>
       if existsb (streq (productId product)) featuredIds
       then <[productId product := product]> featuredMap
       else featuredMap)
    products ∅.

(** [featuredMap.has(key)] *)
Definition has (featuredMap : gmap jsstring Product) (key : jsstring)
  : bool :=
  match featuredMap !! key with Some _ => true | None => false end.

Definition isPriority (product : Product) : bool :=
  let text :=
    toLowerCase (name product ++ [SPACE] ++ description product) in
  existsb (fun kw => includes text kw) priorityKeywords.

(** The second [forEach], pushing into [priority] or [other]. *)
Definition partitionRemaining (remaining : list Product)
  : list Product * list Product :=
  fold_left
    (fun (acc : list Product * list Product) product =>
       let '(priority, other) := acc in
       if isPriority product then (priority ++ [product], other)
       else (priority, other ++ [product]))
    remaining ([], []).

Definition prioritizeProducts (products : list Product)
  : list Product :=
  let featuredMap := featuredMapOf products in
  let remaining :=
    filter (fun product => negb (has featuredMap (productId product)))
           products in
  let '(priority, other) := partitionRemaining remaining in
  let prioritized := priority ++ other in
  let firstFeatured := featuredMap !! nth 0 featuredIds [] in
  let secondFeatured := featuredMap !! nth 1 featuredIds [] in
  match firstFeatured, secondFeatured with
  | Some first, Some second =>
      let splitIndex := Nat.min 10 (length prioritized) in
      [first] ++ firstn splitIndex prioritized
              ++ [second] ++ skipn splitIndex prioritized
  | Some first, None => first :: prioritized
  | None, Some second => second :: prioritized
  | None, None => prioritized
  end.

(** ** Search *)

(** The subsequence loop of [fuzzyMatch]; the result is the final
    [patternIdx]. *)
Fixpoint subsequenceScan (strLower patternLower : jsstring)
         (patternIdx : nat) : nat :=
  match strLower with
  | [] => patternIdx
  | c :: rest =>
      if (patternIdx <? length patternLower)%nat then
        subsequenceScan rest patternLower
          (match nth_error patternLower patternIdx with
           | Some q => if (c =? q)%N then S patternIdx else patternIdx
           | None => patternIdx
           end)
      else patternIdx
  end.

Definition fuzzyMatch (str pattern : jsstring) : num :=
  let strLower := toLowerCase str in
  let patternLower := toLowerCase pattern in
  if includes strLower patternLower then ofZ 2
  else
    let words := splitWs strLower in
    if existsb (fun word => startsWith word patternLower) words
    then decimal 15 10
    else if (4 <=? length patternLower)%nat then ofZ 0
    else
      let patternIdx := subsequenceScan strLower patternLower 0 in
      if (patternIdx =? length patternLower)%nat then decimal 5 10
      else ofZ 0.

(** The module-level variables read and written by the search and
    filter functions. *)
Record State : Type := mkState {
  allProducts : list Product;
  filteredProducts : list Product
}.

Definition variantsMax (searchTerm : jsstring) (product : Product)
  : num :=
  fold_left (fun max score => JS.max max score)
            (map (fun v => fuzzyMatch (Variant.name v) searchTerm)
                 (variants product))
            (ofZ 0).

(** The [score] computed by the [map] callback of [performSearch]. *)
Definition productScore (searchTerm : jsstring) (product : Product)
  : num :=
  let nameScore := fuzzyMatch (name product) searchTerm in
  let descScore :=
    mul (fuzzyMatch (description product) searchTerm) (decimal 7 10) in
  let categoryScore :=
    mul (fuzzyMatch (category product) searchTerm) (decimal 5 10) in
  let variantsScore :=
    mul (variantsMax searchTerm product) (decimal 6 10) in
  add (add (add nameScore descScore) categoryScore) variantsScore.

(** [(a, b) => b.score - a.score] is positive. *)
Definition lowerScore (a b : Product * num) : bool :=
  gtb (sub (snd b) (snd a)) (ofZ 0).

Definition performSearch (searchTerm : jsstring) (st : State) : State :=
  if streq searchTerm [] then
    mkState (allProducts st) (allProducts st)
  else
    let scored :=
      map (fun product => (product, productScore searchTerm product))
          (allProducts st) in
    let kept := filter (fun item => gtb (snd item) (ofZ 0)) scored in
    mkState (allProducts st) (map fst (sortBy lowerScore kept)).

(** ** Filters *)

(** The [switch] of [applyCurrentFilters]. *)
Definition filterPredicate (activeFilter : jsstring) (product : Product)
  : bool :=
  let on := fun tag => streq activeFilter tag in
  let v := priceValue product in
  if on (lit "hot") then
    streq (category product) (lit "Food")
    || streq (category product) (lit "Flowers")
    || streq (category product) (lit "Teddy Bears")
  else if on (lit "under50k") then (0 <? v)%Z && (v <? 50000)%Z
  else if on (lit "budget-friendly") then (0 <? v)%Z && (v <=? 60000)%Z
  else if on (lit "best-value") then (50000 <=? v)%Z && (v <=? 90000)%Z
  else if on (lit "under100k") then (0 <? v)%Z && (v <? 100000)%Z
  else if on (lit "same-day") then sameDay product
  else if on (lit "premium") then (120000 <=? v)%Z
  else true.

(** [activeFilter] is the tag of the active filter pill (or all) and
    [searchInput] the text of the search box, both read from the
    page. *)
Definition applyCurrentFilters (activeFilter searchInput : jsstring)
           (st : State) : State :=
  let searchTerm := trim (toLowerCase searchInput) in
  let products :=
    if streq searchTerm [] then allProducts st
    else filteredProducts st in
  let products :=
    if negb (streq activeFilter (lit "all"))
    then filter (filterPredicate activeFilter) products
    else products in
  mkState (allProducts st) products.

Definition categoryFilters : list (jsstring * list jsstring) :=
  [ (lit "valentine",
     lits ["valentine"; "love"; "heart"; "romance"; "rose"; "cupid"]%string);
    (lit "birthday",
     lits ["birthday"; "celebration"; "party"; "gift"; "cake"]%string);
    (lit "anniversary",
     lits ["anniversary"; "wedding"; "engagement"; "ring"; "couple"]%string);
    (lit "holiday",
     lits ["christmas"; "holiday"; "santa"; "festive"; "seasonal"]%string);
    (lit "jewelry",
     lits ["ring"; "necklace"; "bracelet"; "earring"; "silver"; "gold";
           "jewelry"; "pendant"]%string);
    (lit "watches", lits ["watch"; "timepiece"]%string);
    (lit "plush", lits ["teddy"; "bear"; "plush"; "stuffed"; "toy"]%string);
    (lit "home", lits ["mug"; "basket"; "cup"; "home"; "decor"]%string);
    (lit "fashion",
     lits ["pants"; "clothing"; "apparel"; "fashion"; "wear"]%string);
    (lit "beauty", lits ["beauty"; "skincare"; "cosmetic"]%string);
    (lit "for-her",
     lits ["women"; "woman"; "her"; "ladies"; "female"]%string);
    (lit "for-him", lits ["men"; "man"; "male"; "mens"]%string);
    (lit "couples", lits ["couple"; "pair"; "his and hers"]%string);
    (lit "trending", []);
    (lit "bundles", lits ["set"; "bundle"; "pack"; "collection"]%string) ].

(** [categoryFilters[category] || []] for the tags of the category
    pills; a string that is no key of the table but names an inherited
    property of the object is outside the model. *)
Definition keywordsOf (category : jsstring) : list jsstring :=
  match find (fun entry => streq (fst entry) category) categoryFilters
  with
  | Some entry => snd entry
  | None => []
  end.

Definition categoryPredicate (category : jsstring) (product : Product)
  : bool :=
  let text :=
    toLowerCase (name product ++ [SPACE] ++ description product) in
  existsb (fun kw => includes text kw) (keywordsOf category).

Definition filterByCategory (category : jsstring) (st : State) : State :=
  if streq category (lit "trending") then
    mkState (allProducts st)
      (firstn 50
         (filter (fun p => (40000 <? priceValue p)%Z
                           && (priceValue p <? 100000)%Z)
                 (allProducts st)))
  else
    mkState (allProducts st)
      (filter (categoryPredicate category) (allProducts st)).

End Host.
End App.

(* ===================================================================== *)
(** * staff.js *)
(* ===================================================================== *)

Module Staff.
Import JS.

Record Product : Type := mkProduct {
  productId : jsstring;
  name : jsstring;
  description : jsstring;
  price : jsstring;
  priceValue : Z;
  variants : list Variant.t;
  imageUrl : jsstring;
  sameDay : bool
}.

(** The argument is always a string at the call sites, so the coercion
    and the empty-string default of the source are the identity. *)
Definition parsePriceValue (priceStr : jsstring) : Z :=
  let digits := filter isDigit priceStr in
  orZero (parseInt digits (Some 10%Z)).

(** [\s*(.+)]: the greedy run of white space gives characters back
    until a character that [.] accepts follows. *)
Fixpoint wsThenText (s : jsstring) : option jsstring :=
  let here :=
    match takeWhile (fun c => negb (isLineTerminator c)) s with
    | [] => None
    | g => Some g
    end in
  match s with
  | [] => None
  | c :: s' =>
      if isWhiteSpace c then
        match wsThenText s' with
        | Some g => Some g
        | None => here
        end
      else here
  end.

(** Tail [\s*—\s*(.+)] of the variant pattern. *)
Definition variantTail (s : jsstring) : option jsstring :=
  match VariantRegex.afterWsChar EM_DASH s with
  | Some r => wsThenText r
  | None => None
  end.

(** Body of the loop of [parseVariants]: the variant pushed for one
    entry of the blob, or [None] when the entry does not match. *)
Definition variantOf (part : jsstring) : option Variant.t :=
  match VariantRegex.variantMatch variantTail part with
  | Some (m1, m2) =>
      Some (Variant.mk (trim m1) (trim m2) (parsePriceValue m2))
  | None => None
  end.

Definition parseVariants (variantsStr : jsstring) : list Variant.t :=
  if negb (truthy variantsStr) || streq (trim variantsStr) [] then []
  else
    flat_map
      (fun part =>
         match variantOf part with Some v => [v] | None => [] end)
      (split PIPE variantsStr).

(** The row splitter, the field parser and the field cleaning of
    [staff.js] are, character for character, those of [app.js]. *)
Definition parseCSVRow : jsstring -> list jsstring := App.parseCSVRow.
Definition splitRows : jsstring -> list jsstring := App.splitRows.
Definition cleanField : jsstring -> jsstring := App.cleanField.

Definition resolvePrice (finalPrice : option jsstring)
           (variants : list Variant.t) : jsstring * Z :=
  let displayPrice := trim (orEmpty finalPrice) in
  let displayPriceValue := parsePriceValue displayPrice in
  if negb (truthy displayPrice) && (0 <? length variants)%nat then
    match sortBy App.dearer variants with
    | v :: _ => (Variant.price v, Variant.priceValue v)
    | [] => (displayPrice, displayPriceValue)
    end
  else (displayPrice, displayPriceValue).

Section Host.
Variable toLowerCase : jsstring -> jsstring.

Definition rowRecord (sameDayColIdx : option nat) (row : jsstring)
  : option Product :=
  let fields := parseCSVRow row in
  let cleanFields := map cleanField fields in
  if (2 <=? length cleanFields)%nat
     && truthy (orEmpty (nth_error cleanFields 0))
  then
    let prodId := nth_error cleanFields 0 in
    let name := nth_error cleanFields 1 in
    let description := nth_error cleanFields 2 in
    let finalPrice := nth_error cleanFields 3 in
    let variantsPrices := nth_error cleanFields 4 in
    let imageUrl := nth_error cleanFields 5 in
    let variants := parseVariants (orEmpty variantsPrices) in
    let '(displayPrice, displayPriceValue) :=
      resolvePrice finalPrice variants in
    if negb (truthy displayPrice) then None
    else
      Some {|
        productId := orEmpty prodId;
        name := trim (newlinesToSpaces (orEmpty name));
        description := trim (newlinesToSpaces (orEmpty description));
        price := displayPrice;
        priceValue := displayPriceValue;
        variants := variants;
        imageUrl := orEmpty imageUrl;
        sameDay := App.sameDayOf toLowerCase sameDayColIdx cleanFields
      |}
  else None.

Fixpoint parseRows (sameDayColIdx : option nat) (rows : list jsstring)
  : list Product :=
  match rows with
  | [] => []
  | row :: rows' =>
      match rowRecord sameDayColIdx row with
      | Some p => p :: parseRows sameDayColIdx rows'
      | None => parseRows sameDayColIdx rows'
      end
  end.

Definition parseCSV (text : jsstring) : list Product :=
  let rows := splitRows text in
  let headerRow := orEmpty (nth_error rows 0) in
  let headerFields := parseCSVRow headerRow in
  let sameDayColIdx := App.sameDayColumn toLowerCase headerFields in
  parseRows sameDayColIdx (tl rows).

End Host.
End Staff.

(* ===================================================================== *)
(** * app.js: badges, product codes and the paged grid *)
(* ===================================================================== *)

Module View.
Import JS.

Definition BATCH_SIZE : nat := 50.

(** The opening tag shared by the badges, and the badge for an emoji
    (given by its code units) and a label. *)
Definition badgeOpen : jsstring :=
  lit "<div class=" ++ [QUOTE] ++ lit "product-badge" ++ [QUOTE] ++ lit ">".

Definition badge (emoji : jsstring) (label : string) : jsstring :=
  badgeOpen ++ emoji ++ lit " " ++ lit label ++ lit "</div>".

Definition badgeBudget : jsstring := badge [55357; 56496]%N "Budget-Friendly".
Definition badgeBestValue : jsstring := badge [11088]%N "Best Value".
Definition badgePremium : jsstring := badge [55357; 56462]%N "Premium".
Definition badgeHot : jsstring := badge [55357; 56613]%N "Hot".

Definition getProductBadge (product : App.Product) : jsstring :=
  let v := App.priceValue product in
  if (v <? 50000)%Z then badgeBudget
  else if (50000 <=? v)%Z && (v <=? 100000)%Z then badgeBestValue
  else if (150000 <? v)%Z then badgePremium
  else if streq (App.category product) (lit "Food") then badgeHot
  else [].

(** [String(n)] for a non-negative integer: its decimal digits.  The
    fuel is the number of binary digits, which bounds the number of
    decimal ones. *)
Fixpoint digitsOf (fuel : nat) (n : N) (acc : jsstring) : jsstring :=
  match fuel with
  | O => acc
  | S fuel' =>
      let acc' := (48 + n mod 10)%N :: acc in
      if (n / 10 =? 0)%N then acc' else digitsOf fuel' (n / 10) acc'
  end.

Definition numberToString (n : N) : jsstring :=
  digitsOf (S (N.to_nat (N.size n))) n [].

(** [s.padStart(targetLength, pad)] for a one-character pad. *)
Definition padStart (targetLength : nat) (pad : N) (s : jsstring)
  : jsstring :=
  repeat pad (targetLength - length s) ++ s.

Definition getProductCode (product : App.Product) : jsstring :=
  if truthy (App.productId product) then App.productId product
  else lit "PROD-"
       ++ padStart 4 48 (numberToString (N.of_nat (App.id product))).

(** The grid of the page: [displayedCount], and the products whose cards
    have been inserted into the grid, in order ([grid]); [gridShown]
    tells whether the grid is displayed or replaced by the empty
    state. *)
Record Page : Type := mkPage {
  displayedCount : nat;
  grid : list App.Product;
  gridShown : bool
}.

(** [arr.slice(start, end)] for indices within the array. *)
Definition slice {A : Type} (start end_ : nat) (l : list A) : list A :=
  firstn (end_ - start) (skipn start l).

Definition loadMoreProducts (filteredProducts : list App.Product)
           (pg : Page) : Page :=
  let start := displayedCount pg in
  let end_ := Nat.min (start + BATCH_SIZE) (length filteredProducts) in
  if (length filteredProducts <=? start)%nat then pg
  else
    let batch := slice start end_ filteredProducts in
    mkPage end_ (grid pg ++ batch) (gridShown pg).

Definition renderProducts (filteredProducts : list App.Product)
           (pg : Page) : Page :=
  if (length filteredProducts =? 0)%nat
  then mkPage (displayedCount pg) (grid pg) false
  else loadMoreProducts filteredProducts (mkPage 0 [] true).

(** [allProducts] after the two assignments of [loadProducts], from
    the text of the feed. *)
Definition loadedProducts (toLowerCase : jsstring -> jsstring)
           (csvText : jsstring) : list App.Product :=
  App.prioritizeProducts toLowerCase (App.parseCSV toLowerCase csvText).

End View.

(* ===================================================================== *)
(** * app.js: the cart *)
(* ===================================================================== *)

Module Cart.
Import JS.

(** A line of the cart.  [id] is the clock reading taken when the line
    was created. *)
Record item : Type := mkItem {
  id : Z;
  product : App.Product;
  variant : option Variant.t;
  price : jsstring;
  priceValue : Z;
  qty : Z
}.

(** The variables the cart functions read and write. *)
Record Session : Type := mkSession {
  cart : list item;
  selectedProduct : option App.Product;
  selectedVariant : option Variant.t
}.

(** The test of [addToCart] for a line of the same product and option. *)
Definition sameLine (product : App.Product) (variant : option Variant.t)
           (it : item) : bool :=
  (App.id (Cart.product it) =? App.id product)%nat
  && match Cart.variant it, variant with
     | None, None => true
     | Some iv, Some v => streq (Variant.name iv) (Variant.name v)
     | _, _ => false
     end.

(** [item.qty += delta] *)
Definition addQty (delta : Z) (it : item) : item :=
  mkItem (id it) (product it) (variant it) (price it) (priceValue it)
         (qty it + delta).

(** [l[i]] replaced by [f l[i]]. *)
Fixpoint updateAt (i : nat) (f : item -> item) (l : list item)
  : list item :=
  match l, i with
  | [], _ => []
  | x :: r, O => f x :: r
  | x :: r, S j => x :: updateAt j f r
  end.

(** [now] is the reading of [Date.now()]; [hideModal] resets
    [selectedVariant]. *)
Definition addToCart (now : Z) (product : App.Product)
           (variant : option Variant.t) (s : Session) : Session :=
  let existingIdx := findIndex (sameLine product variant) (cart s) in
  let cart' :=
    match existingIdx with
    | Some i => updateAt i (addQty 1) (cart s)
    | None =>
        cart s
        ++ [mkItem now product variant
              (match variant with
               | Some v => Variant.price v
               | None => App.price product
               end)
              (match variant with
               | Some v => Variant.priceValue v
               | None => App.priceValue product
               end)
              1]
    end in
  mkSession cart' (selectedProduct s) None.

Definition removeFromCart (cartItemId : Z) (s : Session) : Session :=
  mkSession (filter (fun it => negb (id it =? cartItemId)%Z) (cart s))
            (selectedProduct s) (selectedVariant s).

Definition updateQty (cartItemId delta : Z) (s : Session) : Session :=
  match findIndex (fun it => (id it =? cartItemId)%Z) (cart s) with
  | None => s
  | Some i =>
      let s' := mkSession (updateAt i (addQty delta) (cart s))
                          (selectedProduct s) (selectedVariant s) in
      match nth_error (cart s') i with
      | Some it => if (qty it <? 1)%Z then removeFromCart cartItemId s'
                   else s'
      | None => s'
      end
  end.

Definition clearCart (s : Session) : Session :=
  mkSession [] (selectedProduct s) (selectedVariant s).

(** The count shown on the cart icon and the total of the cart. *)
Definition totalItems (cart : list item) : Z :=
  fold_left (fun sum it => (sum + qty it)%Z) cart 0%Z.

Definition total (cart : list item) : Z :=
  fold_left (fun sum it => (sum + priceValue it * qty it)%Z) cart 0%Z.

(** A product with options opens the option dialog instead of going to
    the cart. *)
Definition handleAddToCart (now : Z) (allProducts : list App.Product)
           (productId : nat) (s : Session) : Session :=
  let found := find (fun p => (App.id p =? productId)%nat) allProducts in
  let s' := mkSession (cart s) found (selectedVariant s) in
  match found with
  | None => s'
  | Some p =>
      if (0 <? length (App.variants p))%nat then s'
      else addToCart now p None s'
  end.

End Cart.

(* ===================================================================== *)
(** * staff.js: escaping and lookup *)
(* ===================================================================== *)

Module Lookup.
Import JS.

Definition RESULTS_LIMIT : nat := 60.

(** The replacement of one character by [escapeHtml]. *)
Definition escapeChar (c : N) : jsstring :=
  if (c =? 38)%N then lit "&amp;"
  else if (c =? 60)%N then lit "&lt;"
  else if (c =? 62)%N then lit "&gt;"
  else if (c =? 34)%N then lit "&quot;"
  else if (c =? 39)%N then lit "&#39;"
  else [c].

(** The argument is a string at every call site. *)
Definition escapeHtml (value : jsstring) : jsstring :=
  flat_map escapeChar value.

Section Host.
Variable toLowerCase : jsstring -> jsstring.

Definition scoreProduct (product : Staff.Product) (term : jsstring) : Z :=
  let t := toLowerCase term in
  let pid := toLowerCase (Staff.productId product) in
  let name := toLowerCase (Staff.name product) in
  let desc := toLowerCase (Staff.description product) in
  if streq pid t then 100%Z
  else
    let score := 0%Z in
    let score := if includes pid t then (score + 70)%Z else score in
    let score := if includes name t then (score + 30)%Z else score in
    let score := if includes desc t then (score + 10)%Z else score in
    score.

(** [(a, b) => b.score - a.score] is positive. *)
Definition lowerScore (a b : Staff.Product * Z) : bool :=
  (0 <? snd b - snd a)%Z.

(** What [handleSearchInput] hands to [renderResults]: the results and
    the number of matches; [None] when the trimmed input is empty and
    the results are cleared instead. *)
Definition handleSearchInput (input : jsstring)
           (allProducts : list Staff.Product)
  : option (list Staff.Product * nat) :=
  let term := trim input in
  if negb (truthy term) then None
  else
    let scored :=
      sortBy lowerScore
        (filter (fun it => (0 <? snd it)%Z)
           (map (fun product => (product, scoreProduct product term))
                allProducts)) in
    let totalMatches := length scored in
    Some (map fst (firstn RESULTS_LIMIT scored), totalMatches).

End Host.
End Lookup.

(* ===================================================================== *)
(** * Notions of the specification *)
(* ===================================================================== *)

Module Spec.
Import JS.

(** Price parsing as the specification words it: strip every non-digit
    character, read what remains as a base-10 integer, 0 when nothing
    remains. *)
Definition decimalValue (digits : jsstring) : Z :=
  fold_left (fun acc c => (acc * 10 + (Z.of_N c - 48))%Z) digits 0%Z.

Definition parsePrice (s : jsstring) : Z :=
  decimalValue (filter isDigit s).

(** Standard CSV quoting of a field value: every quote is doubled and the
    result is enclosed in quotes. *)
Definition escapeQuotes (v : jsstring) : jsstring :=
  flat_map (fun c => if (c =? QUOTE)%N then [QUOTE; QUOTE] else [c]) v.

Definition quoted (v : jsstring) : jsstring :=
  QUOTE :: escapeQuotes v ++ [QUOTE].

(** What may follow a field in a row: nothing, or a comma. *)
Definition fieldEnd (rest : jsstring) : Prop :=
  rest = [] \/ exists rest', rest = COMMA :: rest'.

(** The fields of a row as the record builder reads them. *)
Definition cleanFields (row : jsstring) : list jsstring :=
  map App.cleanField (App.parseCSVRow row).

(** A display price can be resolved: from the row's own price field
    (the fourth), else from at least one variant parsed from the fifth
    field. *)
Definition priceResolvable (fields : list jsstring) : Prop :=
  orEmpty (nth_error fields 3) <> []
  \/ App.parseVariants (orEmpty (nth_error fields 4)) <> [].

(** The acceptance test of the specification for a data row. *)
Definition accepted (row : jsstring) : Prop :=
  (2 <= length (cleanFields row))%nat
  /\ orEmpty (nth_error (cleanFields row) 0) <> []
  /\ priceResolvable (cleanFields row).

(** Column [i] is the first column of the header whose trimmed,
    lower-cased text is [sameday]. *)
Definition sameDayHeader (toLowerCase : jsstring -> jsstring)
           (h : jsstring) : Prop :=
  trim (toLowerCase h) = lit "sameday".

Definition firstSameDayColumn (toLowerCase : jsstring -> jsstring)
           (header : list jsstring) (i : nat) : Prop :=
  (exists h, nth_error header i = Some h /\ sameDayHeader toLowerCase h)
  /\ forall j h, (j < i)%nat -> nth_error header j = Some h ->
                 ~ sameDayHeader toLowerCase h.

(** The header fields of a feed: those of its first non-blank row. *)
Definition headerOf (text : jsstring) : list jsstring :=
  App.parseCSVRow (orEmpty (nth_error (App.splitRows text) 0)).

(** The data rows of a feed. *)
Definition dataRows (text : jsstring) : list jsstring :=
  tl (App.splitRows text).

(** [q] occurs in [s] as a contiguous run. *)
Definition Substring (q s : jsstring) : Prop :=
  exists pre post, s = pre ++ q ++ post.

(** Some white-space delimited word of [s] starts with [q]. *)
Definition WordPrefix (q s : jsstring) : Prop :=
  exists w, In w (splitWs s) /\ q `prefix_of` w.

(** The characters of [q] occur in [s] in order, not necessarily next
    to each other. *)
Definition Subsequence (q s : jsstring) : Prop := q `sublist_of` s.

(** The two pinned identifiers of the prioritizer. *)
Definition pinnedFirst : jsstring := lit "PROD-1487".
Definition pinnedSecond : jsstring := lit "PROD-1488".

Definition occurs (ident : jsstring) (products : list App.Product) : Prop :=
  exists p, In p products /\ App.productId p = ident.

(** The product that carries an identifier, the last one when several
    do. *)
Definition lastWith (ident : jsstring) (products : list App.Product)
  : option App.Product :=
  find (fun p => streq (App.productId p) ident) (rev products).

Definition isPinned (p : App.Product) : bool :=
  streq (App.productId p) pinnedFirst || streq (App.productId p) pinnedSecond.

(** The products that are not pinned, in catalogue order. *)
Definition unpinned (products : list App.Product) : list App.Product :=
  filter (fun p => negb (isPinned p)) products.

(** A product matches a priority keyword when its lower-cased name and
    description, joined by a space, contain one. *)
Definition matchesKeyword (toLowerCase : jsstring -> jsstring)
           (p : App.Product) : Prop :=
  exists kw, In kw App.priorityKeywords
             /\ Substring kw (toLowerCase
                                (App.name p ++ [SPACE] ++ App.description p)).

(** [front] and [back] are the stable partition of [l] by [P]: [front]
    holds the elements of [l] that satisfy [P], [back] those that do
    not, each in the order of [l]. *)
Inductive StablePartition {A : Type} (P : A -> Prop)
  : list A -> list A -> list A -> Prop :=
| partition_nil : StablePartition P [] [] []
| partition_front (x : A) (l front back : list A) :
    P x -> StablePartition P l front back ->
    StablePartition P (x :: l) (x :: front) back
| partition_back (x : A) (l front back : list A) :
    ~ P x -> StablePartition P l front back ->
    StablePartition P (x :: l) front (x :: back).

(** The list the second loop of the prioritizer builds, written with
    the test of the code; an intermediate form for the proofs, related
    to [StablePartition] and [matchesKeyword] by [keywordFirst_partition]
    below. *)
Definition keywordFirst (toLowerCase : jsstring -> jsstring)
           (l : list App.Product) : list App.Product :=
  filter (App.isPriority toLowerCase) l
  ++ filter (fun p => negb (App.isPriority toLowerCase p)) l.

(** An entry of the variant blob: a name and a price text separated by an
    em dash.  Both parts are plain when they hold no line terminator and
    no further em dash, so that the entry is one line with one
    separator. *)
Definition entry (name ptext : jsstring) : jsstring :=
  name ++ [EM_DASH] ++ ptext.

Definition plain (s : jsstring) : Prop :=
  forallb (fun c => negb (isLineTerminator c) && negb (c =? EM_DASH)%N) s
  = true.

Definition entryForm (name ptext : jsstring) : Prop :=
  name <> [] /\ plain name /\ plain ptext.

(** A character of the digits-and-commas part of a price. *)
Definition isPriceChar (c : N) : bool := isDigit c || (c =? COMMA)%N.

(** The price text starts, after white space, with the naira sign
    followed by a digit or a comma. *)
Definition nairaStart (ptext : jsstring) : Prop :=
  exists w d rest,
    ptext = w ++ NAIRA :: d :: rest
    /\ forallb isWhiteSpace w = true /\ isPriceChar d = true.

(** The price text is the naira sign followed by digits and commas, up
    to surrounding white space. *)
Definition nairaDigits (ptext : jsstring) : Prop :=
  exists w1 ds w2,
    ptext = w1 ++ NAIRA :: ds ++ w2
    /\ forallb isWhiteSpace w1 = true /\ forallb isWhiteSpace w2 = true
    /\ ds <> [] /\ forallb isPriceChar ds = true.

(** The comparator [gt] is positive exactly when the key of its first
    argument is below the key of the second: a descending sort. *)
Definition descending {A : Type} (k : A -> Z) (gt : A -> A -> bool)
           (l : list A) : Prop :=
  forall x y, In x l -> In y l -> gt x y = (k x <? k y)%Z.

(** [m] is the maximum of the weights [l], and 0 when there is none. *)
Definition IsMax (m : num) (l : list num) : Prop :=
  (l = [] -> m = ofZ 0)
  /\ (l <> [] -> In m l)
  /\ (forall x, In x l -> SFleb x m = true).

(** The exact value of a finite binary64 number, scaled by 2^1074 so
    that it is an integer. *)
Definition key (x : num) : Z :=
  match x with
  | S754_finite s m e =>
      ((if s then (-1) else 1) * Z.pos m * 2 ^ (e + 1074))%Z
  | _ => 0%Z
  end.

(** The weights [fuzzyMatch] can return and the scores that can be built
    from four of them. *)
Definition weights : list num := [ofZ 2; decimal 5 10; ofZ 0].

Definition score4 (a b c d : num) : num :=
  add (add (add a (mul b (decimal 7 10))) (mul c (decimal 5 10)))
      (mul d (decimal 6 10)).

Definition scores : list num :=
  flat_map (fun a =>
    flat_map (fun b =>
      flat_map (fun c => map (fun d => score4 a b c d) weights) weights)
      weights) weights.

(** Agreement of the comparisons of the ranking with the order of the
    exact values, at two scores given with their keys. *)
Definition orderAgrees (x y : num * Z) : bool :=
  let '(a, ka) := x in
  let '(b, kb) := y in
  Bool.eqb (gtb (sub b a) (ofZ 0)) (ka <? kb)%Z
  && Bool.eqb (SFleb a b) (ka <=? kb)%Z
  && Bool.eqb (SFeqb a b) (ka =? kb)%Z
  && Bool.eqb (gtb a (ofZ 0)) (0 <? ka)%Z
  && Bool.eqb (SFeqb a (ofZ 0)) (ka =? 0)%Z
  && (0 <=? ka)%Z.

Definition keyed (l : list num) : list (num * Z) :=
  map (fun a => (a, key a)) l.

End Spec.

(* ===================================================================== *)
(** * Further notions used to state properties *)
(* ===================================================================== *)

Module Ref.
Import JS.

(** ** Feeds *)

(** A text without quote character. *)
Definition noQuote (s : jsstring) : Prop :=
  forallb (fun c => negb (c =? QUOTE)%N) s = true.

(** A carriage return that is followed by a line feed is dropped. *)
Fixpoint crlfToLf (s : jsstring) : jsstring :=
  match s with
  | [] => []
  | c :: s' =>
      if (c =? CR)%N && match s' with d :: _ => (d =? LF)%N | [] => false end
      then crlfToLf s'
      else c :: crlfToLf s'
  end.

Definition nonBlank (s : jsstring) : bool := truthy (trim s).

(** The pieces of a split, the first one continuing [cur]. *)
Definition continue (cur : jsstring) (pieces : list jsstring)
  : list jsstring :=
  match pieces with
  | w :: ws => (cur ++ w) :: ws
  | [] => [cur]
  end.

(** ** Search *)

(** The query matches a field: on the case-folded texts, it is a
    substring of the field, or it is shorter than four characters and a
    subsequence of the field. *)
Definition Matches (toLowerCase : jsstring -> jsstring)
           (query field : jsstring) : Prop :=
  let q := toLowerCase query in
  let s := toLowerCase field in
  Spec.Substring q s \/ ((length q < 4)%nat /\ Spec.Subsequence q s).

Definition nonZero (x : num) : bool := negb (SFeqb x (ofZ 0)).

(** A score built from four weights is positive exactly when one of
    them is not 0. *)
Definition positiveAgrees (a b c d : num) : bool :=
  Bool.eqb (gtb (Spec.score4 a b c d) (ofZ 0))
           (nonZero a || nonZero b || nonZero c || nonZero d).

(** ** The score in exact arithmetic

    The weights 2, 1.5, 0.5 and 0 are halves and the factors 1, 0.7, 0.5
    and 0.6 are tenths, so twenty times the score of the formula
    [name + description * 0.7 + category * 0.5 + variants * 0.6] is an
    integer. *)

(** Twice a weight. *)
Definition halves (w : num) : Z :=
  if SFeqb w (ofZ 2) then 4
  else if SFeqb w (decimal 15 10) then 3
  else if SFeqb w (decimal 5 10) then 1
  else 0.

(** Twenty times the formula, at four weights. *)
Definition exact20 (a b c d : num) : Z :=
  10 * halves a + 7 * halves b + 5 * halves c + 6 * halves d.

(** Twenty times the score of a product by the formula, in exact
    arithmetic. *)
Definition exactScore20 (toLowerCase : jsstring -> jsstring)
           (searchTerm : jsstring) (p : App.Product) : Z :=
  exact20 (App.fuzzyMatch toLowerCase (App.name p) searchTerm)
          (App.fuzzyMatch toLowerCase (App.description p) searchTerm)
          (App.fuzzyMatch toLowerCase (App.category p) searchTerm)
          (App.variantsMax toLowerCase searchTerm p).

(** The scores that can be built from four weights, each with twenty
    times its exact value. *)
Definition exactScores : list (Z * num) :=
  flat_map (fun a =>
    flat_map (fun b =>
      flat_map (fun c =>
        map (fun d => (exact20 a b c d, Spec.score4 a b c d))
            Spec.weights)
      Spec.weights)
    Spec.weights) Spec.weights.

(** The binary64 order never contradicts the exact one: a score that is
    smaller in exact arithmetic is smaller in binary64. *)
Definition exactOrderKept (x y : Z * num) : bool :=
  implb (fst x <? fst y)%Z (SFltb (snd x) (snd y) && negb (SFleb (snd y) (snd x))).

(** ** Catalogue *)

(** The products that carry an identifier. *)
Definition carriers (ident : jsstring) (products : list App.Product)
  : list App.Product :=
  filter (fun p => streq (App.productId p) ident) products.

(** ** Cart *)

(** What identifies a line of the cart: the product and the name of the
    chosen option. *)
Definition lineKey (it : Cart.item) : nat * option jsstring :=
  (App.id (Cart.product it), option_map Variant.name (Cart.variant it)).

Definition keyOf (product : App.Product) (variant : option Variant.t)
  : nat * option jsstring :=
  (App.id product, option_map Variant.name variant).

(** Every line has a quantity of at least one. *)
Definition positive (cart : list Cart.item) : Prop :=
  Forall (fun it => (1 <= Cart.qty it)%Z) cart.

(** No two lines are for the same product and option. *)
Definition distinctLines (cart : list Cart.item) : Prop :=
  NoDup (map lineKey cart).

(** ** Staff lookup *)

(** The characters that [escapeHtml] replaces. *)
Definition isHtmlSpecial (c : N) : bool :=
  ((c =? 38) || (c =? 60) || (c =? 62) || (c =? 34) || (c =? 39))%N.

(** The lower-cased term occurs in the lower-cased identifier, name or
    description of the product. *)
Definition Found (toLowerCase : jsstring -> jsstring) (term : jsstring)
           (p : Staff.Product) : Prop :=
  let t := toLowerCase term in
  Spec.Substring t (toLowerCase (Staff.productId p))
  \/ Spec.Substring t (toLowerCase (Staff.name p))
  \/ Spec.Substring t (toLowerCase (Staff.description p)).

End Ref.

(* ===================================================================== *)
(** * Concrete catalogues and feeds *)
(* ===================================================================== *)

Module Example.
Import JS.

(** A product as the shop front would build it from a row with the given
    identifier, name, description and price. *)
Definition product (ident name description : string) (price : Z)
  : App.Product :=
  App.mkProduct 0 (lit ident) (lit name) (lit description)
                (NAIRA :: lit "0") price []
                (App.categorizeProduct asciiLower (lit name))
                (App.getProductEmoji asciiLower (lit name))
                [] false.

Definition roseBouquet : App.Product :=
  product "PROD-1" "Red Rose Bouquet" "Twelve stems" 30000.
Definition goldRing : App.Product :=
  product "PROD-2" "Gold Ring" "Plain band" 80000.
Definition roseSoap : App.Product :=
  product "PROD-3" "Soap Box" "Smells of rose" 5000.

(** The page state after loading a catalogue. *)
Definition loaded (catalogue : list App.Product) : App.State :=
  App.mkState catalogue catalogue.

Definition shop : App.State := loaded [roseSoap; goldRing; roseBouquet].

(** A catalogue with the two pinned products at its end, after ten
    others. *)
Definition plainItem (n : nat) : App.Product :=
  App.mkProduct n (lit "ITEM") (lit "Item") [] (NAIRA :: lit "1") 1 []
                (lit "Other") [] [] false.

Definition pinnedA : App.Product :=
  product "PROD-1487" "Pinned one" "" 1000.
Definition pinnedB : App.Product :=
  product "PROD-1488" "Pinned two" "" 2000.

Definition twelve : list App.Product :=
  map plainItem (seq 1 10) ++ [pinnedB; pinnedA].

(** A feed whose header has no same-day column although a cell reads
    TRUE, and a feed whose seventh column is the same-day column. *)
Definition feedWithoutColumn : jsstring :=
  lit "id,name,description,price,variants,image,express" ++ [LF]
  ++ lit "PROD-1,Rose,,500,,,TRUE" ++ [LF]
  ++ lit "PROD-2,Ring,,700,,,true".

Definition feedWithColumn : jsstring :=
  lit "id,name,description,price,variants,image, SameDay " ++ [LF]
  ++ lit "PROD-1,Rose,,500,,,TRUE" ++ [LF]
  ++ lit "PROD-2,Ring,,700,,,yes".

End Example.

(* ===================================================================== *)
(** * Further concrete inputs *)
(* ===================================================================== *)

Module Sample.
Import JS.

(** Two products whose scores for the query [oe] are equal by the
    formula: the first has the query in its description only
    (2 * 0.7), the second has it as a subsequence of its name, its
    description, its category and the name of its option
    (0.5 + 0.35 + 0.25 + 0.3). *)
Definition shoeRing : App.Product :=
  Example.product "PROD-1" "Ring" "Shoe box" 500.

Definition phone : App.Product :=
  App.mkProduct 0 (lit "PROD-2") (lit "Phone") (lit "Home")
                (NAIRA :: lit "700") 700
                [Variant.mk (lit "Stone") (NAIRA :: lit "900") 900]
                (App.categorizeProduct asciiLower (lit "Phone"))
                (App.getProductEmoji asciiLower (lit "Phone"))
                [] false.

(** The options of a row, two of them at the lowest price. *)
Definition options : list Variant.t :=
  [Variant.mk (lit "Large") (NAIRA :: lit "7,000") 7000;
   Variant.mk (lit "Small") (NAIRA :: lit "5,000") 5000;
   Variant.mk (lit "Medium") (NAIRA :: lit "5,000") 5000].

(** A feed with both kinds of line ending and a blank line. *)
Definition feed : jsstring :=
  lit "id,name" ++ [CR; LF] ++ [LF] ++ lit "PROD-1 , Rose" ++ [LF].

(** A product without identifier, numbered 7. *)
Definition unnamed : App.Product :=
  App.mkProduct 7 [] (lit "Mug") [] (NAIRA :: lit "900") 900 []
                (lit "Custom Items") [9749]%N [] false.

(** The second product of a loaded feed. *)
Definition ring : App.Product :=
  App.mkProduct 2 (lit "PROD-2") (lit "Ring") [] (lit "700") 700 []
                (lit "Jewelry") [55357; 56461]%N [] false.

(** A result list of 120 products. *)
Definition many : list App.Product := map Example.plainItem (seq 1 120).

(** A cart of two lines: one unit of a product without option, two of
    a product with an option. *)
Definition line (id : Z) (product : App.Product)
           (variant : option Variant.t) (qty : Z) : Cart.item :=
  Cart.mkItem id product variant
              (match variant with
               | Some v => Variant.price v
               | None => App.price product
               end)
              (match variant with
               | Some v => Variant.priceValue v
               | None => App.priceValue product
               end)
              qty.

Definition first : Cart.item :=
  line 1700000000001 (Example.plainItem 1) None 1.
Definition second : Cart.item :=
  line 1700000000002 (Example.plainItem 2)
       (Some (Variant.mk (lit "Small") (NAIRA :: lit "5,000") 5000)) 2.

Definition session : Cart.Session :=
  Cart.mkSession [first; second] None None.

(** The catalogue of the staff page. *)
Definition staffProduct (ident name description : string)
  : Staff.Product :=
  Staff.mkProduct (lit ident) (lit name) (lit description)
                  (NAIRA :: lit "1") 1 [] [] false.

Definition desk : list Staff.Product :=
  [staffProduct "PROD-1" "Soap Box" "Smells of rose";
   staffProduct "ROSE" "Plain" "";
   staffProduct "PROD-3" "Gold Ring" "";
   staffProduct "PROD-ROSE-4" "Rose" "A rose"].

End Sample.

(* ===================================================================== *)
(** * Facts about the host primitives *)
(* ===================================================================== *)

Section HostFacts.
Import JS.

Lemma streq_spec (a b : jsstring) : streq a b = true <-> a = b.
Proof.
  revert b; induction a as [|x a IH]; intros [|y b]; simpl;
    try (split; [discriminate | congruence]); try tauto.
  rewrite andb_true_iff, N.eqb_eq, IH. split.
  - intros [-> ->]; reflexivity.
  - intros H; injection H; auto.
Qed.

Lemma streq_refl (a : jsstring) : streq a a = true.
Proof. apply streq_spec; reflexivity. Qed.

Lemma truthy_spec (s : jsstring) : truthy s = true <-> s <> [].
Proof. destruct s; simpl; split; congruence. Qed.

Lemma truthy_false (s : jsstring) : truthy s = false <-> s = [].
Proof. destruct s; simpl; split; congruence. Qed.

Lemma dropWhile_all (f : N -> bool) (s : jsstring) :
  forallb f s = true -> dropWhile f s = [].
Proof.
  induction s as [|c s IH]; simpl; auto.
  destruct (f c); simpl; auto; discriminate.
Qed.

Lemma dropWhile_head (f : N -> bool) (c : N) (s : jsstring) :
  f c = false -> dropWhile f (c :: s) = c :: s.
Proof. intros H; simpl; rewrite H; reflexivity. Qed.

Lemma isDigit_not_space (c : N) : isDigit c = true -> isWhiteSpace c = false.
Proof.
  unfold isDigit, isWhiteSpace, isLineTerminator.
  rewrite andb_true_iff, !N.leb_le. intros [H1 H2].
  repeat match goal with
         | |- context [(c =? ?k)%N] =>
             replace (c =? k)%N with false by (symmetry; apply N.eqb_neq; lia)
         end.
  replace (8192 <=? c)%N with false by (symmetry; apply N.leb_gt; lia).
  reflexivity.
Qed.

Lemma digitValue_digit (c : N) :
  isDigit c = true -> digitValue 10 c = Some (Z.of_N c - 48)%Z.
Proof.
  unfold isDigit, digitValue. intros H. rewrite H.
  apply andb_true_iff in H. rewrite !N.leb_le in H.
  replace (Z.of_N c - 48 <? 10)%Z with true; auto.
  symmetry; apply Z.ltb_lt; lia.
Qed.

Lemma readDigits_digits (ds : jsstring) (a : Z) :
  forallb isDigit ds = true ->
  readDigits 10 (Some a) ds
  = Some (fold_left (fun acc c => (acc * 10 + (Z.of_N c - 48))%Z) ds a).
Proof.
  revert a; induction ds as [|c ds IH]; simpl; intros a H; auto.
  apply andb_true_iff in H as [Hc Hds].
  rewrite (digitValue_digit c Hc). apply IH; assumption.
Qed.

Lemma forallb_filter_self (f : N -> bool) (s : jsstring) :
  forallb f (filter f s) = true.
Proof.
  induction s as [|c s IH]; simpl; auto.
  destruct (f c) eqn:E; simpl; rewrite ?E; auto.
Qed.

(** [parseInt(digits, 10)] on a string of decimal digits. *)
Lemma parseInt_digits (ds : jsstring) :
  forallb isDigit ds = true ->
  parseInt ds (Some 10%Z)
  = match ds with [] => None | _ => Some (Spec.decimalValue ds) end.
Proof.
  intros H. destruct ds as [|c ds]; [reflexivity|].
  simpl in H. apply andb_true_iff in H as [Hc Hds].
  unfold parseInt, trimStart.
  rewrite (dropWhile_head _ c ds (isDigit_not_space c Hc)).
  assert (Hs : (c =? 45)%N = false /\ (c =? 43)%N = false).
  { unfold isDigit in Hc. apply andb_true_iff in Hc.
    rewrite !N.leb_le in Hc. split; apply N.eqb_neq; lia. }
  destruct Hs as [H45 H43].
  replace (match c :: ds with
           | 45%N :: r => (true, r)
           | 43%N :: r => (false, r)
           | _ => (false, c :: ds)
           end) with (false, c :: ds).
  2:{ apply N.eqb_neq in H45, H43.
      destruct c as [|p]; [reflexivity|].
      do 6 (destruct p as [p|p|]; try reflexivity); congruence. }
  change ((10 =? 0)%Z || (2 <=? 10)%Z && (10 <=? 36)%Z) with true.
  change ((10 =? 0)%Z || (10 =? 16)%Z) with false.
  cbv iota beta.
  change (readDigits 10 None (c :: ds)) with
    (match digitValue 10 c with
     | Some d => readDigits 10 (Some d) ds
     | None => None
     end).
  rewrite (digitValue_digit c Hc), (readDigits_digits ds _ Hds).
  unfold Spec.decimalValue. simpl fold_left.
  rewrite Z.add_0_l. reflexivity.
Qed.

Lemma decimalValue_from_nonneg (ds : jsstring) (a : Z) :
  forallb isDigit ds = true -> (0 <= a)%Z ->
  (0 <= fold_left (fun acc c => acc * 10 + (Z.of_N c - 48)) ds a)%Z.
Proof.
  revert a; induction ds as [|c ds IH]; simpl; intros a H Ha; auto.
  apply andb_true_iff in H as [Hc Hds]. apply IH; auto.
  unfold isDigit in Hc. apply andb_true_iff in Hc.
  rewrite !N.leb_le in Hc. lia.
Qed.

Lemma decimalValue_nonneg (ds : jsstring) :
  forallb isDigit ds = true -> (0 <= Spec.decimalValue ds)%Z.
Proof. intros H. apply decimalValue_from_nonneg; [assumption | lia]. Qed.

End HostFacts.

(* ===================================================================== *)
(** * Price parsing *)
(* ===================================================================== *)

Section PriceParsing.
Import JS.

(** The staff implementation is the price parsing of the specification:
    every non-digit is stripped and the digits are read in base 10. *)
Lemma Staff_parsePriceValue_spec (s : jsstring) :
  Staff.parsePriceValue s = Spec.parsePrice s.
Proof.
  unfold Staff.parsePriceValue, Spec.parsePrice.
  rewrite (parseInt_digits _ (forallb_filter_self isDigit s)).
  destruct (filter isDigit s); reflexivity.
Qed.

Lemma Staff_parsePriceValue_no_digit (s : jsstring) :
  filter isDigit s = [] -> Staff.parsePriceValue s = 0%Z.
Proof.
  intros H. rewrite Staff_parsePriceValue_spec.
  unfold Spec.parsePrice. rewrite H. reflexivity.
Qed.

Lemma Staff_parsePriceValue_nonneg (s : jsstring) :
  (0 <= Staff.parsePriceValue s)%Z.
Proof.
  rewrite Staff_parsePriceValue_spec. unfold Spec.parsePrice.
  apply decimalValue_nonneg, forallb_filter_self.
Qed.

(** The three examples of the specification, on both implementations. *)
Lemma parsePriceValue_examples :
  App.parsePriceValue (NAIRA :: lit "12,500") = 12500%Z
  /\ App.parsePriceValue [] = 0%Z
  /\ App.parsePriceValue (lit "free") = 0%Z
  /\ Staff.parsePriceValue (NAIRA :: lit "12,500") = 12500%Z
  /\ Staff.parsePriceValue [] = 0%Z
  /\ Staff.parsePriceValue (lit "free") = 0%Z.
Proof. repeat split; reflexivity. Qed.

(** The variant prices of the shop front have the shape the shop's own
    parser expects, and on them it agrees with the specification. *)
Lemma App_parsePriceValue_naira_digits (ds : jsstring) :
  forallb (fun c => isDigit c || (c =? COMMA)%N) ds = true ->
  App.parsePriceValue (NAIRA :: ds) = Spec.parsePrice (NAIRA :: ds).
Proof.
  intros H. unfold App.parsePriceValue, Spec.parsePrice.
  assert (E : filter (fun c => negb ((c =? NAIRA) || (c =? COMMA))%N)
                     (NAIRA :: ds)
              = filter isDigit (NAIRA :: ds)).
  { simpl. clear -H. induction ds as [|c ds IH]; simpl in *; auto.
    apply andb_true_iff in H as [Hc Hds]. specialize (IH Hds).
    destruct (isDigit c) eqn:Ed.
    - assert ((c =? NAIRA)%N = false /\ (c =? COMMA)%N = false) as [-> ->].
      { unfold isDigit in Ed. apply andb_true_iff in Ed.
        rewrite !N.leb_le in Ed. unfold NAIRA, COMMA.
        split; apply N.eqb_neq; lia. }
      simpl. rewrite IH. reflexivity.
    - simpl in Hc. rewrite Hc, orb_true_r. simpl. exact IH. }
  rewrite E.
  pose proof (Staff_parsePriceValue_spec (NAIRA :: ds)) as S.
  unfold Staff.parsePriceValue, Spec.parsePrice in S.
  destruct (filter isDigit (NAIRA :: ds)) as [|d r] eqn:F.
  - reflexivity.
  - rewrite <- S. clear S.
    assert (Hd : forallb isDigit (d :: r) = true)
      by (rewrite <- F; apply forallb_filter_self).
    rewrite (parseInt_digits _ Hd).
    simpl in Hd. apply andb_true_iff in Hd as [Hd Hr].
    unfold parseInt, trimStart.
    rewrite (dropWhile_head _ d r (isDigit_not_space d Hd)).
    assert (Hs : (d =? 45)%N = false /\ (d =? 43)%N = false
                 /\ (d =? 120)%N = false /\ (d =? 88)%N = false).
    { unfold isDigit in Hd. apply andb_true_iff in Hd.
      rewrite !N.leb_le in Hd. repeat split; apply N.eqb_neq; lia. }
    destruct Hs as (H45 & H43 & H120 & H88).
    replace (match d :: r with
             | 45%N :: r0 => (true, r0)
             | 43%N :: r0 => (false, r0)
             | _ => (false, d :: r)
             end) with (false, d :: r).
    2:{ apply N.eqb_neq in H45, H43.
        destruct d as [|p]; [reflexivity|].
        do 6 (destruct p as [p|p|]; try reflexivity); congruence. }
    change ((0 =? 0)%Z || (2 <=? 0)%Z && (0 <=? 36)%Z) with true.
    change ((0 =? 0)%Z || (0 =? 16)%Z) with true.
    cbv iota beta.
    assert (Hhex : stripHexPrefix (d :: r) = None).
    { unfold stripHexPrefix. destruct d as [|p]; [reflexivity|].
      destruct r as [|x r']; [do 6 (destruct p as [p|p|]; try reflexivity)|].
      assert (Hx : isDigit x = true)
        by (simpl in Hr; apply andb_true_iff in Hr; tauto).
      assert ((x =? 120)%N = false /\ (x =? 88)%N = false) as [-> ->].
      { unfold isDigit in Hx. apply andb_true_iff in Hx.
        rewrite !N.leb_le in Hx. split; apply N.eqb_neq; lia. }
      simpl. do 6 (destruct p as [p|p|]; try reflexivity). }
    rewrite Hhex. cbv iota beta.
    change ((0 =? 0)%Z) with true. cbv iota.
    change (readDigits 10 None (d :: r)) with
      (match digitValue 10 d with
       | Some v => readDigits 10 (Some v) r
       | None => None
       end).
    rewrite (digitValue_digit d Hd), (readDigits_digits r _ Hr).
    unfold Spec.decimalValue. simpl fold_left.
    rewrite Z.add_0_l. reflexivity.
Qed.

(** C1 (code defect, shop front).  On the price text [NGN 5,000] the
    price parsing of the specification (strip every non-digit, read the
    digits in base 10) gives 5000, and so does the staff
    implementation; the shop front strips only the naira sign and the
    commas, so [parseInt] meets a letter first and the result is 0.
    On [₦1,500.50] it stops at the dot and returns 1500 where the
    specification gives 150050. *)
Theorem C1_app_parsePriceValue_strips_only_naira_and_commas :
  Spec.parsePrice (lit "NGN 5,000") = 5000%Z
  /\ Staff.parsePriceValue (lit "NGN 5,000") = 5000%Z
  /\ App.parsePriceValue (lit "NGN 5,000") = 0%Z
  /\ Spec.parsePrice (NAIRA :: lit "1,500.50") = 150050%Z
  /\ App.parsePriceValue (NAIRA :: lit "1,500.50") = 1500%Z.
Proof. repeat split; reflexivity. Qed.

(** C3 (code defect, shop front).  The price text [-5] keeps its sign
    through the shop front's parser, which returns -5, and the row
    carrying it becomes a product whose [priceValue] is negative; the
    staff parser returns 5 on the same text. *)
Theorem C3_app_parsePriceValue_can_be_negative :
  App.parsePriceValue (lit "-5") = (-5)%Z
  /\ Staff.parsePriceValue (lit "-5") = 5%Z
  /\ map App.priceValue
         (App.parseCSV asciiLower
            (lit "id,name,description,price" ++ [LF]
             ++ lit "PROD-1,Gift,,-5"))
     = [(-5)%Z].
Proof. repeat split; vm_compute; reflexivity. Qed.

End PriceParsing.

(* ===================================================================== *)
(** * Quoted fields *)
(* ===================================================================== *)

Section QuotedFields.
Import JS.

Lemma fieldEnd_not_quote (rest : jsstring) :
  Spec.fieldEnd rest ->
  match rest with c :: _ => (c =? QUOTE)%N = false | [] => True end.
Proof. intros [-> | [r ->]]; simpl; auto. Qed.

(** Inside quotes: the escaped value is read back up to the closing
    quote, commas included. *)
Lemma parseCSVRowFrom_inside (u rest : jsstring) (fields : list jsstring)
      (cur : jsstring) :
  Spec.fieldEnd rest ->
  App.parseCSVRowFrom (Spec.escapeQuotes u ++ [QUOTE] ++ rest) fields cur
                      true
  = App.parseCSVRowFrom rest fields (cur ++ u) false.
Proof.
  intros Hrest. revert cur.
  induction u as [|c u IH]; intros cur.
  - rewrite app_nil_r. simpl.
    pose proof (fieldEnd_not_quote rest Hrest) as Hq.
    destruct rest as [|x rest']; [reflexivity|]. rewrite Hq. reflexivity.
  - unfold Spec.escapeQuotes. simpl flat_map. fold (Spec.escapeQuotes u).
    destruct (c =? QUOTE)%N eqn:Ec.
    + apply N.eqb_eq in Ec. subst c. simpl.
      rewrite IH, <- app_assoc. reflexivity.
    + change (([c] ++ Spec.escapeQuotes u) ++ [QUOTE] ++ rest)
        with (c :: (Spec.escapeQuotes u ++ [QUOTE] ++ rest)).
      cbn [App.parseCSVRowFrom]. rewrite Ec.
      rewrite andb_false_r. rewrite IH, <- app_assoc. reflexivity.
Qed.

(** A value that is not made of quotes only is read back whole from its
    quoted form: the enclosing quotes are dropped, a doubled quote gives
    one quote and a comma does not end the field. *)
Lemma parseCSVRowFrom_quoted (v rest : jsstring) (fields : list jsstring)
      (cur : jsstring) :
  existsb (fun c => negb (c =? QUOTE)%N) v = true ->
  Spec.fieldEnd rest ->
  App.parseCSVRowFrom (Spec.quoted v ++ rest) fields cur false
  = App.parseCSVRowFrom rest fields (cur ++ v) false.
Proof.
  intros Hv Hrest. revert cur Hv.
  induction v as [|c v IH]; intros cur Hv; [discriminate|].
  unfold Spec.quoted, Spec.escapeQuotes. simpl flat_map.
  fold (Spec.escapeQuotes v).
  destruct (c =? QUOTE)%N eqn:Ec.
  - apply N.eqb_eq in Ec. subst c. simpl in Hv.
    simpl. specialize (IH (cur ++ [QUOTE]) Hv).
    unfold Spec.quoted in IH. simpl in IH. rewrite IH, <- app_assoc.
    reflexivity.
  - change ((QUOTE :: ([c] ++ Spec.escapeQuotes v) ++ [QUOTE]) ++ rest)
      with (QUOTE :: c :: (Spec.escapeQuotes v ++ [QUOTE]) ++ rest).
    cbn [App.parseCSVRowFrom]. rewrite N.eqb_refl, Ec.
    rewrite <- app_assoc. cbn [negb]. rewrite andb_false_r.
    rewrite parseCSVRowFrom_inside by assumption.
    rewrite <- app_assoc. reflexivity.
Qed.

Corollary parseCSVRow_quoted (v : jsstring) :
  existsb (fun c => negb (c =? QUOTE)%N) v = true ->
  App.parseCSVRow (Spec.quoted v) = [trim v].
Proof.
  intros Hv. unfold App.parseCSVRow.
  rewrite <- (app_nil_r (Spec.quoted v)).
  rewrite parseCSVRowFrom_quoted by (auto; left; reflexivity).
  reflexivity.
Qed.

(** A quoted field between two plain neighbours. *)
Corollary parseCSVRow_quoted_between (a v b : jsstring) :
  existsb (fun c => negb (c =? QUOTE)%N) v = true ->
  forallb (fun c => negb ((c =? QUOTE) || (c =? COMMA))%N) (a ++ b) = true ->
  App.parseCSVRow (a ++ [COMMA] ++ Spec.quoted v ++ [COMMA] ++ b)
  = [trim a; trim v; trim b].
Proof.
  intros Hv Hab. rewrite forallb_app in Hab.
  apply andb_true_iff in Hab as [Ha Hb].
  assert (P : forall s rest fields cur,
    forallb (fun c => negb ((c =? QUOTE) || (c =? COMMA))%N) s = true ->
    App.parseCSVRowFrom (s ++ rest) fields cur false
    = App.parseCSVRowFrom rest fields (cur ++ s) false).
  { induction s as [|c s IH]; intros rest fields cur Hs.
    - rewrite app_nil_r. reflexivity.
    - simpl in Hs. apply andb_true_iff in Hs as [Hc Hs].
      apply negb_true_iff, orb_false_iff in Hc as [Hq Hk].
      simpl. rewrite Hq, Hk. simpl. rewrite IH by assumption.
      rewrite <- app_assoc. reflexivity. }
  unfold App.parseCSVRow. rewrite P by assumption.
  change (([] ++ a)) with a.
  change ([COMMA] ++ Spec.quoted v ++ [COMMA] ++ b)
    with (COMMA :: (Spec.quoted v ++ COMMA :: b)).
  cbn [App.parseCSVRowFrom]. change (COMMA =? QUOTE)%N with false.
  rewrite N.eqb_refl. cbn [andb negb].
  rewrite parseCSVRowFrom_quoted; auto.
  2:{ right. eexists; reflexivity. }
  cbn [App.parseCSVRowFrom]. change (COMMA =? QUOTE)%N with false.
  rewrite N.eqb_refl. cbn [andb negb].
  rewrite <- (app_nil_r b) at 1. rewrite P by assumption.
  reflexivity.
Qed.

(** A value made of [n] quotes only comes back with one quote too many:
    the pairs are consumed before the opening quote is seen. *)
Lemma parseCSVRowFrom_quotes_only (n : nat) (rest : jsstring)
      (fields : list jsstring) (cur : jsstring) :
  Spec.fieldEnd rest ->
  App.parseCSVRowFrom (Spec.quoted (repeat QUOTE n) ++ rest) fields cur
                      false
  = App.parseCSVRowFrom rest fields (cur ++ repeat QUOTE (S n)) false.
Proof.
  intros Hrest. revert cur. induction n as [|n IH]; intros cur.
  - reflexivity.
  - specialize (IH (cur ++ [QUOTE])). rewrite <- app_assoc in IH.
    simpl in IH |- *. exact IH.
Qed.

(** Row splitter: inside quotes nothing ends the row. *)
Lemma splitRowsFrom_inside (u rest : jsstring) (rows : list jsstring)
      (cur : jsstring) :
  App.splitRowsFrom (Spec.escapeQuotes u ++ [QUOTE] ++ rest) rows cur true
  = App.splitRowsFrom rest rows (cur ++ Spec.escapeQuotes u ++ [QUOTE])
                      false.
Proof.
  revert cur. induction u as [|c u IH]; intros cur.
  - reflexivity.
  - unfold Spec.escapeQuotes. simpl flat_map. fold (Spec.escapeQuotes u).
    destruct (c =? QUOTE)%N eqn:Ec.
    + apply N.eqb_eq in Ec. subst c. simpl.
      rewrite IH, <- !app_assoc. reflexivity.
    + change (([c] ++ Spec.escapeQuotes u) ++ [QUOTE] ++ rest)
        with (c :: (Spec.escapeQuotes u ++ [QUOTE] ++ rest)).
      cbn [App.splitRowsFrom negb]. rewrite Ec, !andb_false_r.
      destruct (Spec.escapeQuotes u ++ [QUOTE] ++ rest) eqn:E.
      * destruct (Spec.escapeQuotes u); discriminate.
      * rewrite andb_false_r, IH, <- !app_assoc. reflexivity.
Qed.

(** A quoted field is kept in one row whatever it contains, line feeds
    and carriage returns included. *)
Lemma splitRowsFrom_quoted (v rest : jsstring) (rows : list jsstring)
      (cur : jsstring) :
  App.splitRowsFrom (Spec.quoted v ++ rest) rows cur false
  = App.splitRowsFrom rest rows (cur ++ Spec.quoted v) false.
Proof.
  unfold Spec.quoted.
  change ((QUOTE :: Spec.escapeQuotes v ++ [QUOTE]) ++ rest)
    with (QUOTE :: ((Spec.escapeQuotes v ++ [QUOTE]) ++ rest)).
  cbn [App.splitRowsFrom]. rewrite N.eqb_refl.
  rewrite <- app_assoc.
  rewrite splitRowsFrom_inside, <- !app_assoc. reflexivity.
Qed.

(** C6 (code defect).  An empty quoted field comes out as one quote
    character instead of the empty string, and a quoted field holding
    one escaped quote comes out as two: [parseCSVRow] tests for a pair
    of quotes before it looks at the quoting state, so the quotes that
    enclose such a field are taken for an escape.  The row loop then
    shows the stray quote as the description of the product. *)
Theorem C6_parseCSVRow_empty_quoted_field :
  App.parseCSVRow (lit "a," ++ Spec.quoted [] ++ lit ",b")
  = [lit "a"; [QUOTE]; lit "b"]
  /\ App.parseCSVRow (Spec.quoted [QUOTE]) = [[QUOTE; QUOTE]]
  /\ map App.description
         (App.parseCSV asciiLower
            (lit "id,name,description,price" ++ [LF]
             ++ lit "PROD-1,Rose," ++ Spec.quoted [] ++ lit ",500"))
     = [[QUOTE]].
Proof. repeat split; vm_compute; reflexivity. Qed.

End QuotedFields.

(* ===================================================================== *)
(** * Trimming, sorting and searching in lists *)
(* ===================================================================== *)

Section ListFacts.
Import JS.

Lemma dropWhile_nil_iff (f : N -> bool) (s : jsstring) :
  dropWhile f s = [] <-> forallb f s = true.
Proof.
  induction s as [|c s IH]; simpl; [tauto|].
  destruct (f c); simpl; [exact IH | split; discriminate].
Qed.

Lemma dropWhile_idem (f : N -> bool) (s : jsstring) :
  dropWhile f (dropWhile f s) = dropWhile f s.
Proof.
  induction s as [|c s IH]; simpl; auto.
  destruct (f c) eqn:E; auto. simpl. rewrite E. reflexivity.
Qed.

Lemma forallb_rev (f : N -> bool) (s : jsstring) :
  forallb f (rev s) = forallb f s.
Proof.
  induction s as [|c s IH]; simpl; auto.
  rewrite forallb_app, IH. simpl. rewrite andb_true_r, andb_comm.
  reflexivity.
Qed.

Lemma trim_nil_iff (s : jsstring) :
  trim s = [] <-> forallb isWhiteSpace s = true.
Proof.
  unfold trim, trimEnd, trimStart. split.
  - intros H. apply (f_equal (@rev N)) in H. rewrite rev_involutive in H.
    simpl in H. apply dropWhile_nil_iff in H. rewrite forallb_rev in H.
    apply dropWhile_nil_iff in H. rewrite dropWhile_idem in H.
    apply dropWhile_nil_iff. exact H.
  - intros H. apply dropWhile_nil_iff in H. rewrite H. reflexivity.
Qed.

(** Dropping from the end leaves a string that does not end in white
    space, and leaves alone a string that does not end in it. *)
Lemma trimEnd_snoc (s : jsstring) (c : N) :
  isWhiteSpace c = false -> trimEnd (s ++ [c]) = s ++ [c].
Proof.
  intros H. unfold trimEnd. rewrite rev_app_distr. simpl. rewrite H.
  simpl. rewrite rev_involutive. reflexivity.
Qed.

Lemma trimEnd_shape (s : jsstring) :
  trimEnd s = []
  \/ exists t c, trimEnd s = t ++ [c] /\ isWhiteSpace c = false.
Proof.
  unfold trimEnd. generalize (rev s) as r. intros r.
  induction r as [|c r IH]; simpl; [left; reflexivity|].
  destruct (isWhiteSpace c) eqn:E; [exact IH|].
  right. exists (rev r), c. simpl. split; [reflexivity | exact E].
Qed.

Lemma trimEnd_idem (s : jsstring) : trimEnd (trimEnd s) = trimEnd s.
Proof.
  destruct (trimEnd_shape s) as [-> | (t & c & -> & Hc)];
    [reflexivity | apply trimEnd_snoc; exact Hc].
Qed.

(** Dropping from the end keeps the first character of a string that
    starts with a character other than white space. *)
Lemma trimEnd_cons (c : N) (s : jsstring) :
  isWhiteSpace c = false -> exists s', trimEnd (c :: s) = c :: s'.
Proof.
  intros Hc. unfold trimEnd. simpl.
  assert (G : forall r : jsstring,
             exists s', rev (dropWhile isWhiteSpace (r ++ [c])) = c :: s').
  { induction r as [|x r IH]; simpl.
    - rewrite Hc. exists []. reflexivity.
    - destruct (isWhiteSpace x); [exact IH|].
      exists (rev r ++ [x]). simpl. rewrite rev_app_distr. reflexivity. }
  apply G.
Qed.

Lemma dropWhile_head_false (f : N -> bool) (s : jsstring) (c : N)
      (r : jsstring) :
  dropWhile f s = c :: r -> f c = false.
Proof.
  induction s as [|x s IH]; simpl; [discriminate|].
  destruct (f x) eqn:Ex; auto. congruence.
Qed.

Lemma trimStart_trim (s : jsstring) : trimStart (trim s) = trim s.
Proof.
  unfold trim. destruct (trimStart s) as [|c r] eqn:E.
  - reflexivity.
  - pose proof (dropWhile_head_false _ _ _ _ E) as Hc.
    destruct (trimEnd_cons c r Hc) as [s' ->].
    unfold trimStart. simpl. rewrite Hc. reflexivity.
Qed.

Lemma trim_idem (s : jsstring) : trim (trim s) = trim s.
Proof.
  unfold trim at 1. rewrite trimStart_trim.
  unfold trim. apply trimEnd_idem.
Qed.

Lemma insertBy_perm {A : Type} (gt : A -> A -> bool) (x : A) (l : list A) :
  Permutation (insertBy gt x l) (x :: l).
Proof.
  induction l as [|y l IH]; simpl; [reflexivity|].
  destruct (gt x y); [|reflexivity].
  rewrite IH. apply perm_swap.
Qed.

Lemma sortBy_perm {A : Type} (gt : A -> A -> bool) (l : list A) :
  Permutation (sortBy gt l) l.
Proof.
  induction l as [|x l IH]; simpl; [reflexivity|].
  rewrite insertBy_perm. constructor. exact IH.
Qed.

Lemma findIndex_None {A : Type} (f : A -> bool) (l : list A) :
  findIndex f l = None <-> forall x, In x l -> f x = false.
Proof.
  induction l as [|y l IH]; simpl.
  - split; [intros _ x [] | reflexivity].
  - destruct (f y) eqn:E.
    + split; [discriminate|]. intros H. specialize (H y (or_introl eq_refl)).
      congruence.
    + destruct (findIndex f l) eqn:F.
      * split; [discriminate|]. intros H.
        assert (Some n = None) by (apply IH; intros x Hx; apply H; auto).
        discriminate.
      * split; [|reflexivity]. intros _ x [<- | Hx]; [exact E|].
        apply IH; auto.
Qed.

Lemma findIndex_Some {A : Type} (f : A -> bool) (l : list A) (i : nat) :
  findIndex f l = Some i <->
  (exists x, nth_error l i = Some x /\ f x = true)
  /\ forall j y, (j < i)%nat -> nth_error l j = Some y -> f y = false.
Proof.
  revert i. induction l as [|y l IH]; intros i; simpl.
  - split; [discriminate|]. intros [(x & Hx & _) _].
    destruct i; discriminate.
  - destruct (f y) eqn:E.
    + split.
      * intros H; injection H as <-. split.
        -- exists y. split; [reflexivity | exact E].
        -- intros j z Hj. lia.
      * intros [_ Hmin]. destruct i as [|i]; [reflexivity|].
        specialize (Hmin O y ltac:(lia) eq_refl). congruence.
    + destruct (findIndex f l) as [k|] eqn:F.
      * split.
        -- intros H; injection H as <-.
           destruct (proj1 (IH k) eq_refl) as [Hex Hmin]. split.
           ++ exact Hex.
           ++ intros [|j] z Hj Hz; simpl in Hz.
              ** injection Hz as <-. exact E.
              ** apply (Hmin j z); [lia | exact Hz].
        -- intros [(x & Hx & Hfx) Hmin]. destruct i as [|i].
           ++ simpl in Hx. injection Hx as ->. congruence.
           ++ f_equal. assert (Some k = Some i) as G; [|congruence].
              apply IH. split.
              ** exists x. split; assumption.
              ** intros j z Hj Hz. apply (Hmin (S j) z); [lia | exact Hz].
      * split; [discriminate|]. intros [(x & Hx & Hfx) Hmin].
        destruct i as [|i].
        -- simpl in Hx. injection Hx as ->. congruence.
        -- assert (None = Some i) as G; [|discriminate].
           apply IH. split.
           ++ exists x. split; assumption.
           ++ intros j z Hj Hz. apply (Hmin (S j) z); [lia | exact Hz].
Qed.

End ListFacts.

(* ===================================================================== *)
(** * The record builder *)
(* ===================================================================== *)

Section RecordBuilder.
Import JS.
Variable toLowerCase : jsstring -> jsstring.

Lemma cleanField_trimmed (f : jsstring) :
  trim (App.cleanField f) = App.cleanField f.
Proof. apply trim_idem. Qed.

Lemma nth_error_cleanFields_trimmed (row : jsstring) (i : nat) :
  trim (orEmpty (nth_error (Spec.cleanFields row) i))
  = orEmpty (nth_error (Spec.cleanFields row) i).
Proof.
  unfold Spec.cleanFields. rewrite nth_error_map.
  destruct (nth_error (App.parseCSVRow row) i); simpl;
    [apply cleanField_trimmed | reflexivity].
Qed.

(** Whatever the pattern of a variant entry matched, its second capture
    was produced by the tail of the pattern. *)
Lemma fromStart_tail (tail : jsstring -> option jsstring)
      (s g1 m1 m2 : jsstring) :
  VariantRegex.fromStart tail g1 s = Some (m1, m2) ->
  exists s', tail s' = Some m2.
Proof.
  revert g1. induction s as [|c s IH]; intros g1; simpl.
  - destruct (tail []) eqn:E; [|discriminate].
    intros H; injection H as <- <-. eauto.
  - destruct (tail (c :: s)) eqn:E.
    + intros H; injection H as <- <-. eauto.
    + destruct (isLineTerminator c); [discriminate | apply IH].
Qed.

Lemma variantMatch_tail (tail : jsstring -> option jsstring)
      (part m1 m2 : jsstring) :
  VariantRegex.variantMatch tail part = Some (m1, m2) ->
  exists s', tail s' = Some m2.
Proof.
  induction part as [|c s IH]; simpl; [discriminate|].
  destruct (isLineTerminator c); [exact IH|].
  destruct (VariantRegex.fromStart tail [c] s) as [[a b]|] eqn:E;
    [|exact IH].
  intros H; injection H as <- <-. eapply fromStart_tail; eauto.
Qed.

Lemma App_variantTail_shape (s m2 : jsstring) :
  App.variantTail s = Some m2 ->
  exists ds, m2 = NAIRA :: ds /\ ds <> []
             /\ forallb (fun c => isDigit c || (c =? COMMA)%N) ds = true.
Proof.
  unfold App.variantTail, App.priceCapture.
  destruct (VariantRegex.afterWsChar EM_DASH s) as [r|]; [|discriminate].
  destruct (VariantRegex.afterWsChar NAIRA r) as [r'|]; [|discriminate].
  destruct (takeWhile _ r') as [|d ds] eqn:E; [discriminate|].
  intros H; injection H as <-. exists (d :: ds). repeat split.
  - discriminate.
  - rewrite <- E. clear. induction r' as [|c r' IH]; simpl; auto.
    destruct (isDigit c || (c =? COMMA)%N) eqn:Ec; simpl; auto.
    rewrite Ec. exact IH.
Qed.

(** Every variant parsed by the shop front carries a display price. *)
Lemma App_parseVariants_priced (variantsStr : jsstring) (v : Variant.t) :
  In v (App.parseVariants variantsStr) -> Variant.price v <> [].
Proof.
  unfold App.parseVariants.
  destruct (negb (truthy variantsStr) || streq (trim variantsStr) []);
    [intros []|].
  rewrite in_flat_map. intros (part & _ & Hv). unfold App.variantOf in Hv.
  destruct (VariantRegex.variantMatch App.variantTail part)
    as [[m1 m2]|] eqn:E; [|destruct Hv].
  destruct Hv as [<- | []]. simpl.
  destruct (variantMatch_tail _ _ _ _ E) as [s' Hs'].
  destruct (App_variantTail_shape _ _ Hs') as (ds & -> & _ & _).
  intros H. apply trim_nil_iff in H. discriminate.
Qed.

(** The price resolution yields a display price exactly when the row
    has its own price or at least one variant. *)
Lemma App_resolvePrice_truthy (finalPrice : option jsstring)
      (variants : list Variant.t) :
  (forall v, In v variants -> Variant.price v <> []) ->
  truthy (fst (App.resolvePrice finalPrice variants)) = true
  <-> trim (orEmpty finalPrice) <> [] \/ variants <> [].
Proof.
  intros Hpriced. unfold App.resolvePrice.
  destruct (truthy (trim (orEmpty finalPrice))) eqn:T; simpl.
  - rewrite T. apply truthy_spec in T. tauto.
  - apply truthy_false in T.
    destruct variants as [|v vs].
    + simpl. rewrite T. simpl. split; [discriminate|].
      intros [H | H]; exfalso; apply H; auto.
    + change (0 <? length (v :: vs))%nat with true. cbv iota.
      pose proof (sortBy_perm App.dearer (v :: vs)) as P.
      destruct (sortBy App.dearer (v :: vs)) as [|w ws] eqn:S.
      * apply Permutation_nil in P. discriminate.
      * simpl. split; [intros _; right; discriminate|]. intros _.
        apply truthy_spec, Hpriced.
        apply (Permutation_in w P). left. reflexivity.
Qed.

Lemma App_rowRecord_accepted (idx : option nat) (n : nat)
      (row : jsstring) :
  is_Some (App.rowRecord toLowerCase idx n row) <-> Spec.accepted row.
Proof.
  unfold App.rowRecord, Spec.accepted, Spec.priceResolvable.
  fold (Spec.cleanFields row).
  set (fields := Spec.cleanFields row).
  pose proof (App_resolvePrice_truthy (nth_error fields 3)
                (App.parseVariants (orEmpty (nth_error fields 4)))
                (App_parseVariants_priced _)) as R.
  unfold fields in R. rewrite nth_error_cleanFields_trimmed in R.
  fold fields in R.
  destruct (2 <=? length fields)%nat eqn:L.
  2:{ cbn [andb]. apply Nat.leb_gt in L. split.
      - intros [p Hp]. discriminate.
      - intros [H _]. lia. }
  apply Nat.leb_le in L.
  destruct (truthy (orEmpty (nth_error fields 0))) eqn:F; cbn [andb].
  2:{ apply truthy_false in F. split.
      - intros [p Hp]. discriminate.
      - intros (_ & H & _). exfalso. exact (H F). }
  apply truthy_spec in F.
  destruct (App.resolvePrice (nth_error fields 3)
              (App.parseVariants (orEmpty (nth_error fields 4))))
    as [displayPrice displayPriceValue].
  cbn [fst] in R. destruct (truthy displayPrice); cbn [negb].
  - split; [|intros _; eexists; reflexivity].
    intros _. repeat split; auto. apply R. reflexivity.
  - split; [intros [p Hp]; discriminate|].
    intros (_ & _ & H). apply R in H. discriminate.
Qed.

Lemma App_rowRecord_sameDay (idx : option nat) (n : nat)
      (row : jsstring) (p : App.Product) :
  App.rowRecord toLowerCase idx n row = Some p ->
  App.sameDay p = App.sameDayOf toLowerCase idx (Spec.cleanFields row).
Proof.
  unfold App.rowRecord. fold (Spec.cleanFields row).
  destruct (_ && _); [|discriminate].
  destruct (App.resolvePrice _ _) as [dp dv].
  destruct (negb (truthy dp)); [discriminate|].
  intros H; injection H as <-. reflexivity.
Qed.

Lemma Staff_rowRecord_sameDay (idx : option nat) (row : jsstring)
      (p : Staff.Product) :
  Staff.rowRecord toLowerCase idx row = Some p ->
  Staff.sameDay p = App.sameDayOf toLowerCase idx (Spec.cleanFields row).
Proof.
  unfold Staff.rowRecord, Staff.parseCSVRow, Staff.cleanField.
  fold (Spec.cleanFields row).
  destruct (_ && _); [|discriminate].
  destruct (Staff.resolvePrice _ _) as [dp dv].
  destruct (negb (truthy dp)); [discriminate|].
  intros H; injection H as <-. reflexivity.
Qed.

Lemma sublist_In (kept rows : list jsstring) (row : jsstring) :
  sublist kept rows -> In row kept -> In row rows.
Proof.
  intros Hsub. induction Hsub as [|x k l _ IH|x k l _ IH]; simpl; auto.
  - intros [-> | H]; auto.
Qed.

(** The products of a feed are, in order, the records of the rows that
    were not skipped. *)
Lemma App_parseRows_rows (idx : option nat) (rows : list jsstring)
      (n : nat) :
  exists kept : list jsstring,
    sublist kept rows
    /\ (forall row, In row rows -> (In row kept <-> Spec.accepted row))
    /\ Forall2 (fun p row =>
                  exists m, App.rowRecord toLowerCase idx m row = Some p)
               (App.parseRows toLowerCase idx rows n) kept.
Proof.
  revert n. induction rows as [|row rows IH]; intros n.
  - exists []. split; [constructor|]. split; [intros row []|constructor].
  - simpl. destruct (App.rowRecord toLowerCase idx n row) as [p|] eqn:E.
    + assert (Hacc : Spec.accepted row).
      { apply (App_rowRecord_accepted idx n). rewrite E. eauto. }
      destruct (IH (S n)) as (kept & Hsub & Hin & Hall).
      exists (row :: kept). split; [constructor; exact Hsub|]. split.
      * intros r [<- | Hr].
        -- split; [intros _; exact Hacc | intros _; left; reflexivity].
        -- split.
           ++ intros [<- | Hk]; [exact Hacc | apply Hin; assumption].
           ++ intros Ha. right. apply Hin; assumption.
      * constructor; [eauto | exact Hall].
    + assert (Hrej : ~ Spec.accepted row).
      { intros Ha. apply (App_rowRecord_accepted idx n) in Ha.
        rewrite E in Ha. destruct Ha; discriminate. }
      destruct (IH n) as (kept & Hsub & Hin & Hall).
      exists kept. split; [constructor; exact Hsub|]. split.
      * intros r [<- | Hr].
        -- split; [|intros Ha; contradiction].
           intros Hk. apply Hin; [|exact Hk].
           eapply sublist_In; eauto.
        -- apply Hin; assumption.
      * exact Hall.
Qed.

(** C7.  A data row yields a product record exactly when it has at
    least two fields, a non-empty first field and a resolvable display
    price (its own price field, else at least one parsed variant); the
    products of a feed are, in feed order, the records of the rows that
    pass this test, and every other row is skipped.  The parser is a
    total function: no row makes it fail. *)
Theorem C7_row_kept_iff_accepted (text : jsstring) :
  let idx := App.sameDayColumn toLowerCase (Spec.headerOf text) in
  (forall (n : nat) (row : jsstring),
      is_Some (App.rowRecord toLowerCase idx n row) <-> Spec.accepted row)
  /\ exists kept : list jsstring,
       sublist kept (Spec.dataRows text)
       /\ (forall row, In row (Spec.dataRows text) ->
             (In row kept <-> Spec.accepted row))
       /\ Forall2 (fun p row =>
                     exists m,
                       App.rowRecord toLowerCase idx m row = Some p)
                  (App.parseCSV toLowerCase text) kept.
Proof.
  intros idx. split.
  - intros n row. apply App_rowRecord_accepted.
  - apply App_parseRows_rows.
Qed.

(** ** The same-day flag *)

Lemma sameDayColumn_None (header : list jsstring) :
  App.sameDayColumn toLowerCase header = None
  <-> forall h, In h header -> ~ Spec.sameDayHeader toLowerCase h.
Proof.
  unfold App.sameDayColumn, Spec.sameDayHeader. rewrite findIndex_None.
  split; intros H h Hh; specialize (H h Hh).
  - intros E. apply streq_spec in E. congruence.
  - destruct (streq _ _) eqn:E; auto. apply streq_spec in E. contradiction.
Qed.

Lemma sameDayColumn_Some (header : list jsstring) (i : nat) :
  App.sameDayColumn toLowerCase header = Some i
  <-> Spec.firstSameDayColumn toLowerCase header i.
Proof.
  unfold App.sameDayColumn, Spec.firstSameDayColumn, Spec.sameDayHeader.
  rewrite findIndex_Some. split.
  - intros [(h & Hh & E) Hmin]. split.
    + exists h. split; [exact Hh | apply streq_spec; exact E].
    + intros j y Hj Hy E'. apply streq_spec in E'.
      rewrite (Hmin j y Hj Hy) in E'. discriminate.
  - intros [(h & Hh & E) Hmin]. split.
    + exists h. split; [exact Hh | apply streq_spec; exact E].
    + intros j y Hj Hy. destruct (streq _ _) eqn:E'; auto.
      apply streq_spec in E'. destruct (Hmin j y Hj Hy E').
Qed.

Lemma sameDayOf_Some (i : nat) (fields : list jsstring) :
  toLowerCase [] = [] ->
  App.sameDayOf toLowerCase (Some i) fields = true
  <-> exists cell, nth_error fields i = Some cell
                   /\ toLowerCase cell = lit "true".
Proof.
  intros Hnil. unfold App.sameDayOf.
  destruct (nth_error fields i) as [cell|].
  - rewrite andb_true_iff, streq_spec. split.
    + intros [_ E]. eauto.
    + intros (c & Hc & E). injection Hc as <-. split; [|exact E].
      destruct cell; [|reflexivity]. rewrite Hnil in E. discriminate.
  - split; [discriminate | intros (c & Hc & _); discriminate].
Qed.

Lemma App_parseRows_In (idx : option nat) (rows : list jsstring)
      (n : nat) (p : App.Product) :
  In p (App.parseRows toLowerCase idx rows n) ->
  exists row m, In row rows
                /\ App.rowRecord toLowerCase idx m row = Some p.
Proof.
  revert n. induction rows as [|row rows IH]; intros n; simpl; [intros []|].
  destruct (App.rowRecord toLowerCase idx n row) as [q|] eqn:E.
  - intros [<- | H]; [eauto|].
    destruct (IH _ H) as (r & m & Hr & Hm). eauto.
  - intros H. destruct (IH _ H) as (r & m & Hr & Hm). eauto.
Qed.

Lemma Staff_parseRows_In (idx : option nat) (rows : list jsstring)
      (p : Staff.Product) :
  In p (Staff.parseRows toLowerCase idx rows) ->
  exists row, In row rows /\ Staff.rowRecord toLowerCase idx row = Some p.
Proof.
  induction rows as [|row rows IH]; simpl; [intros []|].
  destruct (Staff.rowRecord toLowerCase idx row) as [q|] eqn:E.
  - intros [<- | H]; [eauto|].
    destruct (IH H) as (r & Hr & Hm). eauto.
  - intros H. destruct (IH H) as (r & Hr & Hm). eauto.
Qed.

(** C9.  In both parsers the same-day flag of every product is false
    when no header column reads [sameday] (trimmed, case folded); when
    such a column exists, the flag of a product is true exactly when the
    cell of its row in (the first) such column case-folds to [true].
    The host fact used: the empty string lower-cases to itself. *)
Theorem C9_sameDay_only_from_header_column (text : jsstring) :
  toLowerCase [] = [] ->
  ((forall h, In h (Spec.headerOf text) ->
              ~ Spec.sameDayHeader toLowerCase h) ->
   (forall p, In p (App.parseCSV toLowerCase text) ->
              App.sameDay p = false)
   /\ (forall p, In p (Staff.parseCSV toLowerCase text) ->
                 Staff.sameDay p = false))
  /\ (forall i, Spec.firstSameDayColumn toLowerCase (Spec.headerOf text) i ->
        (forall p, In p (App.parseCSV toLowerCase text) ->
           exists row,
             In row (Spec.dataRows text)
             /\ (exists n, App.rowRecord toLowerCase (Some i) n row = Some p)
             /\ (App.sameDay p = true <->
                 exists cell,
                   nth_error (Spec.cleanFields row) i = Some cell
                   /\ toLowerCase cell = lit "true"))
        /\ (forall p, In p (Staff.parseCSV toLowerCase text) ->
              exists row,
                In row (Spec.dataRows text)
                /\ Staff.rowRecord toLowerCase (Some i) row = Some p
                /\ (Staff.sameDay p = true <->
                    exists cell,
                      nth_error (Spec.cleanFields row) i = Some cell
                      /\ toLowerCase cell = lit "true"))).
Proof.
  intros Hnil. split.
  - intros Hno. apply sameDayColumn_None in Hno. split.
    + intros p Hp. unfold App.parseCSV in Hp.
      fold (Spec.headerOf text) in Hp. rewrite Hno in Hp.
      destruct (App_parseRows_In _ _ _ _ Hp) as (row & m & _ & Hm).
      rewrite (App_rowRecord_sameDay _ _ _ _ Hm). reflexivity.
    + intros p Hp. unfold Staff.parseCSV in Hp.
      unfold Staff.splitRows, Staff.parseCSVRow in Hp.
      fold (Spec.headerOf text) in Hp. rewrite Hno in Hp.
      destruct (Staff_parseRows_In _ _ _ Hp) as (row & _ & Hm).
      rewrite (Staff_rowRecord_sameDay _ _ _ Hm). reflexivity.
  - intros i Hi. apply sameDayColumn_Some in Hi. split.
    + intros p Hp. unfold App.parseCSV in Hp.
      fold (Spec.headerOf text) in Hp. rewrite Hi in Hp.
      destruct (App_parseRows_In _ _ _ _ Hp) as (row & m & Hr & Hm).
      exists row. split; [exact Hr|]. split; [eauto|].
      rewrite (App_rowRecord_sameDay _ _ _ _ Hm).
      apply sameDayOf_Some; exact Hnil.
    + intros p Hp. unfold Staff.parseCSV in Hp.
      unfold Staff.splitRows, Staff.parseCSVRow in Hp.
      fold (Spec.headerOf text) in Hp. rewrite Hi in Hp.
      destruct (Staff_parseRows_In _ _ _ Hp) as (row & Hr & Hm).
      exists row. split; [exact Hr|]. split; [exact Hm|].
      rewrite (Staff_rowRecord_sameDay _ _ _ Hm).
      apply sameDayOf_Some; exact Hnil.
Qed.

End RecordBuilder.

(* ===================================================================== *)
(** * Fuzzy matching *)
(* ===================================================================== *)

Section FuzzyMatch.
Import JS.
Variable toLowerCase : jsstring -> jsstring.

Lemma startsWith_spec (s p : jsstring) :
  startsWith s p = true <-> p `prefix_of` s.
Proof.
  revert s. induction p as [|b p IH]; intros s; simpl.
  - split; [intros _; exists s; reflexivity | reflexivity].
  - destruct s as [|a s].
    + split; [discriminate | intros [k Hk]; discriminate].
    + rewrite andb_true_iff, N.eqb_eq, IH. split.
      * intros [-> [k ->]]. exists k. reflexivity.
      * intros [k Hk]. injection Hk as -> ->. split; [reflexivity|].
        exists k. reflexivity.
Qed.

Lemma includes_spec (s p : jsstring) :
  includes s p = true <-> Spec.Substring p s.
Proof.
  unfold Spec.Substring. induction s as [|a s IH].
  - simpl. rewrite orb_false_r, startsWith_spec. split.
    + intros [k Hk]. exists [], k. exact Hk.
    + intros (pre & post & H). destruct pre; [|discriminate].
      exists post. exact H.
  - cbn [includes]. rewrite orb_true_iff, startsWith_spec, IH. split.
    + intros [[k Hk] | (pre & post & ->)].
      * exists [], k. exact Hk.
      * exists (a :: pre), post. reflexivity.
    + intros (pre & post & H). destruct pre as [|x pre].
      * left. exists post. exact H.
      * right. injection H as -> ->. exists pre, post. reflexivity.
Qed.

(** Every piece of [split(/\s+/)] is a contiguous run of the string. *)
Lemma splitWsFrom_substring (s cur : jsstring) (inSep : bool)
      (w : jsstring) :
  (inSep = true -> cur = []) ->
  In w (splitWsFrom s cur inSep) -> Spec.Substring w (cur ++ s).
Proof.
  unfold Spec.Substring. revert cur inSep.
  induction s as [|c s IH]; intros cur inSep Hst; simpl.
  - intros [<- | []]. exists [], []. rewrite !app_nil_r. reflexivity.
  - destruct (isWhiteSpace c).
    + destruct inSep.
      * rewrite (Hst eq_refl). intros H.
        destruct (IH [] true (fun _ => eq_refl) H) as (pre & post & E).
        simpl in E. exists (c :: pre), post. simpl. rewrite E. reflexivity.
      * intros [<- | H].
        -- exists [], (c :: s). reflexivity.
        -- destruct (IH [] true (fun _ => eq_refl) H) as (pre & post & E).
           simpl in E. exists (cur ++ c :: pre), post.
           rewrite E, <- app_assoc. reflexivity.
    + intros H.
      destruct (IH (cur ++ [c]) false ltac:(discriminate) H)
        as (pre & post & E).
      exists pre, post. rewrite <- E, <- app_assoc. reflexivity.
Qed.

Lemma Substring_trans (a b c : jsstring) :
  Spec.Substring a b -> Spec.Substring b c -> Spec.Substring a c.
Proof.
  intros (p1 & q1 & ->) (p2 & q2 & ->).
  exists (p2 ++ p1), (q1 ++ q2). rewrite <- !app_assoc. reflexivity.
Qed.

(** The word-prefix stage is subsumed by the substring stage. *)
Lemma WordPrefix_Substring (q s : jsstring) :
  Spec.WordPrefix q s -> Spec.Substring q s.
Proof.
  intros (w & Hw & [k ->]).
  apply (Substring_trans _ (q ++ k)).
  - exists [], k. reflexivity.
  - apply (splitWsFrom_substring s [] false); [discriminate | exact Hw].
Qed.

Lemma existsb_startsWith_spec (q s : jsstring) :
  existsb (fun word => startsWith word q) (splitWs s) = true
  <-> Spec.WordPrefix q s.
Proof.
  unfold Spec.WordPrefix. rewrite existsb_exists.
  split; intros (w & Hw & H); exists w; split; auto;
    apply startsWith_spec; exact H.
Qed.

(** The loop of the last stage ends with the whole pattern consumed
    exactly when what was left of the pattern is a subsequence of what
    was left of the string. *)
Lemma subsequenceScan_spec (s p : jsstring) (idx : nat) :
  (idx <= length p)%nat ->
  App.subsequenceScan s p idx = length p
  <-> Spec.Subsequence (skipn idx p) s.
Proof.
  unfold Spec.Subsequence. revert idx.
  induction s as [|c s IH]; intros idx Hidx; simpl.
  - rewrite sublist_nil_r. split.
    + intros ->. apply skipn_all.
    + intros H. apply (f_equal (@length N)) in H.
      rewrite length_skipn in H. simpl in H. lia.
  - destruct (idx <? length p)%nat eqn:L.
    + apply Nat.ltb_lt in L.
      destruct (nth_error p idx) as [q|] eqn:Eq.
      2:{ apply nth_error_None in Eq. lia. }
      assert (Ed : skipn idx p = q :: skipn (S idx) p).
      { clear -Eq. revert idx Eq.
        induction p as [|x p IHp]; intros [|i] Eq; simpl in *;
          try discriminate.
        - injection Eq as ->. reflexivity.
        - apply IHp; exact Eq. }
      rewrite Ed. destruct (c =? q)%N eqn:Ec.
      * apply N.eqb_eq in Ec. subst q.
        rewrite (IH (S idx)) by lia. split.
        -- intros H. constructor. exact H.
        -- intros H. apply sublist_cons_r in H as [H | (l' & E & H)].
           ++ etransitivity; [|exact H]. apply sublist_cons. reflexivity.
           ++ injection E as <-. exact H.
      * apply N.eqb_neq in Ec. rewrite (IH idx) by lia. rewrite Ed. split.
        -- intros H. apply sublist_cons. exact H.
        -- intros H. apply sublist_cons_r in H as [H | (l' & E & H)].
           ++ exact H.
           ++ injection E as E _. congruence.
    + apply Nat.ltb_ge in L. assert (idx = length p) as -> by lia.
      rewrite skipn_all. split; [intros _; apply sublist_nil_l | reflexivity].
Qed.

(** The four weights are distinct numbers. *)
Lemma weights_distinct :
  ofZ 2 <> decimal 15 10 /\ ofZ 2 <> decimal 5 10 /\ ofZ 2 <> ofZ 0
  /\ decimal 15 10 <> decimal 5 10 /\ decimal 15 10 <> ofZ 0
  /\ decimal 5 10 <> ofZ 0.
Proof. repeat split; vm_compute; discriminate. Qed.

(** C4.  [fuzzyMatch] returns the weight of the first stage that
    applies, read on the case-folded field [s] and query [q]: 2 when
    [q] is a substring of [s]; else 1.5 when a white-space delimited
    word of [s] starts with [q]; else 0 when [q] has length 4 or more;
    else 0.5 when [q] is a subsequence of [s], and 0 otherwise.  The
    numbers are the binary64 values of the literals. *)
Theorem C4_fuzzyMatch_staged (str pattern : jsstring) :
  let s := toLowerCase str in
  let q := toLowerCase pattern in
  let r := App.fuzzyMatch toLowerCase str pattern in
  (Spec.Substring q s -> r = ofZ 2)
  /\ (~ Spec.Substring q s -> Spec.WordPrefix q s -> r = decimal 15 10)
  /\ (~ Spec.Substring q s -> ~ Spec.WordPrefix q s ->
      (4 <= length q)%nat -> r = ofZ 0)
  /\ (~ Spec.Substring q s -> ~ Spec.WordPrefix q s ->
      (length q < 4)%nat -> Spec.Subsequence q s -> r = decimal 5 10)
  /\ (~ Spec.Substring q s -> ~ Spec.WordPrefix q s ->
      (length q < 4)%nat -> ~ Spec.Subsequence q s -> r = ofZ 0).
Proof.
  intros s q r. subst r. unfold App.fuzzyMatch. fold s q.
  pose proof (includes_spec s q) as Hi.
  pose proof (existsb_startsWith_spec q s) as Hw.
  pose proof (subsequenceScan_spec s q 0 ltac:(lia)) as Hs.
  simpl skipn in Hs. rewrite <- Nat.eqb_eq in Hs.
  destruct (includes s q).
  { split; [reflexivity|].
    repeat split; intros H; exfalso; apply H, Hi; reflexivity. }
  assert (Hn : ~ Spec.Substring q s) by (intros H; apply Hi in H; discriminate).
  split; [intros H; contradiction|].
  destruct (existsb _ (splitWs s)).
  { split; [reflexivity|].
    repeat split; intros _ H; exfalso; apply H, Hw; reflexivity. }
  assert (Hnw : ~ Spec.WordPrefix q s)
    by (intros H; apply Hw in H; discriminate).
  split; [intros _ H; contradiction|].
  destruct (4 <=? length q)%nat eqn:L.
  { apply Nat.leb_le in L. split; [reflexivity|]. split; intros _ _ H; lia. }
  apply Nat.leb_gt in L. split; [intros _ _ H; lia|].
  destruct (_ =? _)%nat.
  - split; [reflexivity|]. intros _ _ _ H. exfalso. apply H, Hs. reflexivity.
  - split; [|reflexivity]. intros _ _ _ H. apply Hs in H. discriminate.
Qed.

(** The weight 1.5 is never returned: a word that starts with the query
    contains it, so the substring stage has already answered. *)
Lemma fuzzyMatch_weights (str pattern : jsstring) :
  App.fuzzyMatch toLowerCase str pattern = ofZ 2
  \/ App.fuzzyMatch toLowerCase str pattern = decimal 5 10
  \/ App.fuzzyMatch toLowerCase str pattern = ofZ 0.
Proof.
  unfold App.fuzzyMatch.
  destruct (includes _ _) eqn:I; [left; reflexivity|].
  destruct (existsb _ _) eqn:W.
  - apply existsb_startsWith_spec, WordPrefix_Substring, includes_spec in W.
    congruence.
  - destruct (4 <=? _)%nat; [right; right; reflexivity|].
    destruct (_ =? _)%nat; [right; left | right; right]; reflexivity.
Qed.

End FuzzyMatch.

(* ===================================================================== *)
(** * The prioritizer *)
(* ===================================================================== *)

Section Prioritizer.
Import JS.
Variable toLowerCase : jsstring -> jsstring.

Lemma isPriority_spec (p : App.Product) :
  App.isPriority toLowerCase p = true <-> Spec.matchesKeyword toLowerCase p.
Proof.
  unfold App.isPriority, Spec.matchesKeyword. rewrite existsb_exists.
  split; intros (kw & Hkw & H); exists kw; split; auto;
    apply includes_spec; exact H.
Qed.

Lemma find_snoc {A : Type} (f : A -> bool) (l : list A) (x : A) :
  find f (l ++ [x])
  = match find f l with
    | Some y => Some y
    | None => if f x then Some x else None
    end.
Proof.
  induction l as [|y l IH]; simpl; [reflexivity|].
  destruct (f y); [reflexivity | exact IH].
Qed.

Lemma featured_spec (ident : jsstring) :
  existsb (streq ident) App.featuredIds = true
  <-> ident = Spec.pinnedFirst \/ ident = Spec.pinnedSecond.
Proof.
  unfold App.featuredIds, lits. simpl.
  rewrite orb_false_r, orb_true_iff, !streq_spec. reflexivity.
Qed.

(** What the first loop leaves in the map, starting from any map. *)
Lemma featuredMap_fold (products : list App.Product)
      (m : gmap jsstring App.Product) (key : jsstring) :
  fold_left
    (fun (featuredMap : gmap jsstring App.Product) product =>
       if existsb (streq (App.productId product)) App.featuredIds
       then <[App.productId product := product]> featuredMap
       else featuredMap)
    products m !! key
  = match (if existsb (streq key) App.featuredIds
           then Spec.lastWith key products else None) with
    | Some p => Some p
    | None => m !! key
    end.
Proof.
  unfold Spec.lastWith. revert m.
  induction products as [|x l IH]; intros m.
  - cbn [fold_left rev find].
    destruct (existsb (streq key) App.featuredIds); reflexivity.
  - cbn [fold_left rev]. rewrite IH, find_snoc.
    destruct (existsb (streq key) App.featuredIds) eqn:Fk.
    + destruct (find _ (rev l)); [reflexivity|].
      destruct (streq (App.productId x) key) eqn:E.
      * apply streq_spec in E. subst key. rewrite Fk.
        apply lookup_insert_eq.
      * destruct (existsb (streq (App.productId x)) App.featuredIds);
          [|reflexivity].
        apply lookup_insert_ne. intros H.
        rewrite H, streq_refl in E. discriminate.
    + destruct (existsb (streq (App.productId x)) App.featuredIds) eqn:Fx;
        [|reflexivity].
      apply lookup_insert_ne. intros H. congruence.
Qed.

Lemma featuredMapOf_lookup (products : list App.Product) (key : jsstring) :
  App.featuredMapOf products !! key
  = if existsb (streq key) App.featuredIds
    then Spec.lastWith key products else None.
Proof.
  unfold App.featuredMapOf. rewrite featuredMap_fold.
  rewrite lookup_empty.
  destruct (existsb (streq key) App.featuredIds);
    [destruct (Spec.lastWith key products)|]; reflexivity.
Qed.

Lemma lastWith_Some (ident : jsstring) (products : list App.Product)
      (p : App.Product) :
  Spec.lastWith ident products = Some p ->
  In p products /\ App.productId p = ident.
Proof.
  unfold Spec.lastWith. intros H. apply find_some in H as [Hin E].
  apply in_rev in Hin. apply streq_spec in E. auto.
Qed.

Lemma lastWith_occurs (ident : jsstring) (products : list App.Product) :
  Spec.occurs ident products
  <-> exists p, Spec.lastWith ident products = Some p.
Proof.
  split.
  - intros (p & Hin & E).
    destruct (Spec.lastWith ident products) as [q|] eqn:F; [eauto|].
    unfold Spec.lastWith in F.
    pose proof (find_none _ _ F p (proj1 (in_rev _ _) Hin)) as N.
    simpl in N. rewrite E, streq_refl in N. discriminate.
  - intros [p Hp]. exists p. apply lastWith_Some. exact Hp.
Qed.

(** The products that stay in the list are those that are not pinned. *)
Lemma remaining_unpinned (products : list App.Product) :
  filter (fun product =>
            negb (App.has (App.featuredMapOf products)
                          (App.productId product))) products
  = Spec.unpinned products.
Proof.
  unfold Spec.unpinned. apply filter_ext_in. intros p Hp. f_equal.
  unfold App.has. rewrite featuredMapOf_lookup. unfold Spec.isPinned.
  destruct (existsb (streq (App.productId p)) App.featuredIds) eqn:F.
  - assert (O : Spec.occurs (App.productId p) products)
      by (exists p; auto).
    apply lastWith_occurs in O as [q ->].
    apply featured_spec in F as [-> | ->]; reflexivity.
  - symmetry. apply orb_false_iff. split.
    + destruct (streq _ Spec.pinnedFirst) eqn:E; auto.
      apply streq_spec in E.
      assert (existsb (streq (App.productId p)) App.featuredIds = true)
        by (apply featured_spec; auto).
      congruence.
    + destruct (streq _ Spec.pinnedSecond) eqn:E; auto.
      apply streq_spec in E.
      assert (existsb (streq (App.productId p)) App.featuredIds = true)
        by (apply featured_spec; auto).
      congruence.
Qed.

(** The second loop is a stable partition. *)
Lemma partition_fold (l priority other : list App.Product) :
  fold_left
    (fun (acc : list App.Product * list App.Product) product =>
       let '(priority, other) := acc in
       if App.isPriority toLowerCase product
       then (priority ++ [product], other)
       else (priority, other ++ [product]))
    l (priority, other)
  = (priority ++ filter (App.isPriority toLowerCase) l,
     other ++ filter (fun p => negb (App.isPriority toLowerCase p)) l).
Proof.
  revert priority other. induction l as [|x l IH]; intros priority other.
  - simpl. rewrite !app_nil_r. reflexivity.
  - simpl. destruct (App.isPriority toLowerCase x); simpl;
      rewrite IH, <- app_assoc; reflexivity.
Qed.

Lemma partitionRemaining_spec (l : list App.Product) :
  App.partitionRemaining toLowerCase l
  = (filter (App.isPriority toLowerCase) l,
     filter (fun p => negb (App.isPriority toLowerCase p)) l).
Proof. unfold App.partitionRemaining. apply partition_fold. Qed.

(** The result of the prioritizer in terms of the catalogue. *)
Lemma prioritizeProducts_spec (products : list App.Product) :
  let rest := Spec.keywordFirst toLowerCase (Spec.unpinned products) in
  let k := Nat.min 10 (length rest) in
  App.prioritizeProducts toLowerCase products
  = match Spec.lastWith Spec.pinnedFirst products,
          Spec.lastWith Spec.pinnedSecond products with
    | Some first, Some second =>
        first :: firstn k rest ++ second :: skipn k rest
    | Some first, None => first :: rest
    | None, Some second => second :: rest
    | None, None => rest
    end.
Proof.
  intros rest k. unfold App.prioritizeProducts.
  rewrite remaining_unpinned, partitionRemaining_spec.
  fold (Spec.keywordFirst toLowerCase (Spec.unpinned products)).
  fold rest. rewrite !featuredMapOf_lookup.
  change (nth 0 App.featuredIds []) with Spec.pinnedFirst.
  change (nth 1 App.featuredIds []) with Spec.pinnedSecond.
  change (existsb (streq Spec.pinnedFirst) App.featuredIds) with true.
  change (existsb (streq Spec.pinnedSecond) App.featuredIds) with true.
  cbv iota.
  destruct (Spec.lastWith Spec.pinnedFirst products),
           (Spec.lastWith Spec.pinnedSecond products); reflexivity.
Qed.

Lemma not_occurs_lastWith (ident : jsstring) (products : list App.Product) :
  ~ Spec.occurs ident products -> Spec.lastWith ident products = None.
Proof.
  intros H. destruct (Spec.lastWith ident products) eqn:E; auto.
  exfalso. apply H, lastWith_occurs. eauto.
Qed.

(** The partition of the code is the stable partition by the keyword
    test of the specification. *)
Lemma keywordFirst_partition (l : list App.Product) :
  Spec.StablePartition (Spec.matchesKeyword toLowerCase) l
    (filter (App.isPriority toLowerCase) l)
    (filter (fun p => negb (App.isPriority toLowerCase p)) l).
Proof.
  induction l as [|x l IH]; [constructor|].
  cbn [filter]. destruct (App.isPriority toLowerCase x) eqn:E; cbn [negb].
  - apply Spec.partition_front; [apply isPriority_spec; exact E | exact IH].
  - apply Spec.partition_back; [|exact IH].
    intros H. apply isPriority_spec in H. congruence.
Qed.

(** A stable partition keeps every element, and is determined by the
    list. *)
Lemma StablePartition_length {A : Type} (P : A -> Prop)
      (l front back : list A) :
  Spec.StablePartition P l front back ->
  length (front ++ back) = length l.
Proof.
  induction 1 as [|x l f b _ _ IH|x l f b _ _ IH]; [reflexivity| |].
  - cbn [app length]. rewrite IH. reflexivity.
  - rewrite length_app in *. cbn [length]. lia.
Qed.

Lemma StablePartition_unique {A : Type} (P : A -> Prop)
      (l front back front' back' : list A) :
  Spec.StablePartition P l front back ->
  Spec.StablePartition P l front' back' ->
  front = front' /\ back = back'.
Proof.
  intros H. revert front' back'.
  induction H as [|x l f b Hx _ IH|x l f b Hx _ IH]; intros f' b' H'.
  - inversion H'. auto.
  - inversion H' as [|? ? f2 b2 Hx' H2|? ? f2 b2 Hx' H2]; subst.
    + destruct (IH _ _ H2) as [-> ->]. auto.
    + contradiction.
  - inversion H' as [|? ? f2 b2 Hx' H2|? ? f2 b2 Hx' H2]; subst.
    + contradiction.
    + destruct (IH _ _ H2) as [-> ->]. auto.
Qed.

(** C8.  Let [front] be the products that are not pinned and whose
    lower-cased name and description, joined by a space, contain one of
    the priority keywords, let [back] be the other products that are not
    pinned, each in catalogue order, and let [rest] be [front] followed
    by [back] and [k = min 10 (length rest)].  When both pinned
    identifiers occur the result is the first pinned product, the first
    [k] of [rest], the second pinned product, what is left of [rest]; so
    the first pinned product is at index 0 and the second at index
    [k + 1], which is 11 as soon as [rest] has ten items.  When only one
    pinned identifier occurs its product is put in front of [rest], and
    when none occurs the result is [rest].  The product taken for an
    identifier is the last one that carries it. *)
Theorem C8_prioritizeProducts_layout (products : list App.Product) :
  exists front back : list App.Product,
    Spec.StablePartition (Spec.matchesKeyword toLowerCase)
                         (Spec.unpinned products) front back
    /\ let rest := front ++ back in
       let result := App.prioritizeProducts toLowerCase products in
       let k := Nat.min 10 (length rest) in
       (Spec.occurs Spec.pinnedFirst products ->
        Spec.occurs Spec.pinnedSecond products ->
        exists first second,
          Spec.lastWith Spec.pinnedFirst products = Some first
          /\ App.productId first = Spec.pinnedFirst
          /\ Spec.lastWith Spec.pinnedSecond products = Some second
          /\ App.productId second = Spec.pinnedSecond
          /\ result = first :: firstn k rest ++ second :: skipn k rest
          /\ nth_error result 0 = Some first
          /\ nth_error result (k + 1) = Some second
          /\ ((10 <= length rest)%nat -> nth_error result 11 = Some second))
       /\ (Spec.occurs Spec.pinnedFirst products ->
           ~ Spec.occurs Spec.pinnedSecond products ->
           exists first,
             Spec.lastWith Spec.pinnedFirst products = Some first
             /\ App.productId first = Spec.pinnedFirst
             /\ result = first :: rest)
       /\ (~ Spec.occurs Spec.pinnedFirst products ->
           Spec.occurs Spec.pinnedSecond products ->
           exists second,
             Spec.lastWith Spec.pinnedSecond products = Some second
             /\ App.productId second = Spec.pinnedSecond
             /\ result = second :: rest)
       /\ (~ Spec.occurs Spec.pinnedFirst products ->
           ~ Spec.occurs Spec.pinnedSecond products ->
           result = rest).
Proof.
  exists (filter (App.isPriority toLowerCase) (Spec.unpinned products)),
         (filter (fun p => negb (App.isPriority toLowerCase p))
                 (Spec.unpinned products)).
  split; [apply keywordFirst_partition|].
  fold (Spec.keywordFirst toLowerCase (Spec.unpinned products)).
  intros rest result k. subst result.
  rewrite prioritizeProducts_spec. fold rest. fold k.
  repeat split.
  - intros H1 H2.
    apply lastWith_occurs in H1 as [first E1].
    apply lastWith_occurs in H2 as [second E2].
    rewrite E1, E2. exists first, second.
    assert (Hk : length (firstn k rest) = k).
    { apply firstn_length_le. unfold k. lia. }
    assert (Hnth : nth_error (first :: firstn k rest ++ second :: skipn k rest)
                             (k + 1) = Some second).
    { rewrite Nat.add_1_r. simpl.
      rewrite nth_error_app2 by lia. rewrite Hk, Nat.sub_diag. reflexivity. }
    repeat split; auto.
    + apply (lastWith_Some _ _ _ E1).
    + apply (lastWith_Some _ _ _ E2).
    + intros Hlen. replace 11%nat with (k + 1)%nat by (unfold k; lia).
      exact Hnth.
  - intros H1 H2. apply lastWith_occurs in H1 as [first E1].
    rewrite E1, (not_occurs_lastWith _ _ H2). exists first.
    repeat split; auto. apply (lastWith_Some _ _ _ E1).
  - intros H1 H2. apply lastWith_occurs in H2 as [second E2].
    rewrite E2, (not_occurs_lastWith _ _ H1). exists second.
    repeat split; auto. apply (lastWith_Some _ _ _ E2).
  - intros H1 H2.
    rewrite (not_occurs_lastWith _ _ H1), (not_occurs_lastWith _ _ H2).
    reflexivity.
Qed.

End Prioritizer.

(* ===================================================================== *)
(** * The two variant parsers *)
(* ===================================================================== *)

Section VariantPattern.
Import JS.

(** The shared head of the two patterns, for any continuation [T] after
    the em dash. *)
Variable T : jsstring -> option jsstring.
Variable tail : jsstring -> option jsstring.
Hypothesis tail_eq :
  forall s, tail s = match VariantRegex.afterWsChar EM_DASH s with
                     | Some r => T r
                     | None => None
                     end.

Lemma plain_cons (c : N) (s : jsstring) :
  Spec.plain (c :: s) <->
  isLineTerminator c = false /\ c <> EM_DASH /\ Spec.plain s.
Proof.
  unfold Spec.plain. simpl.
  rewrite !andb_true_iff, !negb_true_iff, N.eqb_neq. tauto.
Qed.

Lemma EM_DASH_not_space : isWhiteSpace EM_DASH = false.
Proof. reflexivity. Qed.

Lemma afterWsChar_no_dash (s : jsstring) :
  Spec.plain s -> VariantRegex.afterWsChar EM_DASH s = None.
Proof.
  unfold VariantRegex.afterWsChar.
  induction s as [|c s IH]; intros H; [reflexivity|].
  apply plain_cons in H as (_ & Hd & Hs). simpl.
  destruct (isWhiteSpace c); [apply IH; exact Hs|].
  apply N.eqb_neq in Hd. rewrite Hd. reflexivity.
Qed.

Lemma afterWsChar_dash (n ptext : jsstring) :
  Spec.plain n ->
  VariantRegex.afterWsChar EM_DASH (n ++ EM_DASH :: ptext)
  = if forallb isWhiteSpace n then Some ptext else None.
Proof.
  unfold VariantRegex.afterWsChar.
  induction n as [|c n IH]; intros H.
  - simpl. reflexivity.
  - apply plain_cons in H as (_ & Hd & Hn). simpl.
    destruct (isWhiteSpace c); simpl; [apply IH; exact Hn|].
    apply N.eqb_neq in Hd. rewrite Hd. reflexivity.
Qed.

(** Without an em dash ahead nothing matches. *)
Lemma fromStart_no_dash (g1 s : jsstring) :
  Spec.plain s -> VariantRegex.fromStart tail g1 s = None.
Proof.
  revert g1. induction s as [|c s IH]; intros g1 H; simpl.
  - rewrite tail_eq. reflexivity.
  - rewrite tail_eq, (afterWsChar_no_dash _ H).
    apply plain_cons in H as (_ & _ & Hs).
    destruct (isLineTerminator c); [reflexivity | apply IH; exact Hs].
Qed.

Lemma variantMatch_no_dash (s : jsstring) :
  Spec.plain s -> VariantRegex.variantMatch tail s = None.
Proof.
  induction s as [|c s IH]; intros H; simpl; [reflexivity|].
  apply plain_cons in H as (_ & _ & Hs).
  destruct (isLineTerminator c); [apply IH; exact Hs|].
  rewrite (fromStart_no_dash _ _ Hs). apply IH; exact Hs.
Qed.

Lemma trimEnd_cons_eq (c : N) (n : jsstring) :
  trimEnd (c :: n)
  = if forallb isWhiteSpace (c :: n) then [] else c :: trimEnd n.
Proof.
  unfold trimEnd. simpl rev.
  assert (G : forall r : jsstring,
    rev (dropWhile isWhiteSpace (r ++ [c]))
    = if forallb isWhiteSpace (c :: rev r) then []
      else c :: rev (dropWhile isWhiteSpace r)).
  { induction r as [|x r IH]; simpl.
    - destruct (isWhiteSpace c); reflexivity.
    - destruct (isWhiteSpace x) eqn:Ex.
      + rewrite IH. simpl. rewrite forallb_app. simpl. rewrite Ex.
        rewrite andb_true_r. reflexivity.
      + simpl. rewrite forallb_app. simpl. rewrite Ex.
        rewrite andb_false_r, andb_false_r, rev_app_distr. reflexivity. }
  rewrite G, rev_involutive. reflexivity.
Qed.

(** From a start inside the name, the first capture is extended to the
    last character of the name that is not white space, and the match
    succeeds exactly when the continuation accepts the price text. *)
Lemma fromStart_entry (g1 n ptext : jsstring) :
  Spec.plain n -> Spec.plain ptext ->
  VariantRegex.fromStart tail g1 (n ++ EM_DASH :: ptext)
  = match T ptext with
    | Some m2 => Some (g1 ++ trimEnd n, m2)
    | None => None
    end.
Proof.
  intros Hn Hp. revert g1 Hn. induction n as [|c n IH]; intros g1 Hn.
  - cbn [app VariantRegex.fromStart]. rewrite tail_eq.
    pose proof (afterWsChar_dash [] ptext eq_refl) as A.
    cbn [app forallb] in A. rewrite A.
    destruct (T ptext) as [m2|]; [rewrite app_nil_r; reflexivity|].
    change (isLineTerminator EM_DASH) with false. cbv iota.
    apply fromStart_no_dash; exact Hp.
  - pose proof Hn as Hcn. apply plain_cons in Hn as (Hc & _ & Hn).
    change ((c :: n) ++ EM_DASH :: ptext) with (c :: (n ++ EM_DASH :: ptext)).
    cbn [VariantRegex.fromStart].
    change (c :: (n ++ EM_DASH :: ptext)) with ((c :: n) ++ EM_DASH :: ptext).
    rewrite tail_eq, (afterWsChar_dash (c :: n) ptext Hcn).
    rewrite Hc, (IH _ Hn), trimEnd_cons_eq.
    destruct (forallb isWhiteSpace (c :: n)).
    + destruct (T ptext); [rewrite app_nil_r|]; reflexivity.
    + destruct (T ptext); [rewrite <- app_assoc|]; reflexivity.
Qed.

Lemma variantMatch_entry_None (n ptext : jsstring) :
  Spec.plain n -> Spec.plain ptext -> T ptext = None ->
  VariantRegex.variantMatch tail (n ++ EM_DASH :: ptext) = None.
Proof.
  intros Hn Hp HT. induction n as [|c n IH].
  - cbn [app VariantRegex.variantMatch].
    change (isLineTerminator EM_DASH) with false. cbv iota.
    rewrite (fromStart_no_dash _ _ Hp). apply variantMatch_no_dash, Hp.
  - apply plain_cons in Hn as (Hc & _ & Hn).
    change ((c :: n) ++ EM_DASH :: ptext) with (c :: (n ++ EM_DASH :: ptext)).
    cbn [VariantRegex.variantMatch]. rewrite Hc.
    rewrite (fromStart_entry _ _ _ Hn Hp), HT. apply IH; exact Hn.
Qed.

(** The match of an entry: the leftmost start is the first character of
    the name. *)
Lemma variantMatch_entry (c : N) (n ptext : jsstring) :
  Spec.plain (c :: n) -> Spec.plain ptext ->
  VariantRegex.variantMatch tail (Spec.entry (c :: n) ptext)
  = match T ptext with
    | Some m2 => Some (c :: trimEnd n, m2)
    | None => None
    end.
Proof.
  intros Hcn Hp. apply plain_cons in Hcn as (Hc & _ & Hn).
  unfold Spec.entry.
  change ((c :: n) ++ [EM_DASH] ++ ptext) with (c :: (n ++ EM_DASH :: ptext)).
  cbn [VariantRegex.variantMatch]. rewrite Hc.
  rewrite (fromStart_entry _ _ _ Hn Hp).
  destruct (T ptext) eqn:HT; [reflexivity|].
  apply variantMatch_entry_None; assumption.
Qed.

End VariantPattern.

Section VariantParsers.
Import JS.

Lemma takeWhile_dropWhile (f : N -> bool) (s : jsstring) :
  s = takeWhile f s ++ dropWhile f s /\ forallb f (takeWhile f s) = true.
Proof.
  induction s as [|c s [IH1 IH2]]; simpl; [auto|].
  destruct (f c) eqn:E; simpl; [|auto].
  rewrite E, IH2. split; [f_equal; exact IH1 | reflexivity].
Qed.

Lemma takeWhile_all (f : N -> bool) (s : jsstring) :
  forallb f s = true -> takeWhile f s = s.
Proof.
  induction s as [|c s IH]; simpl; [reflexivity|].
  destruct (f c); simpl; [intros H; f_equal; auto | discriminate].
Qed.

Lemma dropWhile_app_stop (f : N -> bool) (w : jsstring) (x : N)
      (r : jsstring) :
  forallb f w = true -> f x = false ->
  dropWhile f (w ++ x :: r) = x :: r.
Proof.
  intros Hw Hx. induction w as [|c w IH]; simpl.
  - rewrite Hx. reflexivity.
  - simpl in Hw. apply andb_true_iff in Hw as [-> Hw]. apply IH; exact Hw.
Qed.

Lemma trim_ws_app (w x : jsstring) :
  forallb isWhiteSpace w = true -> trim (w ++ x) = trim x.
Proof.
  intros Hw. unfold trim, trimStart. f_equal.
  induction w as [|c w IH]; simpl; [reflexivity|].
  simpl in Hw. apply andb_true_iff in Hw as [-> Hw]. apply IH; exact Hw.
Qed.

Lemma trimEnd_app_ws (y w : jsstring) :
  forallb isWhiteSpace w = true -> trimEnd (y ++ w) = trimEnd y.
Proof.
  intros Hw. unfold trimEnd. f_equal. rewrite rev_app_distr.
  rewrite <- forallb_rev in Hw. revert Hw. generalize (rev w) as v.
  induction v as [|c v IH]; simpl; [reflexivity|].
  intros H. apply andb_true_iff in H as [-> H]. apply IH; exact H.
Qed.

Lemma trim_app_ws (x w : jsstring) :
  forallb isWhiteSpace w = true -> trim (x ++ w) = trim x.
Proof.
  intros Hw. unfold trim, trimStart.
  destruct (forallb isWhiteSpace x) eqn:Hx.
  - assert (H : forallb isWhiteSpace (x ++ w) = true)
      by (rewrite forallb_app, Hx, Hw; reflexivity).
    apply dropWhile_nil_iff in H, Hx. rewrite H, Hx. reflexivity.
  - assert (E : dropWhile isWhiteSpace (x ++ w)
                = dropWhile isWhiteSpace x ++ w).
    { clear Hw. induction x as [|c x IH]; [discriminate|].
      simpl in Hx |- *. destruct (isWhiteSpace c); [|reflexivity].
      apply IH; exact Hx. }
    rewrite E. apply trimEnd_app_ws; exact Hw.
Qed.

Lemma trimEnd_decomp (n : jsstring) :
  exists w, n = trimEnd n ++ w /\ forallb isWhiteSpace w = true.
Proof.
  unfold trimEnd.
  destruct (takeWhile_dropWhile isWhiteSpace (rev n)) as [E Hw].
  exists (rev (takeWhile isWhiteSpace (rev n))). split.
  - rewrite <- rev_app_distr, <- E, rev_involutive. reflexivity.
  - rewrite forallb_rev. exact Hw.
Qed.

Lemma trim_cons_trimEnd (c : N) (n : jsstring) :
  trim (c :: trimEnd n) = trim (c :: n).
Proof.
  destruct (trimEnd_decomp n) as (w & E & Hw).
  rewrite E at 2. change (c :: trimEnd n ++ w) with ((c :: trimEnd n) ++ w).
  symmetry. apply trim_app_ws; exact Hw.
Qed.

Lemma plain_no_terminator (s : jsstring) :
  Spec.plain s ->
  forallb (fun c => negb (isLineTerminator c)) s = true.
Proof.
  unfold Spec.plain. induction s as [|c s IH]; simpl; [reflexivity|].
  rewrite !andb_true_iff. intros [[H _] Hs]. auto.
Qed.

Lemma plain_app (a b : jsstring) :
  Spec.plain (a ++ b) <-> Spec.plain a /\ Spec.plain b.
Proof. unfold Spec.plain. rewrite forallb_app, andb_true_iff. tauto. Qed.

Lemma filter_isDigit_ws (w : jsstring) :
  forallb isWhiteSpace w = true -> filter isDigit w = [].
Proof.
  induction w as [|c w IH]; simpl; [reflexivity|].
  intros H. apply andb_true_iff in H as [Hc Hw].
  destruct (isDigit c) eqn:Ed; [|apply IH; exact Hw].
  apply isDigit_not_space in Ed. congruence.
Qed.

(** The staff continuation [\s*(.+)] on a plain text: it yields the text
    less some leading white space. *)
Lemma wsThenText_plain (ptext : jsstring) :
  ptext <> [] -> Spec.plain ptext ->
  exists w m2, Staff.wsThenText ptext = Some m2
               /\ ptext = w ++ m2 /\ forallb isWhiteSpace w = true.
Proof.
  induction ptext as [|c s IH]; intros Hne Hp; [congruence|].
  pose proof (takeWhile_all _ _ (plain_no_terminator _ Hp)) as Hall.
  cbn [Staff.wsThenText]. rewrite Hall.
  destruct (isWhiteSpace c) eqn:Ec.
  - destruct s as [|d s'].
    + exists [], [c]. simpl. auto.
    + apply plain_cons in Hp as (_ & _ & Hs).
      destruct (IH ltac:(discriminate) Hs) as (w & m2 & E & D & Hw).
      rewrite E. exists (c :: w), m2. simpl. rewrite Ec, Hw, D. auto.
  - exists [], (c :: s). auto.
Qed.

Lemma wsThenText_skip (w : jsstring) (x : N) (r : jsstring) :
  forallb isWhiteSpace w = true -> isWhiteSpace x = false ->
  isLineTerminator x = false ->
  Staff.wsThenText (w ++ x :: r)
  = Some (x :: takeWhile (fun c => negb (isLineTerminator c)) r).
Proof.
  intros Hw Hx Hl. induction w as [|c w IH].
  - cbn [app Staff.wsThenText takeWhile]. rewrite Hx, Hl. reflexivity.
  - simpl in Hw. apply andb_true_iff in Hw as [Hc Hw].
    change ((c :: w) ++ x :: r) with (c :: (w ++ x :: r)).
    cbn [Staff.wsThenText]. rewrite Hc, (IH Hw). reflexivity.
Qed.

Lemma NAIRA_facts :
  isWhiteSpace NAIRA = false /\ isLineTerminator NAIRA = false.
Proof. split; reflexivity. Qed.

Lemma priceChar_not_space (c : N) :
  isWhiteSpace c = true -> Spec.isPriceChar c = false.
Proof.
  intros H. unfold Spec.isPriceChar.
  destruct (isDigit c) eqn:Ed.
  - apply isDigit_not_space in Ed. congruence.
  - destruct (c =? COMMA)%N eqn:Ec; [|reflexivity].
    apply N.eqb_eq in Ec. subst c. discriminate.
Qed.

(** What the shop front's price capture accepts. *)
Lemma priceCapture_Some_iff (ptext : jsstring) :
  is_Some (App.priceCapture ptext) <-> Spec.nairaStart ptext.
Proof.
  unfold App.priceCapture, VariantRegex.afterWsChar, Spec.nairaStart.
  fold Spec.isPriceChar.
  destruct (takeWhile_dropWhile isWhiteSpace ptext) as [E Hw].
  split.
  - intros [m2 H].
    destruct (dropWhile isWhiteSpace ptext) as [|c r'] eqn:D; [discriminate|].
    destruct (c =? NAIRA)%N eqn:Ec; [|discriminate].
    apply N.eqb_eq in Ec. subst c.
    destruct r' as [|d rest]; [discriminate|]. simpl in H.
    destruct (Spec.isPriceChar d) eqn:Ed; [|discriminate].
    exists (takeWhile isWhiteSpace ptext), d, rest. auto.
  - intros (w & d & rest & -> & Hw' & Hd).
    rewrite (dropWhile_app_stop _ w NAIRA _ Hw' (proj1 NAIRA_facts)).
    rewrite N.eqb_refl. simpl. rewrite Hd. eauto.
Qed.

Lemma priceCapture_nairaDigits (w1 ds w2 : jsstring) :
  forallb isWhiteSpace w1 = true -> forallb isWhiteSpace w2 = true ->
  ds <> [] -> forallb Spec.isPriceChar ds = true ->
  App.priceCapture (w1 ++ NAIRA :: ds ++ w2) = Some (NAIRA :: ds).
Proof.
  intros H1 H2 Hne Hds.
  unfold App.priceCapture, VariantRegex.afterWsChar.
  fold Spec.isPriceChar.
  rewrite (dropWhile_app_stop _ w1 NAIRA _ H1 (proj1 NAIRA_facts)).
  rewrite N.eqb_refl.
  assert (E : takeWhile Spec.isPriceChar (ds ++ w2) = ds).
  { clear Hne. induction ds as [|d ds IH]; simpl.
    - destruct w2 as [|x w2]; [reflexivity|]. simpl in H2.
      apply andb_true_iff in H2 as [Hx _].
      simpl. rewrite (priceChar_not_space x Hx). reflexivity.
    - simpl in Hds. apply andb_true_iff in Hds as [-> Hds].
      rewrite (IH Hds). reflexivity. }
  rewrite E. destruct ds; [congruence | reflexivity].
Qed.

Lemma App_variantTail_eq (s : jsstring) :
  App.variantTail s = match VariantRegex.afterWsChar EM_DASH s with
                      | Some r => App.priceCapture r
                      | None => None
                      end.
Proof. reflexivity. Qed.

Lemma Staff_variantTail_eq (s : jsstring) :
  Staff.variantTail s = match VariantRegex.afterWsChar EM_DASH s with
                        | Some r => Staff.wsThenText r
                        | None => None
                        end.
Proof. reflexivity. Qed.

(** The staff parser keeps every plain entry with a price text. *)
Lemma Staff_variantOf_entry (name ptext : jsstring) :
  Spec.entryForm name ptext -> ptext <> [] ->
  Staff.variantOf (Spec.entry name ptext)
  = Some (Variant.mk (trim name) (trim ptext) (Spec.parsePrice ptext)).
Proof.
  intros (Hne & Hn & Hp) Hpne. destruct name as [|c n]; [congruence|].
  unfold Staff.variantOf.
  rewrite (variantMatch_entry _ _ Staff_variantTail_eq c n ptext Hn Hp).
  destruct (wsThenText_plain ptext Hpne Hp) as (w & m2 & E & D & Hw).
  rewrite E. rewrite trim_cons_trimEnd, Staff_parsePriceValue_spec.
  clear E. subst ptext. rewrite (trim_ws_app w m2 Hw).
  unfold Spec.parsePrice. rewrite filter_app, (filter_isDigit_ws w Hw).
  reflexivity.
Qed.

(** The shop front keeps a plain entry exactly when its price text
    starts with the naira sign and a digit or comma. *)
Lemma App_variantOf_entry_iff (name ptext : jsstring) :
  Spec.entryForm name ptext ->
  is_Some (App.variantOf (Spec.entry name ptext)) <-> Spec.nairaStart ptext.
Proof.
  intros (Hne & Hn & Hp). destruct name as [|c n]; [congruence|].
  unfold App.variantOf.
  rewrite (variantMatch_entry _ _ App_variantTail_eq c n ptext Hn Hp).
  rewrite <- priceCapture_Some_iff.
  destruct (App.priceCapture ptext); split; intros [x H]; eauto;
    discriminate.
Qed.

(** On the naira-and-digits price texts the two parsers agree. *)
Lemma variantOf_agree (name ptext : jsstring) :
  Spec.entryForm name ptext -> Spec.nairaDigits ptext ->
  App.variantOf (Spec.entry name ptext)
  = Staff.variantOf (Spec.entry name ptext)
  /\ is_Some (App.variantOf (Spec.entry name ptext)).
Proof.
  intros F (w1 & ds & w2 & E & H1 & H2 & Hne & Hds).
  assert (Hpne : ptext <> []) by (rewrite E; destruct w1; discriminate).
  rewrite (Staff_variantOf_entry name ptext F Hpne).
  destruct F as (Hnne & Hn & Hp). destruct name as [|c n]; [congruence|].
  unfold App.variantOf.
  rewrite (variantMatch_entry _ _ App_variantTail_eq c n ptext Hn Hp).
  subst ptext. rewrite !(priceCapture_nairaDigits w1 ds w2 H1 H2 Hne Hds).
  split; [|eexists; reflexivity]. f_equal. rewrite trim_cons_trimEnd. f_equal.
  - rewrite (trim_ws_app w1 _ H1).
    change (NAIRA :: ds ++ w2) with ((NAIRA :: ds) ++ w2).
    symmetry. apply trim_app_ws; exact H2.
  - rewrite (App_parsePriceValue_naira_digits ds Hds).
    unfold Spec.parsePrice. rewrite filter_app, (filter_isDigit_ws w1 H1).
    change (NAIRA :: ds ++ w2) with ((NAIRA :: ds) ++ w2).
    rewrite filter_app, (filter_isDigit_ws w2 H2), app_nil_r. reflexivity.
Qed.

(** C10, as amended.  The two [parseVariants] are not extensionally
    equal: on the blob [Large — $50] the staff parser yields one variant
    and the shop front none.  For every entry made of a name, its only
    em dash and a price text, all on one line (no line terminator and no
    em dash in the name or in the price text, the name not empty): the
    staff parser keeps it whenever the price text is not empty; the shop
    front keeps it exactly when the price text starts, after white
    space, with the naira sign followed by a digit or comma; and when
    the price text is the naira sign followed by digits and commas (up
    to surrounding white space) both parsers produce the same variant. *)
Theorem C10_parseVariants_not_equal_but_agree_on_naira :
  (Staff.parseVariants (Spec.entry (lit "Large ") (lit " $50"))
   = [Variant.mk (lit "Large") (lit "$50") 50]
   /\ App.parseVariants (Spec.entry (lit "Large ") (lit " $50")) = [])
  /\ (forall name ptext,
        Spec.entryForm name ptext -> ptext <> [] ->
        Staff.variantOf (Spec.entry name ptext)
        = Some (Variant.mk (trim name) (trim ptext) (Spec.parsePrice ptext)))
  /\ (forall name ptext,
        Spec.entryForm name ptext ->
        (is_Some (App.variantOf (Spec.entry name ptext))
         <-> Spec.nairaStart ptext))
  /\ (forall name ptext,
        Spec.entryForm name ptext -> Spec.nairaDigits ptext ->
        App.variantOf (Spec.entry name ptext)
        = Staff.variantOf (Spec.entry name ptext)
        /\ is_Some (App.variantOf (Spec.entry name ptext))).
Proof.
  split; [split; vm_compute; reflexivity|].
  split; [exact Staff_variantOf_entry|].
  split; [exact App_variantOf_entry_iff | exact variantOf_agree].
Qed.

End VariantParsers.

(* ===================================================================== *)
(** * Stable sorting *)
(* ===================================================================== *)

Section StableSort.
Import JS.
Context {A : Type}.
Variable k : A -> Z.

Lemma insertBy_In (gt : A -> A -> bool) (x y : A) (l : list A) :
  In y (insertBy gt x l) <-> y = x \/ In y l.
Proof.
  split; intros H.
  - apply (Permutation_in _ (insertBy_perm gt x l)) in H.
    destruct H as [<- | H]; auto.
  - apply (Permutation_in _ (Permutation_sym (insertBy_perm gt x l))).
    destruct H as [-> | H]; [left | right]; auto.
Qed.

Lemma sortBy_In (gt : A -> A -> bool) (x : A) (l : list A) :
  In x (sortBy gt l) <-> In x l.
Proof.
  split; apply Permutation_in; [|symmetry]; apply sortBy_perm.
Qed.

Lemma insertBy_sorted (gt : A -> A -> bool) (x : A) (l : list A) :
  Spec.descending k gt (x :: l) ->
  StronglySorted (fun a b => (k b <= k a)%Z) l ->
  StronglySorted (fun a b => (k b <= k a)%Z) (insertBy gt x l).
Proof.
  intros D S. induction S as [|y l S IH Hy]; simpl.
  - repeat constructor.
  - rewrite (D x y) by (simpl; auto).
    destruct (k x <? k y)%Z eqn:E.
    + apply Z.ltb_lt in E. constructor.
      * apply IH. intros a b Ha Hb. apply D; simpl in *; tauto.
      * apply Forall_forall. intros z Hz. apply insertBy_In in Hz.
        destruct Hz as [-> | Hz]; [lia|].
        rewrite Forall_forall in Hy. apply Hy; exact Hz.
    + apply Z.ltb_ge in E. constructor.
      * constructor; assumption.
      * constructor; [exact E|].
        rewrite Forall_forall in Hy |- *. intros z Hz.
        specialize (Hy z Hz). lia.
Qed.

Lemma sortBy_sorted (gt : A -> A -> bool) (l : list A) :
  Spec.descending k gt l ->
  StronglySorted (fun a b => (k b <= k a)%Z) (sortBy gt l).
Proof.
  induction l as [|x l IH]; intros D; simpl; [constructor|].
  apply insertBy_sorted.
  - intros a b Ha Hb. apply D.
    + destruct Ha as [<- | Ha]; [left; auto | right; apply sortBy_In in Ha; auto].
    + destruct Hb as [<- | Hb]; [left; auto | right; apply sortBy_In in Hb; auto].
  - apply IH. intros a b Ha Hb. apply D; right; assumption.
Qed.

Lemma insertBy_stable (gt : A -> A -> bool) (z : Z) (x : A) (l : list A) :
  Spec.descending k gt (x :: l) ->
  filter (fun a => (k a =? z)%Z) (insertBy gt x l)
  = filter (fun a => (k a =? z)%Z) (x :: l).
Proof.
  intros D. induction l as [|y l IH]; [reflexivity|].
  cbn [insertBy]. rewrite (D x y) by (simpl; auto).
  destruct (k x <? k y)%Z eqn:E; [|reflexivity].
  apply Z.ltb_lt in E. cbn [filter].
  rewrite IH by (intros a b Ha Hb; apply D; simpl in *; tauto).
  cbn [filter].
  destruct (k x =? z)%Z eqn:Ex; destruct (k y =? z)%Z eqn:Ey; try reflexivity.
  apply Z.eqb_eq in Ex, Ey. lia.
Qed.

(** The sort keeps, for every key, the elements of that key in their
    original order. *)
Lemma sortBy_stable (gt : A -> A -> bool) (z : Z) (l : list A) :
  Spec.descending k gt l ->
  filter (fun a => (k a =? z)%Z) (sortBy gt l)
  = filter (fun a => (k a =? z)%Z) l.
Proof.
  induction l as [|x l IH]; intros D; [reflexivity|].
  cbn [sortBy fold_right]. fold (sortBy gt l).
  rewrite insertBy_stable.
  - cbn [filter]. rewrite IH by (intros a b Ha Hb; apply D; right; assumption).
    reflexivity.
  - intros a b Ha Hb. apply D.
    + destruct Ha as [<- | Ha]; [left; auto | right; apply sortBy_In in Ha; auto].
    + destruct Hb as [<- | Hb]; [left; auto | right; apply sortBy_In in Hb; auto].
Qed.

End StableSort.

Section SortMap.
Import JS.
Context {A B : Type}.

(** Sorting decorated elements is sorting the elements. *)
Lemma sortBy_map (f : A -> B) (gt : B -> B -> bool) (l : list A) :
  sortBy gt (map f l) = map f (sortBy (fun x y => gt (f x) (f y)) l).
Proof.
  induction l as [|x l IH]; [reflexivity|].
  cbn [map sortBy fold_right].
  fold (sortBy gt (map f l)). fold (sortBy (fun x y => gt (f x) (f y)) l).
  rewrite IH. generalize (sortBy (fun x y => gt (f x) (f y)) l) as s.
  induction s as [|y s IHs]; [reflexivity|].
  cbn [map insertBy]. destruct (gt (f x) (f y)); cbn [map]; [|reflexivity].
  rewrite IHs. reflexivity.
Qed.

Lemma filter_map_swap (f : A -> B) (p : B -> bool) (l : list A) :
  filter p (map f l) = map f (filter (fun x => p (f x)) l).
Proof.
  induction l as [|x l IH]; [reflexivity|].
  cbn [map filter]. destruct (p (f x)); cbn [map]; rewrite IH; reflexivity.
Qed.

End SortMap.

(* ===================================================================== *)
(** * Search ranking *)
(* ===================================================================== *)

Section Ranking.
Import JS.
Variable toLowerCase : jsstring -> jsstring.

(** On the scores that can occur, the floating-point comparisons of the
    ranking are the comparisons of the exact values (checked on all
    pairs). *)
Lemma orderAgrees_scores :
  (let ks := Spec.keyed Spec.scores in
   forallb (fun x => forallb (Spec.orderAgrees x) ks) ks) = true.
Proof. vm_compute. reflexivity. Qed.

Lemma orderAgrees_at (a b : num) :
  In a Spec.scores -> In b Spec.scores ->
  gtb (sub b a) (ofZ 0) = (Spec.key a <? Spec.key b)%Z
  /\ SFleb a b = (Spec.key a <=? Spec.key b)%Z
  /\ SFeqb a b = (Spec.key a =? Spec.key b)%Z
  /\ gtb a (ofZ 0) = (0 <? Spec.key a)%Z
  /\ SFeqb a (ofZ 0) = (Spec.key a =? 0)%Z
  /\ (0 <= Spec.key a)%Z.
Proof.
  intros Ha Hb. pose proof orderAgrees_scores as H. cbv zeta in H.
  rewrite forallb_forall in H.
  specialize (H (a, Spec.key a)
                (in_map (fun a => (a, Spec.key a)) _ _ Ha)).
  rewrite forallb_forall in H.
  specialize (H (b, Spec.key b)
                (in_map (fun a => (a, Spec.key a)) _ _ Hb)).
  unfold Spec.orderAgrees in H. rewrite !andb_true_iff in H.
  destruct H as (((((H1 & H2) & H3) & H4) & H5) & H6).
  apply eqb_prop in H1, H2, H3, H4, H5. apply Z.leb_le in H6. auto 7.
Qed.

Lemma fuzzyMatch_in_weights (str pattern : jsstring) :
  In (App.fuzzyMatch toLowerCase str pattern) Spec.weights.
Proof.
  unfold Spec.weights.
  destruct (fuzzyMatch_weights toLowerCase str pattern) as [-> | [-> | ->]];
    simpl; auto.
Qed.

Lemma max_cases (x y : num) : JS.max x y = x \/ JS.max x y = y.
Proof. unfold JS.max. destruct (SFltb x y); auto. Qed.

Lemma fold_max_in (l : list num) (a : num) :
  In a Spec.weights -> (forall x, In x l -> In x Spec.weights) ->
  In (fold_left (fun max score => JS.max max score) l a) Spec.weights.
Proof.
  revert a. induction l as [|x l IH]; intros a Ha Hl; [exact Ha|].
  cbn [fold_left]. apply IH.
  - destruct (max_cases a x) as [-> | ->]; [exact Ha | apply Hl; left; auto].
  - intros y Hy. apply Hl. right. exact Hy.
Qed.

Lemma variantsMax_in_weights (searchTerm : jsstring) (p : App.Product) :
  In (App.variantsMax toLowerCase searchTerm p) Spec.weights.
Proof.
  unfold App.variantsMax. apply fold_max_in.
  - unfold Spec.weights. simpl. auto.
  - intros x Hx. apply in_map_iff in Hx as (v & <- & _).
    apply fuzzyMatch_in_weights.
Qed.

Lemma productScore_score4 (searchTerm : jsstring) (p : App.Product) :
  App.productScore toLowerCase searchTerm p
  = Spec.score4 (App.fuzzyMatch toLowerCase (App.name p) searchTerm)
                (App.fuzzyMatch toLowerCase (App.description p) searchTerm)
                (App.fuzzyMatch toLowerCase (App.category p) searchTerm)
                (App.variantsMax toLowerCase searchTerm p).
Proof. reflexivity. Qed.

Lemma score4_in_scores (a b c d : num) :
  In a Spec.weights -> In b Spec.weights -> In c Spec.weights ->
  In d Spec.weights -> In (Spec.score4 a b c d) Spec.scores.
Proof.
  intros Ha Hb Hc Hd. unfold Spec.scores.
  apply in_flat_map. exists a. split; [exact Ha|].
  apply in_flat_map. exists b. split; [exact Hb|].
  apply in_flat_map. exists c. split; [exact Hc|].
  apply in_map_iff. exists d. split; [reflexivity | exact Hd].
Qed.

Lemma productScore_in_scores (searchTerm : jsstring) (p : App.Product) :
  In (App.productScore toLowerCase searchTerm p) Spec.scores.
Proof.
  rewrite productScore_score4.
  apply score4_in_scores;
    [apply fuzzyMatch_in_weights .. | apply variantsMax_in_weights].
Qed.

(** The weights are ordered as their exact values. *)
Lemma weights_order (x y : num) :
  In x Spec.weights -> In y Spec.weights ->
  SFltb x y = (Spec.key x <? Spec.key y)%Z
  /\ SFleb x y = (Spec.key x <=? Spec.key y)%Z.
Proof.
  unfold Spec.weights. simpl.
  intros [<- | [<- | [<- | []]]] [<- | [<- | [<- | []]]];
    split; vm_compute; reflexivity.
Qed.

(** The running maximum over the variant names. *)
Lemma fold_max_spec (l : list num) (a : num) :
  In a Spec.weights -> (forall x, In x l -> In x Spec.weights) ->
  let m := fold_left (fun max score => JS.max max score) l a in
  (m = a \/ In m l)
  /\ SFleb a m = true
  /\ (forall x, In x l -> SFleb x m = true).
Proof.
  revert a. induction l as [|x l IH]; intros a Ha Hl; cbn [fold_left].
  - split; [left; reflexivity|]. split; [|intros x []].
    destruct (weights_order a a Ha Ha) as [_ ->]. apply Z.leb_le. lia.
  - assert (Hx : In x Spec.weights) by (apply Hl; left; reflexivity).
    assert (Hm : In (JS.max a x) Spec.weights)
      by (destruct (max_cases a x) as [-> | ->]; assumption).
    destruct (IH (JS.max a x) Hm (fun y Hy => Hl y (or_intror Hy)))
      as (Hin & Hle & Hall).
    set (m := fold_left _ l (JS.max a x)) in *.
    assert (Hmw : In m Spec.weights).
    { apply fold_max_in; [exact Hm | intros y Hy; apply Hl; right; exact Hy]. }
    assert (Hax : SFleb a (JS.max a x) = true /\ SFleb x (JS.max a x) = true).
    { unfold JS.max.
      destruct (weights_order a x Ha Hx) as [Hlt _]. rewrite Hlt.
      destruct (weights_order a a Ha Ha) as [_ Haa].
      destruct (weights_order x x Hx Hx) as [_ Hxx].
      destruct (weights_order a x Ha Hx) as [_ Hax].
      destruct (weights_order x a Hx Ha) as [_ Hxa].
      destruct (Spec.key a <? Spec.key x)%Z eqn:E.
      - apply Z.ltb_lt in E. rewrite Hax, Hxx. split; apply Z.leb_le; lia.
      - apply Z.ltb_ge in E. rewrite Haa, Hxa. split; apply Z.leb_le; lia. }
    assert (Htrans : forall u, In u Spec.weights ->
              SFleb u (JS.max a x) = true -> SFleb u m = true).
    { intros u Hu H.
      destruct (weights_order u (JS.max a x) Hu Hm) as [_ E1].
      destruct (weights_order (JS.max a x) m Hm Hmw) as [_ E2].
      destruct (weights_order u m Hu Hmw) as [_ E3].
      rewrite E1 in H. rewrite E2 in Hle. rewrite E3.
      apply Z.leb_le in H, Hle. apply Z.leb_le. lia. }
    split; [|split].
    + destruct Hin as [Hin | Hin]; [|right; right; exact Hin].
      rewrite Hin. destruct (max_cases a x) as [-> | ->];
        [left; reflexivity | right; left; reflexivity].
    + apply Htrans; [exact Ha | apply Hax].
    + intros y [<- | Hy]; [apply Htrans; [exact Hx | apply Hax] | apply Hall, Hy].
Qed.

Lemma variantsMax_IsMax (searchTerm : jsstring) (p : App.Product) :
  Spec.IsMax (App.variantsMax toLowerCase searchTerm p)
             (map (fun v => App.fuzzyMatch toLowerCase (Variant.name v)
                                           searchTerm)
                  (App.variants p)).
Proof.
  unfold App.variantsMax, Spec.IsMax.
  set (l := map _ (App.variants p)).
  assert (Hl : forall x, In x l -> In x Spec.weights).
  { intros x Hx. apply in_map_iff in Hx as (v & <- & _).
    apply fuzzyMatch_in_weights. }
  assert (H0 : In (ofZ 0) Spec.weights) by (unfold Spec.weights; simpl; auto).
  destruct (fold_max_spec l (ofZ 0) H0 Hl) as (Hin & Hle & Hall).
  split; [intros ->; reflexivity|]. split; [|exact Hall].
  intros Hne. destruct Hin as [E | Hin]; [|exact Hin].
  rewrite E. destruct l as [|x l']; [congruence|].
  (* the maximum is 0, and it is above the first weight, which is then 0 *)
  assert (Hx : In x Spec.weights) by (apply Hl; left; reflexivity).
  specialize (Hall x (or_introl eq_refl)). rewrite E in Hall.
  left. revert Hall. clear -Hx. unfold Spec.weights in Hx. simpl in Hx.
  destruct Hx as [<- | [<- | [<- | []]]]; vm_compute; congruence.
Qed.

Lemma StronglySorted_weaken {X : Type} (R S : X -> X -> Prop) (l : list X) :
  (forall x y, In x l -> In y l -> R x y -> S x y) ->
  StronglySorted R l -> StronglySorted S l.
Proof.
  intros H HS. induction HS as [|x l HS IH Hx]; constructor.
  - apply IH. intros a b Ha Hb. apply H; right; assumption.
  - rewrite Forall_forall in Hx |- *. intros y Hy.
    apply H; [left; reflexivity | right; exact Hy | apply Hx, Hy].
Qed.

(** The result list of a search: the products of positive score, sorted
    by the comparator of the source read on the products themselves. *)
Lemma performSearch_results (searchTerm : jsstring) (st : App.State) :
  searchTerm <> [] ->
  App.filteredProducts (App.performSearch toLowerCase searchTerm st)
  = sortBy (fun p q =>
              gtb (sub (App.productScore toLowerCase searchTerm q)
                       (App.productScore toLowerCase searchTerm p))
                  (ofZ 0))
           (filter (fun p =>
                      gtb (App.productScore toLowerCase searchTerm p) (ofZ 0))
                   (App.allProducts st)).
Proof.
  intros Hne. unfold App.performSearch.
  destruct (streq searchTerm []) eqn:E.
  { apply streq_spec in E. contradiction. }
  cbn [App.filteredProducts].
  rewrite (filter_map_swap
             (fun product =>
                (product, App.productScore toLowerCase searchTerm product))
             (fun item => gtb (snd item) (ofZ 0))).
  rewrite sortBy_map, map_map. cbn [fst snd]. rewrite map_id.
  reflexivity.
Qed.

(** A score that is smaller by the formula in exact arithmetic is
    smaller in binary64 (checked on all pairs of the scores that can
    occur). *)
Lemma exactOrderKept_scores :
  (let L := Ref.exactScores in
   forallb (fun x => forallb (Ref.exactOrderKept x) L) L) = true.
Proof. vm_compute. reflexivity. Qed.

Lemma exact20_in_exactScores (a b c d : num) :
  In a Spec.weights -> In b Spec.weights -> In c Spec.weights ->
  In d Spec.weights ->
  In (Ref.exact20 a b c d, Spec.score4 a b c d) Ref.exactScores.
Proof.
  intros Ha Hb Hc Hd. unfold Ref.exactScores.
  apply in_flat_map. exists a. split; [exact Ha|].
  apply in_flat_map. exists b. split; [exact Hb|].
  apply in_flat_map. exists c. split; [exact Hc|].
  apply in_map_iff. exists d. split; [reflexivity | exact Hd].
Qed.

Lemma exactOrder_at (searchTerm : jsstring) (p q : App.Product) :
  (Ref.exactScore20 toLowerCase searchTerm p
   < Ref.exactScore20 toLowerCase searchTerm q)%Z ->
  SFltb (App.productScore toLowerCase searchTerm p)
        (App.productScore toLowerCase searchTerm q) = true
  /\ SFleb (App.productScore toLowerCase searchTerm q)
           (App.productScore toLowerCase searchTerm p) = false.
Proof.
  intros Hlt. pose proof exactOrderKept_scores as H. cbv zeta in H.
  rewrite forallb_forall in H.
  specialize (H _ (exact20_in_exactScores _ _ _ _
                     (fuzzyMatch_in_weights (App.name p) searchTerm)
                     (fuzzyMatch_in_weights (App.description p) searchTerm)
                     (fuzzyMatch_in_weights (App.category p) searchTerm)
                     (variantsMax_in_weights searchTerm p))).
  rewrite forallb_forall in H.
  specialize (H _ (exact20_in_exactScores _ _ _ _
                     (fuzzyMatch_in_weights (App.name q) searchTerm)
                     (fuzzyMatch_in_weights (App.description q) searchTerm)
                     (fuzzyMatch_in_weights (App.category q) searchTerm)
                     (variantsMax_in_weights searchTerm q))).
  unfold Ref.exactOrderKept in H. cbn [fst snd] in H.
  fold (Ref.exactScore20 toLowerCase searchTerm p) in H.
  fold (Ref.exactScore20 toLowerCase searchTerm q) in H.
  rewrite <- !productScore_score4 in H.
  apply Z.ltb_lt in Hlt. rewrite Hlt in H. cbn [implb] in H.
  apply andb_true_iff in H as [H1 H2]. apply negb_true_iff in H2. auto.
Qed.

(** C5, as amended.  For a non-empty query: the score of a product is
    [fuzzyMatch(name) + fuzzyMatch(description)*0.7 +
    fuzzyMatch(category)*0.5 + m*0.6] evaluated in binary64 arithmetic
    as the code writes it, [m] being the maximum of [fuzzyMatch] over
    the variant names (0 without variants); the results are the
    products whose score is not 0; they are in descending order of
    their binary64 scores; and products whose binary64 scores are equal
    keep their catalogue order.  The results are also in descending
    order of the formula read in exact arithmetic, since rounding never
    reverses two scores; but two products that the exact formula ties
    can have different binary64 scores, and are then ordered by these
    and not by the catalogue. *)
Theorem C5_performSearch_ranking (searchTerm : jsstring) (st : App.State) :
  searchTerm <> [] ->
  let score := App.productScore toLowerCase searchTerm in
  let weight := fun s => App.fuzzyMatch toLowerCase s searchTerm in
  let scored :=
    filter (fun p => negb (SFeqb (score p) (ofZ 0))) (App.allProducts st) in
  let results :=
    App.filteredProducts (App.performSearch toLowerCase searchTerm st) in
  (forall p,
      exists m,
        Spec.IsMax m (map (fun v => weight (Variant.name v)) (App.variants p))
        /\ score p
           = add (add (add (weight (App.name p))
                           (mul (weight (App.description p)) (decimal 7 10)))
                      (mul (weight (App.category p)) (decimal 5 10)))
                 (mul m (decimal 6 10)))
  /\ Permutation results scored
  /\ StronglySorted (fun p q => SFleb (score q) (score p) = true) results
  /\ (forall q,
        filter (fun p => SFeqb (score p) (score q)) results
        = filter (fun p => SFeqb (score p) (score q)) scored)
  /\ StronglySorted
       (fun p q => (Ref.exactScore20 toLowerCase searchTerm q
                    <= Ref.exactScore20 toLowerCase searchTerm p)%Z)
       results.
Proof.
  intros Hne score weight scored results.
  assert (Hin : forall p, In (score p) Spec.scores)
    by (intros p; apply productScore_in_scores).
  assert (Hscored : scored
                    = filter (fun p => gtb (score p) (ofZ 0))
                             (App.allProducts st)).
  { unfold scored. apply filter_ext. intros p.
    destruct (orderAgrees_at _ _ (Hin p) (Hin p))
      as (_ & _ & _ & -> & -> & Hk).
    destruct (Spec.key (score p) =? 0)%Z eqn:E; simpl.
    - apply Z.eqb_eq in E. symmetry. apply Z.ltb_ge. lia.
    - apply Z.eqb_neq in E. symmetry. apply Z.ltb_lt. lia. }
  assert (Hres : results
                 = sortBy (fun p q => gtb (sub (score q) (score p)) (ofZ 0))
                          scored).
  { unfold results. rewrite performSearch_results by exact Hne.
    rewrite Hscored. reflexivity. }
  assert (D : Spec.descending (fun p => Spec.key (score p))
                (fun p q => gtb (sub (score q) (score p)) (ofZ 0)) scored).
  { intros p q _ _. apply (orderAgrees_at _ _ (Hin p) (Hin q)). }
  assert (HS : StronglySorted (fun p q => SFleb (score q) (score p) = true)
                              results).
  { rewrite Hres.
    apply (StronglySorted_weaken
             (fun p q => (Spec.key (score q) <= Spec.key (score p))%Z)).
    + intros p q _ _ H.
      destruct (orderAgrees_at _ _ (Hin q) (Hin p)) as (_ & -> & _).
      apply Z.leb_le. exact H.
    + apply sortBy_sorted. exact D. }
  split; [|split; [|split; [|split]]].
  - intros p. exists (App.variantsMax toLowerCase searchTerm p).
    split; [apply variantsMax_IsMax | reflexivity].
  - rewrite Hres. apply sortBy_perm.
  - exact HS.
  - intros q. rewrite Hres.
    assert (Hext : forall l : list App.Product,
      filter (fun p => SFeqb (score p) (score q)) l
      = filter (fun p => (Spec.key (score p) =? Spec.key (score q))%Z) l).
    { intros l. apply filter_ext. intros p.
      apply (orderAgrees_at _ _ (Hin p) (Hin q)). }
    rewrite !Hext. apply sortBy_stable. exact D.
  - revert HS. apply StronglySorted_weaken. intros p q _ _ H.
    destruct (Z.le_gt_cases (Ref.exactScore20 toLowerCase searchTerm q)
                            (Ref.exactScore20 toLowerCase searchTerm p))
      as [L | L]; [exact L|].
    destruct (exactOrder_at searchTerm p q L) as [_ F].
    unfold score in H. rewrite F in H. discriminate.
Qed.

(** ** Composition of search, filter tags and category tags *)

Lemma filter_incl_self {X : Type} (f : X -> bool) (l : list X) :
  incl (filter f l) l.
Proof. intros x Hx. apply filter_In in Hx. tauto. Qed.

(** C2, as amended.  A filter tag other than [all] keeps, of the list
    the search has just produced, the products that satisfy the tag's
    predicate, and the tag [all] keeps that list; with an empty search
    text the filter is applied to the full catalogue, whatever the
    current list is.  A category tag is always applied to the full
    catalogue: its result does not depend on the current list, hence not
    on any search. *)
Theorem C2_filter_composes_category_resets :
  (forall (activeFilter searchInput : jsstring) (st : App.State),
      let searchTerm := trim (toLowerCase searchInput) in
      let searched := App.performSearch toLowerCase searchTerm st in
      let shown :=
        App.filteredProducts
          (App.applyCurrentFilters toLowerCase activeFilter searchInput
                                   searched) in
      searchTerm <> [] ->
      (activeFilter <> lit "all" ->
       shown = filter (App.filterPredicate activeFilter)
                      (App.filteredProducts searched))
      /\ (activeFilter = lit "all" -> shown = App.filteredProducts searched)
      /\ incl shown (App.filteredProducts searched))
  /\ (forall (activeFilter searchInput : jsstring) (st : App.State),
        let shown :=
          App.filteredProducts
            (App.applyCurrentFilters toLowerCase activeFilter searchInput st)
        in
        trim (toLowerCase searchInput) = [] ->
        (activeFilter <> lit "all" ->
         shown = filter (App.filterPredicate activeFilter)
                        (App.allProducts st))
        /\ (activeFilter = lit "all" -> shown = App.allProducts st))
  /\ (forall (category : jsstring) (st : App.State),
        let shown :=
          App.filteredProducts (App.filterByCategory toLowerCase category st)
        in
        (category <> lit "trending" ->
         shown = filter (App.categoryPredicate toLowerCase category)
                        (App.allProducts st))
        /\ (category = lit "trending" ->
            shown
            = firstn 50
                (filter (fun p => (40000 <? App.priceValue p)%Z
                                  && (App.priceValue p <? 100000)%Z)
                        (App.allProducts st)))
        /\ forall st', App.allProducts st' = App.allProducts st ->
             App.filteredProducts
               (App.filterByCategory toLowerCase category st')
             = shown).
Proof.
  split; [|split].
  - intros activeFilter searchInput st searchTerm searched shown Hne.
    subst shown. unfold App.applyCurrentFilters. fold searchTerm.
    destruct (streq searchTerm []) eqn:E.
    { apply streq_spec in E. contradiction. }
    cbn [App.filteredProducts].
    destruct (streq activeFilter (lit "all")) eqn:F; cbn [negb].
    + apply streq_spec in F. split; [intros H; contradiction|].
      split; [reflexivity | apply incl_refl].
    + split; [reflexivity|]. split; [|apply filter_incl_self].
      intros H. apply streq_spec in H. congruence.
  - intros activeFilter searchInput st shown Hempty.
    subst shown. unfold App.applyCurrentFilters. rewrite Hempty.
    cbn [streq App.filteredProducts].
    destruct (streq activeFilter (lit "all")) eqn:F; cbn [negb].
    + apply streq_spec in F. split; [intros H; contradiction | reflexivity].
    + split; [reflexivity|]. intros H. apply streq_spec in H. congruence.
  - intros category st shown. subst shown. unfold App.filterByCategory.
    destruct (streq category (lit "trending")) eqn:T;
      cbn [App.filteredProducts App.allProducts].
    + apply streq_spec in T. split; [intros H; contradiction|].
      split; [reflexivity|]. intros st' ->. reflexivity.
    + split; [reflexivity|]. split.
      * intros H. apply streq_spec in H. congruence.
      * intros st' ->. reflexivity.
Qed.

End Ranking.

(* ===================================================================== *)
(** * The theorems at concrete inputs *)
(* ===================================================================== *)

Section Instances.
Import JS.

(** C2, counterexample.  With the search text [rose] the result list
    holds the two rose products; the category tag [jewelry] then shows
    the gold ring, which the search had excluded: the category is
    applied to the full catalogue and not to the search results. *)
Lemma C2_category_ignores_search :
  let searched := App.performSearch asciiLower (lit "rose") Example.shop in
  let shown :=
    App.filteredProducts
      (App.filterByCategory asciiLower (lit "jewelry") searched) in
  App.filteredProducts searched = [Example.roseBouquet; Example.roseSoap]
  /\ shown = [Example.goldRing]
  /\ ~ incl shown (App.filteredProducts searched).
Proof.
  assert (E1 : App.filteredProducts
                 (App.performSearch asciiLower (lit "rose") Example.shop)
               = [Example.roseBouquet; Example.roseSoap])
    by (vm_compute; reflexivity).
  assert (E2 : App.filteredProducts
                 (App.filterByCategory asciiLower (lit "jewelry")
                    (App.performSearch asciiLower (lit "rose") Example.shop))
               = [Example.goldRing])
    by (vm_compute; reflexivity).
  cbv zeta. rewrite E1, E2. repeat split.
  intros H. specialize (H Example.goldRing (or_introl eq_refl)).
  destruct H as [H | [H | []]]; vm_compute in H; discriminate.
Qed.

(** C5, counterexample.  For the query [oe] the formula gives the ring
    (whose description holds the query: 2 * 0.7) and the phone (a
    subsequence match in the name, the description, the category and
    the option: 0.5 + 0.35 + 0.25 + 0.3) the same score, 1.4, that is 28
    twentieths.  The ring comes first in the catalogue, so equal scores
    keeping catalogue order would list it first; in binary64 the sum of
    the phone is one unit in the last place above the product 2 * 0.7,
    and the search lists the phone first. *)
Lemma C5_exact_tie_ranked_apart :
  let catalogue := [Sample.shoeRing; Sample.phone] in
  let score := App.productScore asciiLower (lit "oe") in
  Ref.exactScore20 asciiLower (lit "oe") Sample.shoeRing = 28%Z
  /\ Ref.exactScore20 asciiLower (lit "oe") Sample.phone = 28%Z
  /\ score Sample.shoeRing = S754_finite false 6305039478318694 (-52)
  /\ score Sample.phone = S754_finite false 6305039478318695 (-52)
  /\ SFltb (score Sample.shoeRing) (score Sample.phone) = true
  /\ App.filteredProducts
       (App.performSearch asciiLower (lit "oe") (Example.loaded catalogue))
     = [Sample.phone; Sample.shoeRing].
Proof. cbv zeta. repeat split; vm_compute; reflexivity. Qed.

(** C5 at the search text [rose]: the bouquet (name match) comes before
    the soap (description match), and the ring is left out. *)
Lemma C5_witness :
  lit "rose" <> []
  /\ StronglySorted
       (fun p q =>
          SFleb (App.productScore asciiLower (lit "rose") q)
                (App.productScore asciiLower (lit "rose") p) = true)
       (App.filteredProducts
          (App.performSearch asciiLower (lit "rose") Example.shop)).
Proof.
  assert (H : lit "rose" <> []) by discriminate.
  split; [exact H|].
  exact (proj1 (proj2 (proj2
           (C5_performSearch_ranking asciiLower (lit "rose") Example.shop H)))).
Defined.

(** C9 at two feeds: one whose header has no same-day column, one whose
    seventh column is the same-day column. *)
Lemma C9_witness :
  asciiLower [] = []
  /\ ((forall p, In p (App.parseCSV asciiLower Example.feedWithoutColumn) ->
                 App.sameDay p = false)
      /\ (forall p,
             In p (Staff.parseCSV asciiLower Example.feedWithoutColumn) ->
             Staff.sameDay p = false))
  /\ (forall p, In p (App.parseCSV asciiLower Example.feedWithColumn) ->
        exists row,
          In row (Spec.dataRows Example.feedWithColumn)
          /\ (exists n, App.rowRecord asciiLower (Some 6%nat) n row = Some p)
          /\ (App.sameDay p = true <->
              exists cell,
                nth_error (Spec.cleanFields row) 6 = Some cell
                /\ asciiLower cell = lit "true")).
Proof.
  split; [reflexivity|]. split.
  - apply (C9_sameDay_only_from_header_column asciiLower
             Example.feedWithoutColumn eq_refl).
    intros h Hh. vm_compute in Hh.
    repeat (destruct Hh as [<- | Hh]; [vm_compute; discriminate|]).
    destruct Hh.
  - apply (C9_sameDay_only_from_header_column asciiLower
             Example.feedWithColumn eq_refl).
    apply sameDayColumn_Some. vm_compute. reflexivity.
Defined.

(** The flags the two feeds produce. *)
Example sameDay_of_the_two_feeds :
  map App.sameDay (App.parseCSV asciiLower Example.feedWithoutColumn)
  = [false; false]
  /\ map App.sameDay (App.parseCSV asciiLower Example.feedWithColumn)
     = [true; false]
  /\ map Staff.sameDay (Staff.parseCSV asciiLower Example.feedWithColumn)
     = [true; false].
Proof. repeat split; vm_compute; reflexivity. Qed.

(** C8 at a catalogue of ten plain items followed by the two pinned
    products: the second pinned product lands at index 11. *)
Lemma C8_witness :
  exists first second,
    App.productId first = Spec.pinnedFirst
    /\ App.productId second = Spec.pinnedSecond
    /\ nth_error (App.prioritizeProducts asciiLower Example.twelve) 0
       = Some first
    /\ nth_error (App.prioritizeProducts asciiLower Example.twelve) 11
       = Some second.
Proof.
  assert (O1 : Spec.occurs Spec.pinnedFirst Example.twelve).
  { exists Example.pinnedA. split; [|reflexivity].
    unfold Example.twelve. apply in_or_app. right. simpl. auto. }
  assert (O2 : Spec.occurs Spec.pinnedSecond Example.twelve).
  { exists Example.pinnedB. split; [|reflexivity].
    unfold Example.twelve. apply in_or_app. right. simpl. auto. }
  destruct (C8_prioritizeProducts_layout asciiLower Example.twelve)
    as (front & back & HP & Hboth & _).
  cbv zeta in Hboth.
  destruct (Hboth O1 O2)
    as (first & second & _ & I1 & _ & I2 & _ & N0 & _ & N11).
  exists first, second.
  split; [exact I1|]. split; [exact I2|]. split; [exact N0|].
  apply N11. rewrite (StablePartition_length _ _ _ _ HP).
  vm_compute. lia.
Defined.

(** The keyword matches are moved ahead of the other products: the
    bouquet ([rose], [bouquet]) and the ring ([ring]) come first, each
    group in catalogue order. *)
Example prioritize_moves_keyword_matches_ahead :
  App.prioritizeProducts asciiLower
    [Example.plainItem 1; Example.roseBouquet; Example.plainItem 2;
     Example.goldRing]
  = [Example.roseBouquet; Example.goldRing; Example.plainItem 1;
     Example.plainItem 2].
Proof. vm_compute. reflexivity. Qed.

(** C4 at the field [abc] and the query [ac]: no substring, no word
    prefix, a short query and a subsequence, hence 0.5. *)
Lemma C4_witness :
  App.fuzzyMatch asciiLower (lit "abc") (lit "ac") = decimal 5 10.
Proof.
  apply (C4_fuzzyMatch_staged asciiLower (lit "abc") (lit "ac")).
  - intros H. apply includes_spec in H. vm_compute in H. discriminate.
  - intros H. apply existsb_startsWith_spec in H. vm_compute in H.
    discriminate.
  - vm_compute. lia.
  - apply (subsequenceScan_spec (lit "abc") (lit "ac") 0); vm_compute;
      [lia | reflexivity].
Defined.

(** C10 at the entry [Large — ₦5,000] (with white space around the
    price): both parsers keep it and build the same variant. *)
Lemma C10_witness :
  App.variantOf (Spec.entry (lit "Large ") (SPACE :: NAIRA :: lit "5,000 "))
  = Staff.variantOf
      (Spec.entry (lit "Large ") (SPACE :: NAIRA :: lit "5,000 "))
  /\ App.variantOf
       (Spec.entry (lit "Large ") (SPACE :: NAIRA :: lit "5,000 "))
     = Some (Variant.mk (lit "Large") (NAIRA :: lit "5,000") 5000).
Proof.
  split; [|vm_compute; reflexivity].
  apply (proj2 (proj2 (proj2 C10_parseVariants_not_equal_but_agree_on_naira))).
  - repeat split; [discriminate | vm_compute; reflexivity ..].
  - exists [SPACE], (lit "5,000"), [SPACE].
    repeat split; try (vm_compute; reflexivity). discriminate.
Defined.

(** C10, counterexample.  The entry [Mug — 11oz — ₦5,000] has two em
    dashes.  Cut at the first one, its price text does not start with the
    naira sign, yet the shop front keeps the entry (its pattern moves on
    to the second dash).  Cut at the second one, its price text is the
    naira sign followed by digits and commas, yet the two parsers build
    different variants: the staff pattern stops at the first dash and
    reads the price 115000 out of [11oz — ₦5,000].  Besides, a price text
    made of a line feed is not empty and is refused by the staff parser,
    since [.] refuses line terminators. *)
Lemma C10_entry_with_two_dashes :
  let e := lit "Mug " ++ [EM_DASH] ++ lit " 11oz "
           ++ [EM_DASH; SPACE; NAIRA] ++ lit "5,000" in
  let afterFirst := lit " 11oz " ++ [EM_DASH; SPACE; NAIRA] ++ lit "5,000" in
  let afterSecond := SPACE :: NAIRA :: lit "5,000" in
  (e = Spec.entry (lit "Mug ") afterFirst
   /\ ~ Spec.nairaStart afterFirst
   /\ App.variantOf e
      = Some (Variant.mk (lit "Mug " ++ [EM_DASH] ++ lit " 11oz")
                         (NAIRA :: lit "5,000") 5000))
  /\ (e = Spec.entry (lit "Mug " ++ [EM_DASH] ++ lit " 11oz ") afterSecond
      /\ Spec.nairaDigits afterSecond
      /\ Staff.variantOf e
         = Some (Variant.mk (lit "Mug")
                            (lit "11oz " ++ [EM_DASH; SPACE; NAIRA]
                             ++ lit "5,000") 115000)
      /\ App.variantOf e <> Staff.variantOf e)
  /\ ([LF] <> []
      /\ Staff.variantOf (Spec.entry (lit "Large") [LF]) = None).
Proof.
  cbv zeta. split; [|split].
  - split; [reflexivity|]. split; [|vm_compute; reflexivity].
    intros H. apply priceCapture_Some_iff in H. vm_compute in H.
    destruct H as [x H]. discriminate.
  - split; [reflexivity|]. split; [|split].
    + exists [SPACE], (lit "5,000"), [].
      repeat split; try (vm_compute; reflexivity). discriminate.
    + vm_compute. reflexivity.
    + vm_compute. discriminate.
  - split; [discriminate | vm_compute; reflexivity].
Qed.

End Instances.

(* ===================================================================== *)
(** * More on the feed parsers *)
(* ===================================================================== *)

Section CsvMore.
Import JS.
Variable toLowerCase : jsstring -> jsstring.

Lemma App_rowRecord_id (idx : option nat) (n : nat) (row : jsstring)
      (p : App.Product) :
  App.rowRecord toLowerCase idx n row = Some p -> App.id p = n.
Proof.
  unfold App.rowRecord.
  destruct (_ && _); [|discriminate].
  destruct (App.resolvePrice _ _) as [dp dv].
  destruct (negb (truthy dp)); [discriminate|].
  intros H. injection H as <-. reflexivity.
Qed.

Lemma App_parseRows_ids (idx : option nat) (rows : list jsstring) (n : nat) :
  map App.id (App.parseRows toLowerCase idx rows n)
  = seq n (length (App.parseRows toLowerCase idx rows n)).
Proof.
  revert n. induction rows as [|row rows IH]; intros n; [reflexivity|].
  cbn [App.parseRows].
  destruct (App.rowRecord toLowerCase idx n row) as [p|] eqn:E; [|apply IH].
  cbn [map length seq]. rewrite (App_rowRecord_id _ _ _ _ E), IH.
  reflexivity.
Qed.

(** X1.  The products of a feed are numbered 1, 2, 3, ... in feed order: a
    skipped row does not use up a number, so the numbers are pairwise
    distinct. *)
Theorem X1_parseCSV_ids_consecutive (text : jsstring) :
  let products := App.parseCSV toLowerCase text in
  map App.id products = seq 1 (length products)
  /\ NoDup (map App.id products).
Proof.
  intros products. subst products. unfold App.parseCSV.
  rewrite App_parseRows_ids. split; [reflexivity | apply seq_NoDup].
Qed.

End CsvMore.

Section SortHead.
Import JS.
Context {A : Type}.
Variable k : A -> Z.

(** The head of a sorted list is the first element of greatest key. *)
Lemma sortBy_head (gt : A -> A -> bool) (l : list A) (v : A) (rest : list A) :
  (forall x y, gt x y = (k x <? k y)%Z) ->
  sortBy gt l = v :: rest ->
  exists pre post,
    l = pre ++ v :: post
    /\ (forall w, In w pre -> (k w < k v)%Z)
    /\ (forall w, In w post -> (k w <= k v)%Z).
Proof.
  intros D. revert v rest.
  induction l as [|x l IH]; intros v rest H; [discriminate|].
  cbn [sortBy fold_right] in H. fold (sortBy gt l) in H.
  destruct (sortBy gt l) as [|y s] eqn:E.
  - assert (l = []) as ->.
    { destruct l as [|z l']; [reflexivity|].
      assert (Hz : In z (sortBy gt (z :: l')))
        by (apply sortBy_In; left; reflexivity).
      rewrite E in Hz. destruct Hz. }
    simpl in H. injection H as <- <-.
    exists [], []. repeat split; intros w [].
  - destruct (IH y s eq_refl) as (pre & post & -> & Hpre & Hpost).
    cbn [insertBy] in H. rewrite D in H.
    destruct (k x <? k y)%Z eqn:L.
    + apply Z.ltb_lt in L. injection H as <- <-.
      exists (x :: pre), post. repeat split; auto.
      intros w [<- | Hw]; auto.
    + apply Z.ltb_ge in L. injection H as <- <-.
      exists [], (pre ++ y :: post). repeat split; [intros w []|].
      intros w Hw. apply in_app_or in Hw as [Hw | [<- | Hw]].
      * specialize (Hpre w Hw). lia.
      * exact L.
      * specialize (Hpost w Hw). lia.
Qed.

End SortHead.

Section Cheapest.
Import JS.

Lemma dearer_key (a b : Variant.t) :
  App.dearer a b
  = (- Variant.priceValue a <? - Variant.priceValue b)%Z.
Proof.
  unfold App.dearer.
  destruct (0 <? _)%Z eqn:E; symmetry;
    [apply Z.ltb_lt; apply Z.ltb_lt in E | apply Z.ltb_ge; apply Z.ltb_ge in E];
    lia.
Qed.

(** X2.  When the price cell of a row is blank and the row has variants,
    the display price and its value are those of the cheapest variant,
    and of the first of the cheapest ones in the order of the cell: every
    variant before it is strictly dearer, none after it is cheaper.  The
    shop front and the staff page resolve the price alike. *)
Theorem X2_resolvePrice_cheapest_variant
        (finalPrice : option jsstring) (variants : list Variant.t) :
  trim (orEmpty finalPrice) = [] -> variants <> [] ->
  exists pre v post,
    variants = pre ++ v :: post
    /\ (forall w, In w pre -> (Variant.priceValue v < Variant.priceValue w)%Z)
    /\ (forall w, In w post ->
                  (Variant.priceValue v <= Variant.priceValue w)%Z)
    /\ App.resolvePrice finalPrice variants
       = (Variant.price v, Variant.priceValue v)
    /\ Staff.resolvePrice finalPrice variants
       = (Variant.price v, Variant.priceValue v).
Proof.
  intros Hp Hv.
  destruct (sortBy App.dearer variants) as [|v rest] eqn:E.
  { destruct variants as [|z l']; [congruence|].
    assert (Hz : In z (sortBy App.dearer (z :: l')))
      by (apply sortBy_In; left; reflexivity).
    rewrite E in Hz. destruct Hz. }
  destruct (sortBy_head (fun v => (- Variant.priceValue v)%Z)
                        App.dearer variants v rest dearer_key E)
    as (pre & post & Hl & Hpre & Hpost).
  exists pre, v, post. split; [exact Hl|].
  split; [intros w Hw; specialize (Hpre w Hw); lia|].
  split; [intros w Hw; specialize (Hpost w Hw); lia|].
  unfold App.resolvePrice, Staff.resolvePrice. rewrite Hp, E.
  destruct variants; [congruence|]. split; reflexivity.
Qed.

End Cheapest.

Section RowsMore.
Import JS.

Lemma split_nonempty (sep : N) (s : jsstring) : split sep s <> [].
Proof.
  destruct s as [|c s]; [discriminate|]. cbn [split].
  destruct (c =? sep)%N; [discriminate|].
  destruct (split sep s); discriminate.
Qed.

Lemma split_continue (sep c : N) (s : jsstring) :
  (c =? sep)%N = false ->
  split sep (c :: s) = Ref.continue [c] (split sep s).
Proof.
  intros H. cbn [split]. rewrite H.
  destruct (split sep s); reflexivity.
Qed.

Lemma continue_continue (a b : jsstring) (l : list jsstring) :
  Ref.continue a (Ref.continue b l) = Ref.continue (a ++ b) l.
Proof. destruct l; simpl; rewrite <- ?app_assoc; reflexivity. Qed.

Lemma parseCSVRowFrom_noQuote (row : jsstring) (fields : list jsstring)
      (cur : jsstring) :
  Ref.noQuote row ->
  App.parseCSVRowFrom row fields cur false
  = fields ++ map trim (Ref.continue cur (split COMMA row)).
Proof.
  unfold Ref.noQuote. revert fields cur.
  induction row as [|c row IH]; intros fields cur H.
  - simpl. rewrite app_nil_r. reflexivity.
  - cbn [forallb] in H. apply andb_true_iff in H as [Hc Hrow].
    apply negb_true_iff in Hc. cbn [App.parseCSVRowFrom]. rewrite Hc.
    destruct (c =? COMMA)%N eqn:E; cbn [andb negb].
    + rewrite IH by exact Hrow. cbn [split]. rewrite E.
      cbn [Ref.continue map]. rewrite app_nil_r, <- app_assoc.
      pose proof (split_nonempty COMMA row) as Hne.
      destruct (split COMMA row); [congruence | reflexivity].
    + rewrite IH by exact Hrow.
      rewrite (split_continue _ _ _ E), continue_continue. reflexivity.
Qed.

Lemma parseCSVRowFrom_trimmed (row : jsstring) (fields : list jsstring)
      (cur : jsstring) (q : bool) :
  Forall (fun f => trim f = f) fields ->
  Forall (fun f => trim f = f) (App.parseCSVRowFrom row fields cur q)
  /\ (length fields < length (App.parseCSVRowFrom row fields cur q))%nat.
Proof.
  remember (length row) as n eqn:Hn.
  assert (Hle : (length row <= n)%nat) by lia. clear Hn.
  revert row Hle fields cur q.
  induction n as [|n IH]; intros row Hle fields cur q HF.
  - destruct row; [|simpl in Hle; lia]. simpl. split.
    + apply Forall_app. split; [exact HF|].
      constructor; [apply trim_idem | constructor].
    + rewrite length_app. simpl. lia.
  - destruct row as [|c row].
    { simpl. split.
      + apply Forall_app. split; [exact HF|].
        constructor; [apply trim_idem | constructor].
      + rewrite length_app. simpl. lia. }
    simpl in Hle. cbn [App.parseCSVRowFrom].
    destruct (c =? QUOTE)%N.
    + destruct row as [|d row].
      * apply IH; [simpl; lia | exact HF].
      * destruct (d =? QUOTE)%N; apply IH; simpl in *; try lia; exact HF.
    + destruct ((c =? COMMA)%N && negb q).
      * destruct (IH row ltac:(lia) (fields ++ [trim cur]) [] q) as [H1 H2].
        { apply Forall_app. split; [exact HF|].
          constructor; [apply trim_idem | constructor]. }
        split; [exact H1|]. rewrite length_app in H2. simpl in H2. lia.
      * apply IH; [lia | exact HF].
Qed.

(** X3.  On a row that holds no quote character, [parseCSVRow] is the
    split at the commas followed by the trimming of every piece. *)
Theorem X3_parseCSVRow_without_quotes (row : jsstring) :
  Ref.noQuote row ->
  App.parseCSVRow row = map trim (split COMMA row).
Proof.
  intros H. unfold App.parseCSVRow.
  rewrite (parseCSVRowFrom_noQuote row [] [] H). simpl.
  pose proof (split_nonempty COMMA row) as Hne.
  destruct (split COMMA row); [congruence | reflexivity].
Qed.

(** X4.  Whatever the row, quotes included, every field that
    [parseCSVRow] returns is trimmed, and there is at least one field. *)
Theorem X4_parseCSVRow_fields_trimmed (row : jsstring) :
  Forall (fun f => trim f = f) (App.parseCSVRow row)
  /\ App.parseCSVRow row <> [].
Proof.
  destruct (parseCSVRowFrom_trimmed row [] [] false (Forall_nil _))
    as [H1 H2].
  split; [exact H1|]. unfold App.parseCSVRow.
  destruct (App.parseCSVRowFrom row [] [] false); simpl in H2; [lia|].
  discriminate.
Qed.


Lemma pushRow_filter (rows : list jsstring) (cur : jsstring) :
  App.pushRow rows cur = rows ++ filter Ref.nonBlank [cur].
Proof.
  unfold App.pushRow, Ref.nonBlank. cbn [filter].
  destruct (truthy (trim cur)); [reflexivity | rewrite app_nil_r; reflexivity].
Qed.

Lemma continue_nil (l : list jsstring) : l <> [] -> Ref.continue [] l = l.
Proof. destruct l; [congruence | reflexivity]. Qed.

Lemma splitRowsFrom_noQuote (n : nat) (text : jsstring) :
  (length text <= n)%nat -> Ref.noQuote text ->
  forall (rows : list jsstring) (cur : jsstring),
    App.splitRowsFrom text rows cur false
    = rows ++ filter Ref.nonBlank
                     (Ref.continue cur (split LF (Ref.crlfToLf text))).
Proof.
  unfold Ref.noQuote. revert text.
  induction n as [|n IH]; intros text Hle HQ rows cur.
  { destruct text; [|simpl in Hle; lia].
    cbn [App.splitRowsFrom Ref.crlfToLf split Ref.continue].
    rewrite app_nil_r. apply pushRow_filter. }
  destruct text as [|c rest].
  { cbn [App.splitRowsFrom Ref.crlfToLf split Ref.continue].
    rewrite app_nil_r. apply pushRow_filter. }
  simpl in Hle. cbn [forallb] in HQ. apply andb_true_iff in HQ as [Hc HQ].
  apply negb_true_iff in Hc. cbn [App.splitRowsFrom]. rewrite Hc.
  assert (Hline : forall tail : jsstring,
             (length tail <= n)%nat ->
             forallb (fun c => negb (c =? QUOTE)%N) tail = true ->
             App.splitRowsFrom tail (App.pushRow rows cur) [] false
             = rows ++ filter Ref.nonBlank
                 (Ref.continue cur ([] :: split LF (Ref.crlfToLf tail)))).
  { intros tail Ht Hq. rewrite (IH tail Ht Hq), pushRow_filter.
    rewrite continue_nil by apply split_nonempty.
    cbn [Ref.continue]. rewrite app_nil_r, <- app_assoc.
    cbn [filter]. destruct (Ref.nonBlank cur); reflexivity. }
  destruct (c =? LF)%N eqn:ELF; cbn [andb negb].
  { apply N.eqb_eq in ELF. subst c.
    rewrite Hline by (try lia; exact HQ). reflexivity. }
  destruct rest as [|d rest'].
  { cbn [App.splitRowsFrom Ref.crlfToLf]. rewrite andb_false_r.
    rewrite (split_continue _ _ _ ELF). cbn [split Ref.continue].
    rewrite app_nil_r. apply pushRow_filter. }
  cbn [negb]. rewrite andb_true_r.
  destruct ((c =? CR)%N && (d =? LF)%N) eqn:ECR.
  - apply andb_true_iff in ECR as [Ec Ed].
    apply N.eqb_eq in Ec, Ed. subst c d.
    cbn [forallb] in HQ. apply andb_true_iff in HQ as [_ HQ].
    simpl in Hle. rewrite Hline by (try lia; exact HQ). reflexivity.
  - rewrite (IH (d :: rest') ltac:(lia) HQ).
    change (Ref.crlfToLf (c :: d :: rest'))
      with (if (c =? CR)%N && (d =? LF)%N
            then Ref.crlfToLf (d :: rest')
            else c :: Ref.crlfToLf (d :: rest')).
    rewrite ECR, (split_continue _ _ _ ELF), continue_continue.
    reflexivity.
Qed.

(** X5.  On a text that holds no quote character, the rows of
    [parseCSV] are the non-blank lines of the text, a line ending
    either with a line feed or with a carriage return followed by a line
    feed; a carriage return that is not followed by a line feed stays
    in its row. *)
Theorem X5_splitRows_without_quotes (text : jsstring) :
  Ref.noQuote text ->
  App.splitRows text
  = filter Ref.nonBlank (split LF (Ref.crlfToLf text)).
Proof.
  intros H. unfold App.splitRows.
  rewrite (splitRowsFrom_noQuote (length text) text (Nat.le_refl _) H).
  rewrite continue_nil by apply split_nonempty. reflexivity.
Qed.

Lemma splitRowsFrom_nonBlank (text : jsstring) (rows : list jsstring)
      (cur : jsstring) (q : bool) (n : nat) :
  (length text <= n)%nat ->
  Forall (fun r => trim r <> []) rows ->
  Forall (fun r => trim r <> []) (App.splitRowsFrom text rows cur q).
Proof.
  assert (Hpush : forall rows cur,
             Forall (fun r => trim r <> []) rows ->
             Forall (fun r => trim r <> []) (App.pushRow rows cur)).
  { intros rows' cur' H. unfold App.pushRow.
    destruct (truthy (trim cur')) eqn:E; [|exact H].
    apply Forall_app. split; [exact H|].
    constructor; [apply truthy_spec; exact E | constructor]. }
  revert text rows cur q.
  induction n as [|n IH]; intros text rows cur q Hle HF.
  { destruct text; [|simpl in Hle; lia]. apply Hpush, HF. }
  destruct text as [|c rest]; [apply Hpush, HF|].
  simpl in Hle. cbn [App.splitRowsFrom].
  destruct (c =? QUOTE)%N; [apply IH; [lia | exact HF]|].
  destruct ((c =? LF)%N && negb q); [apply IH; [lia | apply Hpush, HF]|].
  destruct rest as [|d rest']; [apply IH; [simpl; lia | exact HF]|].
  destruct ((c =? CR)%N && (d =? LF)%N && negb q).
  - apply IH; [simpl in Hle; lia | apply Hpush, HF].
  - apply IH; [lia | exact HF].
Qed.

(** X6.  Whatever the text, no row that the row splitter of [parseCSV]
    returns is blank: the header is the first non-blank row. *)
Theorem X6_splitRows_no_blank_row (text : jsstring) :
  Forall (fun row => trim row <> []) (App.splitRows text).
Proof.
  apply (splitRowsFrom_nonBlank text [] [] false (length text));
    [apply Nat.le_refl | constructor].
Qed.

End RowsMore.

Section MorePrices.
Import JS.

Lemma filter_digits_only (s : jsstring) :
  forallb (fun c => isDigit c || (c =? COMMA)%N || (c =? NAIRA)%N) s = true ->
  filter (fun c => negb ((c =? NAIRA) || (c =? COMMA))%N) s
  = filter isDigit s.
Proof.
  induction s as [|c s IH]; [reflexivity|].
  cbn [forallb filter]. intros H. apply andb_true_iff in H as [Hc Hs].
  rewrite (IH Hs). destruct (isDigit c) eqn:D.
  - assert ((c =? NAIRA)%N = false /\ (c =? COMMA)%N = false) as [-> ->].
    { unfold isDigit in D. apply andb_true_iff in D.
      rewrite !N.leb_le in D. unfold NAIRA, COMMA.
      split; apply N.eqb_neq; lia. }
    reflexivity.
  - cbn [orb] in Hc. rewrite orb_comm in Hc. rewrite Hc. reflexivity.
Qed.

Lemma filter_digits_idem (s : jsstring) :
  filter (fun c => negb ((c =? NAIRA) || (c =? COMMA))%N) (filter isDigit s)
  = filter isDigit s.
Proof.
  rewrite filter_digits_only.
  - induction s as [|c s IH]; [reflexivity|].
    cbn [filter]. destruct (isDigit c) eqn:D; [|exact IH].
    cbn [filter]. rewrite D, IH. reflexivity.
  - apply forallb_forall. intros c Hc. apply filter_In in Hc as [_ Hc].
    rewrite Hc. reflexivity.
Qed.

(** X7.  When the digits of the text spell a number of at most 2^53
    (the range in which the numbers of the host are exact integers), the
    staff page's [parsePriceValue] is that number: the digits read in
    base 10, every other character being ignored, and 0 when there is no
    digit; it is not negative. *)
Theorem X7_staff_parsePriceValue_reads_digits (priceStr : jsstring) :
  (Spec.decimalValue (filter isDigit priceStr) <= 2 ^ 53)%Z ->
  Staff.parsePriceValue priceStr
  = Spec.decimalValue (filter isDigit priceStr)
  /\ (0 <= Staff.parsePriceValue priceStr <= 2 ^ 53)%Z.
Proof.
  intros Hb. pose proof (Staff_parsePriceValue_spec priceStr) as E.
  unfold Spec.parsePrice in E.
  pose proof (Staff_parsePriceValue_nonneg priceStr) as N.
  split; [exact E|]. rewrite E in *. split; [exact N | exact Hb].
Qed.

(** X8.  On a text made of digits, commas and naira signs only, the
    shop front's [parsePriceValue] and the staff page's return the same
    number. *)
Theorem X8_parsePriceValue_agree_on_naira_amounts (priceStr : jsstring) :
  forallb (fun c => isDigit c || (c =? COMMA)%N || (c =? NAIRA)%N) priceStr
  = true ->
  App.parsePriceValue priceStr = Staff.parsePriceValue priceStr.
Proof.
  intros H. set (ds := filter isDigit priceStr).
  assert (E : App.parsePriceValue priceStr
              = App.parsePriceValue (NAIRA :: ds)).
  { unfold App.parsePriceValue. rewrite (filter_digits_only _ H).
    f_equal. f_equal. cbn [filter].
    change ((NAIRA =? NAIRA)%N) with true. cbn [orb negb].
    symmetry. apply filter_digits_idem. }
  rewrite E, App_parsePriceValue_naira_digits.
  - rewrite Staff_parsePriceValue_spec. unfold Spec.parsePrice.
    cbn [filter]. change (isDigit NAIRA) with false. cbv iota.
    f_equal. unfold ds. clear.
    induction priceStr as [|c s IH]; [reflexivity|].
    cbn [filter]. destruct (isDigit c) eqn:D; [|exact IH].
    cbn [filter]. rewrite D, IH. reflexivity.
  - apply forallb_forall. intros c Hc. apply filter_In in Hc as [_ Hc].
    rewrite Hc. reflexivity.
Qed.

End MorePrices.

Section WellFormed.
Import JS.
Variable toLowerCase : jsstring -> jsstring.

Lemma App_parseVariants_trimmed (variantsStr : jsstring) (v : Variant.t) :
  In v (App.parseVariants variantsStr) ->
  trim (Variant.price v) = Variant.price v.
Proof.
  unfold App.parseVariants.
  destruct (negb (truthy variantsStr) || streq (trim variantsStr) []);
    [intros []|].
  rewrite in_flat_map. intros (part & _ & Hv). unfold App.variantOf in Hv.
  destruct (VariantRegex.variantMatch App.variantTail part) as [[m1 m2]|];
    [|destruct Hv].
  destruct Hv as [<- | []]. apply trim_idem.
Qed.

Lemma Staff_parseVariants_trimmed (variantsStr : jsstring) (v : Variant.t) :
  In v (Staff.parseVariants variantsStr) ->
  trim (Variant.price v) = Variant.price v.
Proof.
  unfold Staff.parseVariants.
  destruct (negb (truthy variantsStr) || streq (trim variantsStr) []);
    [intros []|].
  rewrite in_flat_map. intros (part & _ & Hv). unfold Staff.variantOf in Hv.
  destruct (VariantRegex.variantMatch Staff.variantTail part) as [[m1 m2]|];
    [|destruct Hv].
  destruct Hv as [<- | []]. apply trim_idem.
Qed.

Lemma App_resolvePrice_trimmed (finalPrice : option jsstring)
      (variants : list Variant.t) :
  (forall v, In v variants -> trim (Variant.price v) = Variant.price v) ->
  trim (fst (App.resolvePrice finalPrice variants))
  = fst (App.resolvePrice finalPrice variants).
Proof.
  intros H. unfold App.resolvePrice.
  destruct (_ && _); [|apply trim_idem].
  destruct (sortBy App.dearer variants) as [|v vs] eqn:E; [apply trim_idem|].
  cbn [fst]. apply H. apply (sortBy_In App.dearer). rewrite E. left.
  reflexivity.
Qed.

Lemma Staff_resolvePrice_trimmed (finalPrice : option jsstring)
      (variants : list Variant.t) :
  (forall v, In v variants -> trim (Variant.price v) = Variant.price v) ->
  trim (fst (Staff.resolvePrice finalPrice variants))
  = fst (Staff.resolvePrice finalPrice variants).
Proof.
  intros H. unfold Staff.resolvePrice.
  destruct (_ && _); [|apply trim_idem].
  destruct (sortBy App.dearer variants) as [|v vs] eqn:E; [apply trim_idem|].
  cbn [fst]. apply H. apply (sortBy_In App.dearer). rewrite E. left.
  reflexivity.
Qed.

Lemma App_rowRecord_wellFormed (idx : option nat) (n : nat) (row : jsstring)
      (p : App.Product) :
  App.rowRecord toLowerCase idx n row = Some p ->
  App.productId p <> []
  /\ trim (App.productId p) = App.productId p
  /\ App.price p <> []
  /\ trim (App.price p) = App.price p
  /\ trim (App.name p) = App.name p
  /\ trim (App.description p) = App.description p.
Proof.
  unfold App.rowRecord. fold (Spec.cleanFields row).
  set (fields := Spec.cleanFields row).
  destruct (2 <=? length fields)%nat; [|discriminate].
  destruct (truthy (orEmpty (nth_error fields 0))) eqn:F; [|discriminate].
  cbn [andb].
  pose proof (App_resolvePrice_trimmed (nth_error fields 3)
                (App.parseVariants (orEmpty (nth_error fields 4)))
                (App_parseVariants_trimmed _)) as T.
  destruct (App.resolvePrice _ _) as [dp dv]. cbn [fst] in T.
  destruct (truthy dp) eqn:P; [|discriminate]. cbn [negb].
  intros H. injection H as <-.
  cbn [App.productId App.price App.name App.description].
  split; [apply truthy_spec; exact F|].
  split; [exact (nth_error_cleanFields_trimmed row 0)|].
  split; [apply truthy_spec; exact P|].
  split; [exact T|]. split; [apply trim_idem|].
  destruct (_ && _); [apply trim_idem | reflexivity].
Qed.

Lemma Staff_rowRecord_wellFormed (idx : option nat) (row : jsstring)
      (p : Staff.Product) :
  Staff.rowRecord toLowerCase idx row = Some p ->
  Staff.productId p <> []
  /\ trim (Staff.productId p) = Staff.productId p
  /\ Staff.price p <> []
  /\ trim (Staff.price p) = Staff.price p
  /\ trim (Staff.name p) = Staff.name p
  /\ trim (Staff.description p) = Staff.description p.
Proof.
  unfold Staff.rowRecord, Staff.parseCSVRow, Staff.cleanField.
  fold (Spec.cleanFields row).
  set (fields := Spec.cleanFields row).
  destruct (2 <=? length fields)%nat; [|discriminate].
  destruct (truthy (orEmpty (nth_error fields 0))) eqn:F; [|discriminate].
  cbn [andb].
  pose proof (Staff_resolvePrice_trimmed (nth_error fields 3)
                (Staff.parseVariants (orEmpty (nth_error fields 4)))
                (Staff_parseVariants_trimmed _)) as T.
  destruct (Staff.resolvePrice _ _) as [dp dv]. cbn [fst] in T.
  destruct (truthy dp) eqn:P; [|discriminate]. cbn [negb].
  intros H. injection H as <-.
  cbn [Staff.productId Staff.price Staff.name Staff.description].
  split; [apply truthy_spec; exact F|].
  split; [exact (nth_error_cleanFields_trimmed row 0)|].
  split; [apply truthy_spec; exact P|].
  split; [exact T|]. split; apply trim_idem.
Qed.

(** X28.  Every product that the shop front or the staff page builds
    from a feed has a non-empty identifier and a non-empty display
    price, and its identifier, price, name and description are trimmed.
    Hence [getProductCode] of a product of a feed is its identifier: the
    numbered fallback is never used for it. *)
Theorem X28_parsed_products_well_formed (text : jsstring) :
  Forall (fun p =>
            App.productId p <> []
            /\ trim (App.productId p) = App.productId p
            /\ App.price p <> []
            /\ trim (App.price p) = App.price p
            /\ trim (App.name p) = App.name p
            /\ trim (App.description p) = App.description p
            /\ View.getProductCode p = App.productId p)
         (App.parseCSV toLowerCase text)
  /\ Forall (fun p =>
               Staff.productId p <> []
               /\ trim (Staff.productId p) = Staff.productId p
               /\ Staff.price p <> []
               /\ trim (Staff.price p) = Staff.price p
               /\ trim (Staff.name p) = Staff.name p
               /\ trim (Staff.description p) = Staff.description p)
            (Staff.parseCSV toLowerCase text).
Proof.
  split; apply Forall_forall; intros p Hp.
  - unfold App.parseCSV in Hp.
    destruct (App_parseRows_In toLowerCase _ _ _ _ Hp) as (row & m & _ & Hm).
    destruct (App_rowRecord_wellFormed _ _ _ _ Hm)
      as (H1 & H2 & H3 & H4 & H5 & H6).
    repeat (split; [assumption|]).
    unfold View.getProductCode.
    destruct (App.productId p); [congruence | reflexivity].
  - unfold Staff.parseCSV in Hp.
    destruct (Staff_parseRows_In toLowerCase _ _ _ Hp) as (row & _ & Hm).
    exact (Staff_rowRecord_wellFormed _ _ _ Hm).
Qed.

End WellFormed.

(* ===================================================================== *)
(** * More on classification, search, order and filters *)
(* ===================================================================== *)

Section Classifier.
Import JS.
Variable toLowerCase : jsstring -> jsstring.

Lemma includesCI_tail (s p : jsstring) (c : N) :
  includesCI s (c :: p) = true -> includesCI s p = true.
Proof.
  induction s as [|a s IH]; cbn [includesCI startsWithCI].
  - discriminate.
  - intros H. apply orb_true_iff in H as [H | H].
    + apply andb_true_iff in H as [_ H].
      apply orb_true_iff. right.
      destruct s as [|b s']; destruct p as [|d p'];
        cbn [includesCI startsWithCI] in *; try reflexivity;
        try discriminate.
      rewrite H. reflexivity.
    + apply orb_true_iff. right. apply IH, H.
Qed.

Lemma earring_ring (n : jsstring) :
  test [L "ring"] n = false -> test [L "earring"] n = false.
Proof.
  unfold test, L. cbn [existsb testAlt]. rewrite !orb_false_r.
  intros H. destruct (includesCI n (lit "earring")) eqn:E; [|reflexivity].
  change (lit "earring") with (101 :: 97 :: 114 :: lit "ring")%N in E.
  do 3 apply includesCI_tail in E. congruence.
Qed.

(** X9.  [getProductEmoji] never returns the ear emoji of its
    [earring] rule: a name that contains [earring] contains [ring],
    whose rule comes first, and gets the ring emoji. *)
Theorem X9_getProductEmoji_never_ear (name : jsstring) :
  streq (App.getProductEmoji toLowerCase name) [55357; 56386]%N = false
  /\ (includesCI (toLowerCase name) (lit "earring") = true ->
      App.getProductEmoji toLowerCase name = [55357; 56461]%N).
Proof.
  unfold App.getProductEmoji.
  destruct (test [L "ring"] (toLowerCase name)) eqn:R.
  { split; reflexivity. }
  pose proof (earring_ring _ R) as E. rewrite E.
  split.
  - repeat match goal with
           | |- context [if ?b then _ else _] => destruct b
           end; reflexivity.
  - intros H. unfold test, L in E. cbn [existsb testAlt] in E.
    rewrite orb_false_r in E. congruence.
Qed.

End Classifier.

Section FuzzyRange.
Import JS.
Variable toLowerCase : jsstring -> jsstring.

(** X10.  [fuzzyMatch] returns 2, 0.5 or 0 and never 1.5: a word that
    starts with the query contains it, so the substring stage has
    answered before the word stage is reached. *)
Theorem X10_fuzzyMatch_never_word_weight (str pattern : jsstring) :
  let r := App.fuzzyMatch toLowerCase str pattern in
  (r = ofZ 2 \/ r = decimal 5 10 \/ r = ofZ 0)
  /\ SFeqb r (decimal 15 10) = false.
Proof.
  intros r. subst r.
  destruct (fuzzyMatch_weights toLowerCase str pattern) as [E | [E | E]];
    rewrite E; (split; [auto | vm_compute; reflexivity]).
Qed.

End FuzzyRange.

Section SearchHits.
Import JS.
Variable toLowerCase : jsstring -> jsstring.

Lemma fuzzyMatch_nonzero_iff (str pattern : jsstring) :
  App.fuzzyMatch toLowerCase str pattern <> ofZ 0
  <-> Ref.Matches toLowerCase pattern str.
Proof.
  destruct weights_distinct as (_ & _ & H20 & _ & _ & H50).
  unfold Ref.Matches, App.fuzzyMatch.
  set (s := toLowerCase str). set (q := toLowerCase pattern).
  pose proof (includes_spec s q) as Hi.
  pose proof (existsb_startsWith_spec q s) as Hw.
  pose proof (subsequenceScan_spec s q 0 ltac:(lia)) as Hs.
  simpl skipn in Hs. rewrite <- Nat.eqb_eq in Hs.
  destruct (includes s q).
  { split; [intros _; left; apply Hi; reflexivity | intros _; exact H20]. }
  assert (Hn : ~ Spec.Substring q s) by (intros H; apply Hi in H; discriminate).
  destruct (existsb _ (splitWs s)).
  { exfalso. apply Hn, WordPrefix_Substring, Hw. reflexivity. }
  destruct (4 <=? length q)%nat eqn:L.
  { apply Nat.leb_le in L. split; [congruence|].
    intros [H | [H _]]; [contradiction | lia]. }
  apply Nat.leb_gt in L.
  destruct (_ =? _)%nat.
  - split; [|intros _; exact H50].
    intros _. right. split; [exact L | apply Hs; reflexivity].
  - split; [congruence|].
    intros [H | [_ H]]; [contradiction|]. apply Hs in H. discriminate.
Qed.

Lemma nonZero_spec (x : num) :
  In x Spec.weights -> Ref.nonZero x = true <-> x <> ofZ 0.
Proof.
  unfold Spec.weights. simpl.
  intros [<- | [<- | [<- | []]]]; split; intros H;
    try (vm_compute; reflexivity);
    try (vm_compute; discriminate);
    try (vm_compute in H; discriminate);
    exfalso; apply H; reflexivity.
Qed.

Lemma positiveAgrees_weights :
  forallb (fun a => forallb (fun b => forallb (fun c => forallb (fun d =>
     Ref.positiveAgrees a b c d) Spec.weights) Spec.weights) Spec.weights)
     Spec.weights = true.
Proof. vm_compute. reflexivity. Qed.

Lemma score4_positive (a b c d : num) :
  In a Spec.weights -> In b Spec.weights -> In c Spec.weights ->
  In d Spec.weights ->
  gtb (Spec.score4 a b c d) (ofZ 0)
  = Ref.nonZero a || Ref.nonZero b || Ref.nonZero c || Ref.nonZero d.
Proof.
  intros Ha Hb Hc Hd. pose proof positiveAgrees_weights as H.
  rewrite forallb_forall in H. specialize (H a Ha).
  rewrite forallb_forall in H. specialize (H b Hb).
  rewrite forallb_forall in H. specialize (H c Hc).
  rewrite forallb_forall in H. specialize (H d Hd).
  apply eqb_prop in H. exact H.
Qed.

Lemma variantsMax_nonzero_iff (searchTerm : jsstring) (p : App.Product) :
  App.variantsMax toLowerCase searchTerm p <> ofZ 0
  <-> exists v, In v (App.variants p)
                /\ App.fuzzyMatch toLowerCase (Variant.name v) searchTerm
                   <> ofZ 0.
Proof.
  destruct (variantsMax_IsMax toLowerCase searchTerm p) as (H0 & Hin & Hmax).
  set (m := App.variantsMax toLowerCase searchTerm p) in *.
  split.
  - intros Hm.
    destruct (map _ (App.variants p)) as [|x l] eqn:E.
    { exfalso. apply Hm, H0. reflexivity. }
    specialize (Hin ltac:(discriminate)). rewrite <- E in Hin.
    apply in_map_iff in Hin as (v & Hv & Hvin).
    exists v. split; [exact Hvin | congruence].
  - intros (v & Hv & Hnz) Hm.
    specialize (Hmax _ (in_map _ _ _ Hv)). cbv beta in Hmax.
    rewrite Hm in Hmax.
    destruct (fuzzyMatch_weights toLowerCase (Variant.name v) searchTerm)
      as [E | [E | E]]; [| |contradiction];
      rewrite E in Hmax; vm_compute in Hmax; discriminate.
Qed.

(** X11.  For a non-empty query, a product is in the search results
    exactly when it is in the catalogue and the query matches its name,
    its description, its category or the name of one of its variants;
    matching means, on the case-folded texts, being a substring, or,
    for a query of fewer than four characters, a subsequence. *)
Theorem X11_performSearch_hits (searchTerm : jsstring) (st : App.State)
        (p : App.Product) :
  searchTerm <> [] ->
  In p (App.filteredProducts (App.performSearch toLowerCase searchTerm st))
  <-> In p (App.allProducts st)
      /\ (Ref.Matches toLowerCase searchTerm (App.name p)
          \/ Ref.Matches toLowerCase searchTerm (App.description p)
          \/ Ref.Matches toLowerCase searchTerm (App.category p)
          \/ exists v, In v (App.variants p)
                /\ Ref.Matches toLowerCase searchTerm (Variant.name v)).
Proof.
  intros Hne. rewrite performSearch_results by exact Hne.
  rewrite sortBy_In, filter_In, productScore_score4.
  rewrite score4_positive
    by (try apply fuzzyMatch_in_weights; apply variantsMax_in_weights).
  rewrite !orb_true_iff.
  rewrite !nonZero_spec
    by (try apply fuzzyMatch_in_weights; apply variantsMax_in_weights).
  rewrite !fuzzyMatch_nonzero_iff, variantsMax_nonzero_iff.
  split; intros [Hin H]; (split; [exact Hin|]).
  - destruct H as [[[H | H] | H] | (v & Hv & H)]; auto.
    right; right; right. exists v. split; [exact Hv|].
    apply fuzzyMatch_nonzero_iff, H.
  - destruct H as [H | [H | [H | (v & Hv & H)]]]; auto.
    right. exists v. split; [exact Hv|].
    apply fuzzyMatch_nonzero_iff, H.
Qed.

End SearchHits.

Section Conservation.
Import JS.
Variable toLowerCase : jsstring -> jsstring.

Lemma filter_partition_perm {A : Type} (f : A -> bool) (l : list A) :
  Permutation l (filter f l ++ filter (fun x => negb (f x)) l).
Proof.
  induction l as [|x l IH]; [constructor|].
  cbn [filter]. destruct (f x); cbn [negb app].
  - constructor. exact IH.
  - apply Permutation_cons_app. exact IH.
Qed.

Lemma find_hd_filter {A : Type} (f : A -> bool) (l : list A) :
  find f l = hd_error (filter f l).
Proof.
  induction l as [|x l IH]; [reflexivity|].
  cbn [find filter]. destruct (f x); [reflexivity | exact IH].
Qed.

Lemma filter_rev' {A : Type} (f : A -> bool) (l : list A) :
  filter f (rev l) = rev (filter f l).
Proof.
  induction l as [|x l IH]; [reflexivity|].
  cbn [rev filter]. rewrite filter_app, IH. cbn [filter].
  destruct (f x); [reflexivity | rewrite app_nil_r; reflexivity].
Qed.

Lemma carriers_single (ident : jsstring) (products : list App.Product) :
  (length (Ref.carriers ident products) <= 1)%nat ->
  Ref.carriers ident products
  = match Spec.lastWith ident products with
    | Some p => [p]
    | None => []
    end.
Proof.
  unfold Spec.lastWith. rewrite find_hd_filter, filter_rev'.
  fold (Ref.carriers ident products).
  destruct (Ref.carriers ident products) as [|p [|q l]]; simpl;
    [reflexivity | reflexivity | lia].
Qed.

Lemma pinned_split (products : list App.Product) :
  Permutation (filter Spec.isPinned products)
              (Ref.carriers Spec.pinnedFirst products
               ++ Ref.carriers Spec.pinnedSecond products).
Proof.
  unfold Ref.carriers, Spec.isPinned.
  induction products as [|p l IH]; [constructor|].
  cbn [filter].
  destruct (streq (App.productId p) Spec.pinnedFirst) eqn:E1.
  - apply streq_spec in E1.
    destruct (streq (App.productId p) Spec.pinnedSecond) eqn:E2.
    + apply streq_spec in E2. rewrite E1 in E2. discriminate.
    + cbn [orb app]. constructor. exact IH.
  - destruct (streq (App.productId p) Spec.pinnedSecond); cbn [orb].
    + apply Permutation_cons_app. exact IH.
    + exact IH.
Qed.

(** X12.  When each of the two pinned identifiers is carried by at most
    one product, [prioritizeProducts] only reorders the catalogue: its
    result is a permutation of its input. *)
Theorem X12_prioritizeProducts_permutation (products : list App.Product) :
  (length (Ref.carriers Spec.pinnedFirst products) <= 1)%nat ->
  (length (Ref.carriers Spec.pinnedSecond products) <= 1)%nat ->
  Permutation (App.prioritizeProducts toLowerCase products) products.
Proof.
  intros H1 H2. pose proof (prioritizeProducts_spec toLowerCase products) as E.
  cbv zeta in E. rewrite E. clear E.
  set (rest := Spec.keywordFirst toLowerCase (Spec.unpinned products)).
  assert (Hrest : Permutation rest (Spec.unpinned products)).
  { unfold rest, Spec.keywordFirst. symmetry. apply filter_partition_perm. }
  assert (Hall : Permutation products
            (Ref.carriers Spec.pinnedFirst products
             ++ Ref.carriers Spec.pinnedSecond products ++ rest)).
  { rewrite (filter_partition_perm Spec.isPinned products) at 1.
    fold (Spec.unpinned products). rewrite app_assoc.
    apply Permutation_app; [apply pinned_split | symmetry; exact Hrest]. }
  rewrite (carriers_single _ _ H1), (carriers_single _ _ H2) in Hall.
  symmetry. etransitivity; [exact Hall|].
  destruct (Spec.lastWith Spec.pinnedFirst products) as [a|];
    destruct (Spec.lastWith Spec.pinnedSecond products) as [b|];
    cbn [app]; try reflexivity.
  constructor.
  rewrite <- (firstn_skipn (Nat.min 10 (length rest)) rest) at 1.
  apply Permutation_middle.
Qed.

End Conservation.

Section Catalogue.
Import JS.
Variable toLowerCase : jsstring -> jsstring.

Lemma sublist_In_any {A : Type} (l1 l2 : list A) (x : A) :
  sublist l1 l2 -> In x l1 -> In x l2.
Proof.
  induction 1 as [|y l1 l2 Hs IH|y l1 l2 Hs IH]; intros Hin.
  - destruct Hin.
  - destruct Hin as [<- | Hin]; [left; reflexivity | right; auto].
  - right. auto.
Qed.

Lemma sublist_NoDup_l {A : Type} (l1 l2 : list A) :
  sublist l1 l2 -> NoDup l2 -> NoDup l1.
Proof.
  induction 1 as [|x l1 l2 Hs IH|x l1 l2 Hs IH]; intros H.
  - constructor.
  - inversion H as [|? ? Hx Hl]; subst. constructor; [|auto].
    intros Hin. apply Hx. eapply sublist_In_any; eauto.
  - inversion H; subst. auto.
Qed.

Lemma sublist_map {A B : Type} (f : A -> B) (l1 l2 : list A) :
  sublist l1 l2 -> sublist (map f l1) (map f l2).
Proof.
  induction 1; cbn [map]; constructor; assumption.
Qed.

Lemma lastWith_carriers (ident : jsstring) (products : list App.Product) :
  sublist (match Spec.lastWith ident products with
           | Some p => [p]
           | None => []
           end)
          (Ref.carriers ident products).
Proof.
  unfold Spec.lastWith. rewrite find_hd_filter, filter_rev'.
  fold (Ref.carriers ident products).
  destruct (rev (Ref.carriers ident products)) as [|a t] eqn:E;
    cbn [hd_error]; [apply sublist_nil_l|].
  apply (f_equal (@rev _)) in E. rewrite rev_involutive in E.
  rewrite E. cbn [rev]. apply sublist_inserts_l. reflexivity.
Qed.

Lemma prioritizeProducts_ids (products : list App.Product) :
  NoDup (map App.id products) ->
  NoDup (map App.id (App.prioritizeProducts toLowerCase products)).
Proof.
  intros HN.
  pose proof (prioritizeProducts_spec toLowerCase products) as E.
  cbv zeta in E. rewrite E. clear E.
  set (rest := Spec.keywordFirst toLowerCase (Spec.unpinned products)).
  set (o1 := match Spec.lastWith Spec.pinnedFirst products with
             | Some p => [p] | None => [] end).
  set (o2 := match Spec.lastWith Spec.pinnedSecond products with
             | Some p => [p] | None => [] end).
  assert (Hrest : Permutation rest (Spec.unpinned products)).
  { unfold rest, Spec.keywordFirst. symmetry. apply filter_partition_perm. }
  assert (Hall : Permutation products
            (Ref.carriers Spec.pinnedFirst products
             ++ Ref.carriers Spec.pinnedSecond products
             ++ Spec.unpinned products)).
  { rewrite (filter_partition_perm Spec.isPinned products) at 1.
    fold (Spec.unpinned products). rewrite app_assoc.
    apply Permutation_app; [apply pinned_split | reflexivity]. }
  assert (Hsub : sublist (o1 ++ o2 ++ Spec.unpinned products)
                   (Ref.carriers Spec.pinnedFirst products
                    ++ Ref.carriers Spec.pinnedSecond products
                    ++ Spec.unpinned products)).
  { apply sublist_app; [apply lastWith_carriers|].
    apply sublist_app; [apply lastWith_carriers | reflexivity]. }
  assert (HN' : NoDup (map App.id (o1 ++ o2 ++ rest))).
  { apply (Permutation_NoDup
             (l := map App.id (o1 ++ o2 ++ Spec.unpinned products))).
    - apply Permutation_map. do 2 apply Permutation_app_head.
      symmetry. exact Hrest.
    - apply (sublist_NoDup_l _ _ (sublist_map App.id _ _ Hsub)).
      apply (Permutation_NoDup (Permutation_map App.id Hall)). exact HN. }
  revert HN'. apply Permutation_NoDup. apply Permutation_map.
  unfold o1, o2.
  destruct (Spec.lastWith Spec.pinnedFirst products) as [a|];
    destruct (Spec.lastWith Spec.pinnedSecond products) as [b|];
    cbn [app]; try reflexivity.
  constructor.
  rewrite <- (firstn_skipn (Nat.min 10 (length rest)) rest) at 1.
  apply Permutation_middle.
Qed.

Lemma find_unique (l : list App.Product) (p : App.Product) :
  NoDup (map App.id l) -> In p l ->
  find (fun q => (App.id q =? App.id p)%nat) l = Some p.
Proof.
  induction l as [|x l IH]; intros HN Hin; [destruct Hin|].
  cbn [map] in HN. inversion HN as [|? ? Hx Hl]; subst.
  cbn [find]. destruct (Nat.eqb_spec (App.id x) (App.id p)) as [E | E].
  - destruct Hin as [-> | Hin]; [reflexivity|].
    exfalso. apply Hx. rewrite E. apply in_map. exact Hin.
  - destruct Hin as [-> | Hin]; [congruence|]. apply IH; assumption.
Qed.

(** X13.  In the catalogue that [loadProducts] builds from a feed (parsed,
    then prioritized), looking a product up by its number, as
    [handleAddToCart] does, finds that very product. *)
Theorem X13_loaded_catalogue_ids_identify (csvText : jsstring)
        (p : App.Product) :
  In p (View.loadedProducts toLowerCase csvText) ->
  find (fun q => (App.id q =? App.id p)%nat)
       (View.loadedProducts toLowerCase csvText)
  = Some p.
Proof.
  intros Hin. apply find_unique; [|exact Hin].
  apply prioritizeProducts_ids.
  unfold App.parseCSV. rewrite App_parseRows_ids. apply seq_NoDup.
Qed.

End Catalogue.

Section Filters.
Import JS.
Variable toLowerCase : jsstring -> jsstring.

Lemma applyCurrentFilters_filter (activeFilter searchInput : jsstring)
      (st : App.State) :
  App.filteredProducts
    (App.applyCurrentFilters toLowerCase activeFilter searchInput st)
  = filter (App.filterPredicate activeFilter)
           (if streq (trim (toLowerCase searchInput)) []
            then App.allProducts st else App.filteredProducts st).
Proof.
  unfold App.applyCurrentFilters. cbn [App.filteredProducts].
  destruct (streq activeFilter (lit "all")) eqn:E; cbn [negb];
    [|reflexivity].
  apply streq_spec in E. subst activeFilter.
  symmetry. apply forallb_filter_id. apply forallb_forall.
  intros p _. reflexivity.
Qed.

(** X14.  Applying a second filter tag while the search box holds a text
    filters the list the first tag has left: the result satisfies both
    tags, and the first tag is not undone.  With an empty search box the
    second tag is applied to the full catalogue and replaces the first. *)
Theorem X14_filter_pills_compound (first second searchInput : jsstring)
        (st : App.State) :
  let once := App.applyCurrentFilters toLowerCase first searchInput st in
  let twice := App.applyCurrentFilters toLowerCase second searchInput once in
  (trim (toLowerCase searchInput) <> [] ->
   App.filteredProducts twice
   = filter (fun p => App.filterPredicate first p
                      && App.filterPredicate second p)
            (App.filteredProducts st))
  /\ (trim (toLowerCase searchInput) = [] ->
      App.filteredProducts twice
      = filter (App.filterPredicate second) (App.allProducts st)).
Proof.
  intros once twice. subst once twice.
  rewrite !applyCurrentFilters_filter.
  split; intros H.
  - destruct (streq (trim (toLowerCase searchInput)) []) eqn:E.
    { apply streq_spec in E. contradiction. }
    generalize (App.filteredProducts st) as l.
    induction l as [|p l IH]; [reflexivity|].
    cbn [filter]. destruct (App.filterPredicate first p); cbn [filter andb];
      [destruct (App.filterPredicate second p)|]; rewrite IH; reflexivity.
  - rewrite H. reflexivity.
Qed.

End Filters.

(* ===================================================================== *)
(** * Badges, product codes and paging *)
(* ===================================================================== *)

Section Badges.
Import JS.

Lemma badges_distinct :
  View.badgeBudget <> View.badgeBestValue
  /\ View.badgeBudget <> View.badgePremium
  /\ View.badgeBudget <> View.badgeHot
  /\ View.badgeBestValue <> View.badgePremium
  /\ View.badgeBestValue <> View.badgeHot
  /\ View.badgePremium <> View.badgeHot
  /\ View.badgeBudget <> [] /\ View.badgeBestValue <> []
  /\ View.badgePremium <> [] /\ View.badgeHot <> [].
Proof. repeat split; vm_compute; discriminate. Qed.

Ltac bounds :=
  repeat match goal with
         | H : _ && _ = true |- _ => apply andb_true_iff in H as [? ?]
         | H : (_ <? _)%Z = true |- _ => apply Z.ltb_lt in H
         | H : (_ <=? _)%Z = true |- _ => apply Z.leb_le in H
         end.

Ltac badge_close H :=
  first [ reflexivity
        | exfalso; bounds; lia
        | exfalso; auto; fail
        | exfalso; symmetry in H; auto; fail
        | apply Z.leb_le; lia ].

(** X15.  The badges and the filter tags agree in one direction each: a
    product the [under50k] tag shows has the Budget-Friendly badge, one
    the [best-value] tag shows has the Best Value badge, a product with
    the Premium badge passes the [premium] tag and one with the Hot
    badge passes the [hot] tag. *)
Theorem X15_badge_agrees_with_price_pills (p : App.Product) :
  (App.filterPredicate (lit "under50k") p = true ->
   View.getProductBadge p = View.badgeBudget)
  /\ (App.filterPredicate (lit "best-value") p = true ->
      View.getProductBadge p = View.badgeBestValue)
  /\ (View.getProductBadge p = View.badgePremium ->
      App.filterPredicate (lit "premium") p = true)
  /\ (View.getProductBadge p = View.badgeHot ->
      App.filterPredicate (lit "hot") p = true).
Proof.
  destruct badges_distinct
    as (D1 & D2 & D3 & D4 & D5 & D6 & D7 & D8 & D9 & D10).
  assert (Hu : App.filterPredicate (lit "under50k") p
               = (0 <? App.priceValue p)%Z && (App.priceValue p <? 50000)%Z)
    by reflexivity.
  assert (Hb : App.filterPredicate (lit "best-value") p
               = (50000 <=? App.priceValue p)%Z
                 && (App.priceValue p <=? 90000)%Z)
    by reflexivity.
  assert (Hp : App.filterPredicate (lit "premium") p
               = (120000 <=? App.priceValue p)%Z)
    by reflexivity.
  assert (Hh : App.filterPredicate (lit "hot") p
               = streq (App.category p) (lit "Food")
                 || streq (App.category p) (lit "Flowers")
                 || streq (App.category p) (lit "Teddy Bears"))
    by reflexivity.
  rewrite Hu, Hb, Hp, Hh. clear Hu Hb Hp Hh.
  unfold View.getProductBadge.
  destruct (Z.ltb_spec (App.priceValue p) 50000) as [L1 | L1].
  { repeat split; intros H; badge_close H. }
  destruct (Z.leb_spec 50000 (App.priceValue p)) as [L2 | L2]; [|lia].
  destruct (Z.leb_spec (App.priceValue p) 100000) as [L3 | L3]; cbn [andb].
  { repeat split; intros H; badge_close H. }
  destruct (Z.ltb_spec 150000 (App.priceValue p)) as [L4 | L4].
  { repeat split; intros H; badge_close H. }
  destruct (streq (App.category p) (lit "Food")) eqn:F.
  { repeat split; intros H; badge_close H. }
  repeat split; intros H; badge_close H.
Qed.

(** X16.  [getProductBadge] gives the Hot badge exactly to the Food
    products priced above 100000 and up to 150000, and no badge exactly
    to the other products of that price band. *)
Theorem X16_badge_hot_band (p : App.Product) :
  let v := App.priceValue p in
  (View.getProductBadge p = View.badgeHot
   <-> App.category p = lit "Food" /\ (100000 < v <= 150000)%Z)
  /\ (View.getProductBadge p = []
      <-> App.category p <> lit "Food" /\ (100000 < v <= 150000)%Z).
Proof.
  destruct badges_distinct
    as (D1 & D2 & D3 & D4 & D5 & D6 & D7 & D8 & D9 & D10).
  intros v. subst v. unfold View.getProductBadge.
  destruct (Z.ltb_spec (App.priceValue p) 50000) as [L1 | L1].
  { split; split; try (intros [_ H]; lia); intros H; exfalso; auto. }
  destruct (Z.leb_spec 50000 (App.priceValue p)) as [L2 | L2]; [|lia].
  destruct (Z.leb_spec (App.priceValue p) 100000) as [L3 | L3]; cbn [andb].
  { split; split; try (intros [_ H]; lia); intros H; exfalso; auto. }
  destruct (Z.ltb_spec 150000 (App.priceValue p)) as [L4 | L4].
  { split; split; try (intros [_ H]; lia); intros H; exfalso; auto. }
  destruct (streq (App.category p) (lit "Food")) eqn:F.
  - apply streq_spec in F. split; split.
    + intros _. split; [exact F | lia].
    + reflexivity.
    + intros H. exfalso. auto.
    + intros [H _]. contradiction.
  - assert (N : App.category p <> lit "Food").
    { intros H. apply streq_spec in H. congruence. }
    split; split.
    + intros H. exfalso. symmetry in H. auto.
    + intros [H _]. contradiction.
    + intros _. split; [exact N | lia].
    + reflexivity.
Qed.

End Badges.

Section ProductCodes.
Import JS.

Lemma digitsOf_acc (fuel : nat) (n : N) (acc : jsstring) :
  View.digitsOf fuel n acc = View.digitsOf fuel n [] ++ acc.
Proof.
  revert n acc. induction fuel as [|fuel IH]; intros n acc; [reflexivity|].
  cbn [View.digitsOf]. destruct (n / 10 =? 0)%N; [reflexivity|].
  rewrite IH, (IH _ [_]), <- app_assoc. reflexivity.
Qed.

Lemma digitsOf_S (fuel : nat) (n : N) (acc : jsstring) :
  View.digitsOf (S fuel) n acc
  = if (n / 10 =? 0)%N then (48 + n mod 10)%N :: acc
    else View.digitsOf fuel (n / 10) ((48 + n mod 10)%N :: acc).
Proof. reflexivity. Qed.

Lemma decimalValue_snoc (ds : jsstring) (c : N) :
  Spec.decimalValue (ds ++ [c])
  = (Spec.decimalValue ds * 10 + (Z.of_N c - 48))%Z.
Proof. unfold Spec.decimalValue. rewrite fold_left_app. reflexivity. Qed.

Lemma digitsOf_value (fuel : nat) (n : N) :
  (n < 2 ^ N.of_nat fuel)%N ->
  let ds := View.digitsOf (S fuel) n [] in
  forallb isDigit ds = true /\ ds <> []
  /\ Spec.decimalValue ds = Z.of_N n.
Proof.
  revert n. induction fuel as [|fuel IH]; intros n Hn ds; subst ds.
  - change (2 ^ N.of_nat 0)%N with 1%N in Hn.
    apply N.lt_1_r in Hn. subst n. repeat split. discriminate.
  - rewrite digitsOf_S.
    assert (Hd : isDigit (48 + n mod 10) = true).
    { unfold isDigit. apply andb_true_iff. rewrite !N.leb_le.
      pose proof (N.mod_upper_bound n 10 ltac:(lia)) as Hm.
      revert Hm. generalize (n mod 10)%N. intros m Hm. lia. }
    assert (Hv : (Z.of_N (48 + n mod 10) - 48 = Z.of_N (n mod 10))%Z)
      by (generalize (n mod 10)%N; intros m; lia).
    destruct (n / 10 =? 0)%N eqn:E.
    + apply N.eqb_eq in E. split; [|split].
      * cbn [forallb]. rewrite Hd. reflexivity.
      * discriminate.
      * unfold Spec.decimalValue. cbn [fold_left]. rewrite Hv.
        rewrite (N.div_mod n 10) at 2 by lia. rewrite E. lia.
    + rewrite digitsOf_acc.
      assert (Hlt : (n / 10 < 2 ^ N.of_nat fuel)%N).
      { rewrite Nat2N.inj_succ, N.pow_succ_r' in Hn.
        apply N.Div0.div_lt_upper_bound. lia. }
      destruct (IH _ Hlt) as (H1 & H2 & H3). cbv zeta in H1, H2, H3.
      split; [|split].
      * rewrite forallb_app, H1. cbn [forallb]. rewrite Hd. reflexivity.
      * intros H. apply app_eq_nil in H as [_ H]. discriminate.
      * rewrite decimalValue_snoc, H3, Hv.
        rewrite (N.div_mod n 10) at 3 by lia. lia.
Qed.

Lemma numberToString_value (n : N) :
  forallb isDigit (View.numberToString n) = true
  /\ View.numberToString n <> []
  /\ Spec.decimalValue (View.numberToString n) = Z.of_N n.
Proof.
  unfold View.numberToString. apply digitsOf_value.
  rewrite N2Nat.id. apply N.size_gt.
Qed.

Lemma decimalValue_zeros (k : nat) (ds : jsstring) :
  Spec.decimalValue (repeat 48%N k ++ ds) = Spec.decimalValue ds.
Proof.
  unfold Spec.decimalValue. rewrite fold_left_app.
  replace (fold_left _ (repeat 48%N k) 0%Z) with 0%Z; [reflexivity|].
  induction k as [|k IH]; [reflexivity|]. cbn [repeat fold_left].
  exact IH.
Qed.

(** X17.  For a product without identifier, [getProductCode] is [PROD-]
    followed by at least four decimal digits, and reading these digits
    back with [parseInt] gives the product's number. *)
Theorem X17_getProductCode_fallback (p : App.Product) :
  App.productId p = [] ->
  exists ds,
    View.getProductCode p = lit "PROD-" ++ ds
    /\ (4 <= length ds)%nat
    /\ forallb isDigit ds = true
    /\ parseInt ds (Some 10%Z) = Some (Z.of_nat (App.id p)).
Proof.
  intros H. unfold View.getProductCode. rewrite H. cbn [truthy].
  destruct (numberToString_value (N.of_nat (App.id p))) as (Hd & Hne & Hv).
  set (s := View.numberToString (N.of_nat (App.id p))) in *.
  exists (View.padStart 4 48 s). unfold View.padStart.
  split; [reflexivity|]. split; [|split].
  - rewrite length_app, repeat_length. lia.
  - rewrite forallb_app, Hd, andb_true_r.
    apply forallb_forall. intros c Hc. apply repeat_spec in Hc. subst c.
    reflexivity.
  - rewrite parseInt_digits.
    + rewrite decimalValue_zeros, Hv, nat_N_Z.
      destruct (repeat 48%N (4 - length s) ++ s) eqn:E; [|reflexivity].
      apply app_eq_nil in E as [_ E]. contradiction.
    + rewrite forallb_app, Hd, andb_true_r.
      apply forallb_forall. intros c Hc. apply repeat_spec in Hc. subst c.
      reflexivity.
Qed.

End ProductCodes.

Section Paging.
Import JS.

Lemma firstn_plus {A : Type} (a b : nat) (l : list A) :
  firstn (a + b) l = firstn a l ++ firstn b (skipn a l).
Proof.
  revert l. induction a as [|a IH]; intros l; [reflexivity|].
  destruct l as [|x l]; [simpl; rewrite firstn_nil; reflexivity|].
  simpl. rewrite IH. reflexivity.
Qed.

Lemma loadMoreProducts_prefix (products : list App.Product) (pg : View.Page) :
  (View.displayedCount pg <= length products)%nat ->
  View.grid pg = firstn (View.displayedCount pg) products ->
  let pg' := View.loadMoreProducts products pg in
  View.displayedCount pg'
  = Nat.min (View.displayedCount pg + View.BATCH_SIZE) (length products)
  /\ View.grid pg' = firstn (View.displayedCount pg') products
  /\ View.gridShown pg' = View.gridShown pg.
Proof.
  intros Hle Hg pg'. subst pg'. unfold View.loadMoreProducts.
  destruct (Nat.leb_spec (length products) (View.displayedCount pg)) as [L | L].
  - split; [lia|]. split; [exact Hg | reflexivity].
  - cbn [View.displayedCount View.grid View.gridShown].
    split; [reflexivity|]. split; [|reflexivity].
    unfold View.slice. rewrite Hg.
    set (c := View.displayedCount pg) in *.
    set (e := Nat.min (c + View.BATCH_SIZE) (length products)).
    replace e with (c + (e - c))%nat at 2 by (unfold e; lia).
    symmetry. apply firstn_plus.
Qed.

(** X18.  With a non-empty result list, after [renderProducts] and [n]
    further calls of [loadMoreProducts] the grid holds the first
    50 * (n + 1) products of the list, each once and in order (all of
    them when the list is shorter), and [displayedCount] is their
    number. *)
Theorem X18_paging_shows_prefixes (products : list App.Product)
        (pg0 : View.Page) (n : nat) :
  products <> [] ->
  let pg :=
    Nat.iter n (View.loadMoreProducts products)
             (View.renderProducts products pg0) in
  View.displayedCount pg
  = Nat.min (View.BATCH_SIZE * S n) (length products)
  /\ View.grid pg = firstn (View.BATCH_SIZE * S n) products
  /\ View.gridShown pg = true.
Proof.
  intros Hne.
  assert (Hfix : forall k : nat,
             firstn (Nat.min k (length products)) products
             = firstn k products).
  { intros k. destruct (Nat.le_ge_cases k (length products)) as [H | H].
    - rewrite Nat.min_l by exact H. reflexivity.
    - rewrite Nat.min_r by exact H.
      rewrite firstn_all, firstn_all2 by exact H. reflexivity. }
  induction n as [|n IH]; intros pg; subst pg.
  - change (Nat.iter 0 (View.loadMoreProducts products)
                     (View.renderProducts products pg0))
      with (View.renderProducts products pg0).
    unfold View.renderProducts.
    destruct (Nat.eqb_spec (length products) 0) as [E | E].
    { destruct products; [congruence | discriminate]. }
    cbv iota.
    destruct (loadMoreProducts_prefix products (View.mkPage 0 [] true))
      as (H1 & H2 & H3); [simpl; lia | reflexivity |].
    cbv zeta in H1, H2, H3. cbn [View.displayedCount View.gridShown] in *.
    rewrite H2, H1, H3, Nat.mul_1_r, Hfix. auto.
  - rewrite Nat.iter_succ. cbv zeta in IH. destruct IH as (H1 & H2 & H3).
    set (pg := Nat.iter n _ _) in *.
    destruct (loadMoreProducts_prefix products pg) as (K1 & K2 & K3).
    + rewrite H1. lia.
    + rewrite H2, H1, Hfix. reflexivity.
    + cbv zeta in K1, K2, K3. rewrite K2, K1, K3, H1.
      split; [|split; [|exact H3]].
      * unfold View.BATCH_SIZE. lia.
      * rewrite <- (Hfix (View.BATCH_SIZE * S (S n))%nat).
        f_equal. unfold View.BATCH_SIZE. lia.
Qed.

End Paging.

(* ===================================================================== *)
(** * The cart *)
(* ===================================================================== *)

Section CartFacts.
Import JS.

Lemma sameLine_spec (product : App.Product) (variant : option Variant.t)
      (it : Cart.item) :
  Cart.sameLine product variant it = true
  <-> Ref.lineKey it = Ref.keyOf product variant.
Proof.
  unfold Cart.sameLine, Ref.lineKey, Ref.keyOf.
  rewrite andb_true_iff, Nat.eqb_eq.
  destruct (Cart.variant it) as [iv|], variant as [v|]; cbn [option_map].
  - rewrite streq_spec. split.
    + intros [-> ->]. reflexivity.
    + intros H. injection H as -> ->. auto.
  - split; [intros [_ H]; discriminate | intros H; discriminate].
  - split; [intros [_ H]; discriminate | intros H; discriminate].
  - split; [intros [-> _]; reflexivity | intros H; injection H as ->; auto].
Qed.

Lemma totalItems_from (l : list Cart.item) (a : Z) :
  fold_left (fun sum it => (sum + Cart.qty it)%Z) l a
  = (a + Cart.totalItems l)%Z.
Proof.
  unfold Cart.totalItems. revert a.
  induction l as [|x l IH]; intros a; cbn [fold_left]; [lia|].
  rewrite IH, (IH (0 + _)%Z). lia.
Qed.

Lemma totalItems_cons (x : Cart.item) (l : list Cart.item) :
  Cart.totalItems (x :: l) = (Cart.qty x + Cart.totalItems l)%Z.
Proof.
  unfold Cart.totalItems at 1. cbn [fold_left].
  rewrite totalItems_from. lia.
Qed.

Lemma total_from (l : list Cart.item) (a : Z) :
  fold_left (fun sum it => (sum + Cart.priceValue it * Cart.qty it)%Z) l a
  = (a + Cart.total l)%Z.
Proof.
  unfold Cart.total. revert a.
  induction l as [|x l IH]; intros a; cbn [fold_left]; [lia|].
  rewrite IH, (IH (0 + _)%Z). lia.
Qed.

Lemma total_cons (x : Cart.item) (l : list Cart.item) :
  Cart.total (x :: l)
  = (Cart.priceValue x * Cart.qty x + Cart.total l)%Z.
Proof.
  unfold Cart.total at 1. cbn [fold_left]. rewrite total_from. lia.
Qed.

Lemma totalItems_app (l m : list Cart.item) :
  Cart.totalItems (l ++ m) = (Cart.totalItems l + Cart.totalItems m)%Z.
Proof.
  induction l as [|x l IH]; [reflexivity|].
  cbn [app]. rewrite !totalItems_cons, IH. lia.
Qed.

Lemma total_app (l m : list Cart.item) :
  Cart.total (l ++ m) = (Cart.total l + Cart.total m)%Z.
Proof.
  induction l as [|x l IH]; [reflexivity|].
  cbn [app]. rewrite !total_cons, IH. lia.
Qed.

(** The effect of changing the quantity of line [i]. *)
Lemma updateAt_addQty (i : nat) (delta : Z) (l : list Cart.item)
      (it : Cart.item) :
  nth_error l i = Some it ->
  let l' := Cart.updateAt i (Cart.addQty delta) l in
  nth_error l' i = Some (Cart.addQty delta it)
  /\ map Ref.lineKey l' = map Ref.lineKey l
  /\ map Cart.id l' = map Cart.id l
  /\ Cart.totalItems l' = (Cart.totalItems l + delta)%Z
  /\ Cart.total l' = (Cart.total l + Cart.priceValue it * delta)%Z
  /\ (forall P : Cart.item -> Prop,
        Forall P l -> P (Cart.addQty delta it) -> Forall P l')
  /\ (forall g : Cart.item -> bool,
        g it = false -> g (Cart.addQty delta it) = false ->
        filter g l' = filter g l).
Proof.
  revert i. induction l as [|x l IH]; intros i H; [destruct i; discriminate|].
  destruct i as [|i].
  - injection H as ->. cbn [Cart.updateAt nth_error map].
    repeat split.
    + rewrite !totalItems_cons. cbn [Cart.addQty Cart.qty]. lia.
    + rewrite !total_cons. cbn [Cart.addQty Cart.qty Cart.priceValue]. lia.
    + intros P HF HP. inversion HF; subst. constructor; assumption.
    + intros g H1 H2. cbn [filter]. rewrite H1, H2. reflexivity.
  - cbn [nth_error] in H.
    destruct (IH i H) as (H1 & H2 & H3 & H4 & H5 & H6 & H7).
    cbv zeta in *. cbn [Cart.updateAt nth_error map].
    rewrite H2, H3, !totalItems_cons, !total_cons, H4, H5.
    repeat split; try lia; try assumption.
    + intros P HF HP. inversion HF; subst. constructor; auto.
    + intros g G1 G2. cbn [filter]. rewrite (H7 g G1 G2). reflexivity.
Qed.

Lemma find_findIndex {A : Type} (f : A -> bool) (l : list A) (x : A) :
  find f l = Some x ->
  exists i, findIndex f l = Some i /\ nth_error l i = Some x.
Proof.
  induction l as [|y l IH]; [discriminate|].
  cbn [find findIndex]. destruct (f y).
  - intros H. injection H as ->. exists O. auto.
  - intros H. destruct (IH H) as (i & -> & Hi). exists (S i). auto.
Qed.

Lemma findIndex_nth {A : Type} (f : A -> bool) (l : list A) (i : nat) :
  findIndex f l = Some i ->
  exists x, nth_error l i = Some x /\ f x = true.
Proof. intros H. apply findIndex_Some in H. tauto. Qed.

Lemma addToCart_line
      (now : Z) (product : App.Product) (variant : option Variant.t)
      (s : Cart.Session) :
  let s' := Cart.addToCart now product variant s in
  Cart.totalItems (Cart.cart s') = (Cart.totalItems (Cart.cart s) + 1)%Z
  /\ Cart.selectedVariant s' = None
  /\ exists it,
       In it (Cart.cart s')
       /\ Ref.lineKey it = Ref.keyOf product variant
       /\ Cart.total (Cart.cart s')
          = (Cart.total (Cart.cart s) + Cart.priceValue it)%Z.
Proof.
  intros s'. subst s'. unfold Cart.addToCart.
  cbn [Cart.cart Cart.selectedVariant].
  destruct (findIndex _ (Cart.cart s)) as [i|] eqn:E.
  - destruct (findIndex_nth _ _ _ E) as (it & Hit & Hsame).
    destruct (updateAt_addQty i 1 _ it Hit)
      as (H1 & H2 & _ & H4 & H5 & _ & _).
    cbv zeta in *. split; [exact H4|]. split; [reflexivity|].
    exists (Cart.addQty 1 it). split; [|split].
    + apply nth_error_In in H1. exact H1.
    + apply sameLine_spec in Hsame. exact Hsame.
    + rewrite H5. cbn [Cart.addQty Cart.priceValue]. lia.
  - split; [|split; [reflexivity|]].
    + rewrite totalItems_app, totalItems_cons. cbn [Cart.qty].
      change (Cart.totalItems []) with 0%Z. lia.
    + eexists. split; [apply in_or_app; right; left; reflexivity|].
      split; [reflexivity|].
      rewrite total_app, total_cons. cbn [Cart.qty Cart.priceValue].
      change (Cart.total []) with 0%Z. lia.
Qed.

(** X19.  [addToCart] raises the number of items of the cart by exactly
    one; afterwards the cart holds a line for the product and option,
    and the total has grown by the unit price of that line; the chosen
    option is reset. *)
Theorem X19_addToCart_adds_one_unit
        (now : Z) (product : App.Product) (variant : option Variant.t)
        (s : Cart.Session) :
  let s' := Cart.addToCart now product variant s in
  Cart.totalItems (Cart.cart s') = (Cart.totalItems (Cart.cart s) + 1)%Z
  /\ Cart.selectedVariant s' = None
  /\ exists it,
       In it (Cart.cart s')
       /\ Ref.lineKey it = Ref.keyOf product variant
       /\ Cart.total (Cart.cart s')
          = (Cart.total (Cart.cart s) + Cart.priceValue it)%Z.
Proof. exact (addToCart_line now product variant s). Qed.

Lemma removeFromCart_sub (cid : Z) (l : list Cart.item) :
  let l' := filter (fun it => negb (Cart.id it =? cid)%Z) l in
  (Ref.positive l -> Ref.positive l')
  /\ (Ref.distinctLines l -> Ref.distinctLines l').
Proof.
  unfold Ref.positive, Ref.distinctLines.
  induction l as [|x l [IH1 IH2]]; cbn [filter map]; [auto|].
  split.
  - intros H. inversion H; subst.
    destruct (negb _); [constructor|]; auto.
  - intros H. inversion H as [|? ? Hx Hl]; subst.
    destruct (negb _); [|auto]. cbn [map]. constructor; [|auto].
    intros Hin. apply Hx. apply in_map_iff in Hin as (y & Hy & Hin).
    apply filter_In in Hin as [Hin _]. apply in_map_iff. eauto.
Qed.

(** X20.  If every line of the cart has a quantity of at least 1, this
    is still so after [addToCart], after [updateQty] with any change
    and after [removeFromCart]. *)
Theorem X20_cart_quantities_stay_positive
        (now cartItemId delta : Z) (product : App.Product)
        (variant : option Variant.t) (s : Cart.Session) :
  Ref.positive (Cart.cart s) ->
  Ref.positive (Cart.cart (Cart.addToCart now product variant s))
  /\ Ref.positive (Cart.cart (Cart.updateQty cartItemId delta s))
  /\ Ref.positive (Cart.cart (Cart.removeFromCart cartItemId s)).
Proof.
  intros Hpos. split; [|split].
  - unfold Cart.addToCart. cbn [Cart.cart].
    destruct (findIndex _ (Cart.cart s)) as [i|] eqn:E.
    + destruct (findIndex_nth _ _ _ E) as (it & Hit & _).
      destruct (updateAt_addQty i 1 _ it Hit) as (_ & _ & _ & _ & _ & H6 & _).
      apply H6; [exact Hpos|]. cbn [Cart.addQty Cart.qty].
      unfold Ref.positive in Hpos. rewrite Forall_forall in Hpos.
      specialize (Hpos it (nth_error_In _ _ Hit)). lia.
    + apply Forall_app. split; [exact Hpos|].
      constructor; [cbn [Cart.qty]; lia | constructor].
  - unfold Cart.updateQty.
    destruct (findIndex _ (Cart.cart s)) as [i|] eqn:E; [|exact Hpos].
    destruct (findIndex_nth _ _ _ E) as (it & Hit & _).
    destruct (updateAt_addQty i delta _ it Hit)
      as (H1 & _ & _ & _ & _ & H6 & _).
    cbv zeta in H1, H6. cbn [Cart.cart]. rewrite H1.
    destruct (Z.ltb_spec (Cart.qty (Cart.addQty delta it)) 1) as [L | L].
    + cbn [Cart.removeFromCart Cart.cart].
      assert (Hrest : Forall (fun x => (1 <= Cart.qty x)%Z
                                       \/ (Cart.id x =? cartItemId)%Z = true)
                        (Cart.updateAt i (Cart.addQty delta) (Cart.cart s))).
      { apply H6.
        - eapply Forall_impl; [|exact Hpos]. intros a Ha. left. exact Ha.
        - right. cbn [Cart.addQty Cart.id].
          apply findIndex_nth in E as (it' & Hit' & Hid).
          congruence. }
      apply Forall_forall. intros x Hx. apply filter_In in Hx as [Hx Hid].
      rewrite Forall_forall in Hrest.
      destruct (Hrest x Hx) as [H | H]; [exact H|].
      rewrite H in Hid. discriminate.
    + apply H6; [exact Hpos | exact L].
  - apply removeFromCart_sub. exact Hpos.
Qed.

(** X21.  If no two lines of the cart are for the same product and
    option, this is still so after [addToCart], [updateQty] and
    [removeFromCart]. *)
Theorem X21_cart_lines_stay_distinct
        (now cartItemId delta : Z) (product : App.Product)
        (variant : option Variant.t) (s : Cart.Session) :
  Ref.distinctLines (Cart.cart s) ->
  Ref.distinctLines (Cart.cart (Cart.addToCart now product variant s))
  /\ Ref.distinctLines (Cart.cart (Cart.updateQty cartItemId delta s))
  /\ Ref.distinctLines (Cart.cart (Cart.removeFromCart cartItemId s)).
Proof.
  intros Hd. split; [|split].
  - unfold Cart.addToCart. cbn [Cart.cart].
    destruct (findIndex _ (Cart.cart s)) as [i|] eqn:E.
    + destruct (findIndex_nth _ _ _ E) as (it & Hit & _).
      destruct (updateAt_addQty i 1 _ it Hit) as (_ & H2 & _).
      unfold Ref.distinctLines. cbv zeta in H2. rewrite H2. exact Hd.
    + unfold Ref.distinctLines. rewrite map_app. cbn [map].
      apply (Permutation_NoDup (Permutation_cons_append _ _)).
      constructor; [|exact Hd].
      intros Hin. apply in_map_iff in Hin as (it & Hk & Hin).
      assert (Hs : Cart.sameLine product variant it = true)
        by (apply sameLine_spec; exact Hk).
      pose proof (proj1 (findIndex_None _ _) E it Hin) as Hn.
      cbv beta in Hn. rewrite Hs in Hn. discriminate.
  - unfold Cart.updateQty.
    destruct (findIndex _ (Cart.cart s)) as [i|] eqn:E; [|exact Hd].
    destruct (findIndex_nth _ _ _ E) as (it & Hit & _).
    destruct (updateAt_addQty i delta _ it Hit) as (H1 & H2 & _).
    cbv zeta in H1, H2. cbn [Cart.cart]. rewrite H1.
    assert (Hd' : Ref.distinctLines
                    (Cart.updateAt i (Cart.addQty delta) (Cart.cart s))).
    { unfold Ref.distinctLines. rewrite H2. exact Hd. }
    destruct (_ <? 1)%Z; [|exact Hd'].
    cbn [Cart.removeFromCart Cart.cart]. apply removeFromCart_sub, Hd'.
  - apply removeFromCart_sub. exact Hd.
Qed.

(** X22.  In a cart whose quantities are at least 1, raising the
    quantity of a line by one and lowering it by one again restores the
    cart (and does nothing when no line has the given number). *)
Theorem X22_updateQty_up_then_down (cartItemId : Z) (s : Cart.Session) :
  Ref.positive (Cart.cart s) ->
  Cart.updateQty cartItemId (-1) (Cart.updateQty cartItemId 1 s) = s.
Proof.
  intros Hpos. destruct s as [cart sp sv]. cbn [Cart.cart] in Hpos.
  unfold Cart.updateQty at 2. cbn [Cart.cart Cart.selectedProduct
                                    Cart.selectedVariant].
  destruct (findIndex _ cart) as [i|] eqn:E.
  2:{ unfold Cart.updateQty. cbn [Cart.cart]. rewrite E. reflexivity. }
  destruct (findIndex_nth _ _ _ E) as (it & Hit & Hid).
  destruct (updateAt_addQty i 1 _ it Hit) as (H1 & _ & H3 & _).
  cbv zeta in H1, H3. rewrite H1.
  assert (Hq : (1 <= Cart.qty it)%Z).
  { unfold Ref.positive in Hpos. rewrite Forall_forall in Hpos.
    apply Hpos. eapply nth_error_In, Hit. }
  destruct (Z.ltb_spec (Cart.qty (Cart.addQty 1 it)) 1) as [L | L].
  { cbn [Cart.addQty Cart.qty] in L. lia. }
  set (cart1 := Cart.updateAt i (Cart.addQty 1) cart) in *.
  assert (E1 : findIndex (fun it => (Cart.id it =? cartItemId)%Z) cart1
               = Some i).
  { clear -E H3. revert i cart1 E H3.
    induction cart as [|x l IH]; intros i cart1 E H3; [discriminate|].
    subst cart1. destruct i as [|i]; cbn [Cart.updateAt findIndex] in *.
    - destruct (Cart.id x =? cartItemId)%Z eqn:F.
      + cbn [Cart.addQty Cart.id]. rewrite F. reflexivity.
      + destruct (findIndex _ l); discriminate.
    - destruct (Cart.id x =? cartItemId)%Z eqn:F; [discriminate|].
      destruct (findIndex _ l) as [k|] eqn:G; [|discriminate].
      injection E as ->. rewrite (IH i eq_refl); [reflexivity|].
      cbn [map] in H3. injection H3 as H3. exact H3. }
  unfold Cart.updateQty.
  cbn [Cart.cart Cart.selectedProduct Cart.selectedVariant]. rewrite E1.
  destruct (updateAt_addQty i (-1) cart1 _ H1) as (K1 & _).
  cbv zeta in K1. rewrite K1.
  destruct (Z.ltb_spec (Cart.qty (Cart.addQty (-1) (Cart.addQty 1 it))) 1)
    as [M | M].
  { cbn [Cart.addQty Cart.qty] in M. lia. }
  f_equal. subst cart1. clear -Hit.
  revert i Hit. induction cart as [|x l IH]; intros i Hit;
    [destruct i; discriminate|].
  destruct i as [|i]; cbn [Cart.updateAt].
  - f_equal. destruct x. unfold Cart.addQty.
    cbn [Cart.id Cart.product Cart.variant Cart.price Cart.priceValue
         Cart.qty].
    f_equal. lia.
  - f_equal. apply (IH i). exact Hit.
Qed.

(** X23.  When the change brings the quantity of the line below 1,
    [updateQty] does what [removeFromCart] does. *)
Theorem X23_updateQty_below_one_removes
        (cartItemId delta : Z) (s : Cart.Session) (it : Cart.item) :
  find (fun i => (Cart.id i =? cartItemId)%Z) (Cart.cart s) = Some it ->
  (Cart.qty it + delta < 1)%Z ->
  Cart.updateQty cartItemId delta s = Cart.removeFromCart cartItemId s.
Proof.
  intros Hf Hq. destruct (find_findIndex _ _ _ Hf) as (i & Hi & Hit).
  apply find_some in Hf as [_ Hid].
  unfold Cart.updateQty. rewrite Hi.
  destruct (updateAt_addQty i delta _ it Hit)
    as (H1 & _ & _ & _ & _ & _ & H7).
  cbv zeta in H1, H7. cbn [Cart.cart]. rewrite H1.
  destruct (Z.ltb_spec (Cart.qty (Cart.addQty delta it)) 1) as [L | L].
  2:{ cbn [Cart.addQty Cart.qty] in L. lia. }
  unfold Cart.removeFromCart.
  cbn [Cart.cart Cart.selectedProduct Cart.selectedVariant].
  rewrite H7; [reflexivity | |]; cbn [Cart.addQty Cart.id];
    rewrite Hid; reflexivity.
Qed.

(** X24.  [handleAddToCart] records the product it found; it leaves the
    cart as it is when no product has the number or when the product has
    variants, and for a product without variants it raises the number of
    items by one and the cart then has a line for that product without
    option. *)
Theorem X24_handleAddToCart_only_plain_products
        (now : Z) (allProducts : list App.Product) (productId : nat)
        (s : Cart.Session) :
  let found := find (fun p => (App.id p =? productId)%nat) allProducts in
  let s' := Cart.handleAddToCart now allProducts productId s in
  Cart.selectedProduct s' = found
  /\ (found = None -> Cart.cart s' = Cart.cart s)
  /\ (forall p, found = Some p -> App.variants p <> [] ->
                Cart.cart s' = Cart.cart s)
  /\ (forall p, found = Some p -> App.variants p = [] ->
                App.id p = productId
                /\ Cart.totalItems (Cart.cart s')
                   = (Cart.totalItems (Cart.cart s) + 1)%Z
                /\ exists it, In it (Cart.cart s')
                              /\ Ref.lineKey it = (productId, None)).
Proof.
  intros found s'. subst s'. unfold Cart.handleAddToCart. fold found.
  destruct found as [p|] eqn:F.
  - assert (Hid : App.id p = productId).
    { apply find_some in F as [_ H]. apply Nat.eqb_eq in H. exact H. }
    destruct (App.variants p) as [|v vs] eqn:V; cbn [length Nat.ltb Nat.leb].
    + split; [reflexivity|]. split; [discriminate|].
      split; [intros q Hq; injection Hq as <-; congruence|].
      intros q Hq _. injection Hq as <-. split; [exact Hid|].
      destruct (addToCart_line now p None
                  (Cart.mkSession (Cart.cart s) (Some p)
                                  (Cart.selectedVariant s)))
        as (H1 & _ & it & Hin & Hk & _).
      cbv zeta in *. cbn [Cart.cart] in H1. split; [exact H1|].
      exists it. split; [exact Hin|]. rewrite Hk, <- Hid. reflexivity.
    + split; [reflexivity|]. split; [discriminate|].
      split; [reflexivity|].
      intros q Hq Hv. injection Hq as <-. congruence.
  - split; [reflexivity|]. split; [reflexivity|].
    split; intros q Hq; discriminate.
Qed.

End CartFacts.

(* ===================================================================== *)
(** * The staff lookup *)
(* ===================================================================== *)

Section Escaping.
Import JS.

Lemma escapeChar_cases (c : N) :
  (c = 38%N /\ Lookup.escapeChar c = lit "&amp;")
  \/ (c = 60%N /\ Lookup.escapeChar c = lit "&lt;")
  \/ (c = 62%N /\ Lookup.escapeChar c = lit "&gt;")
  \/ (c = 34%N /\ Lookup.escapeChar c = lit "&quot;")
  \/ (c = 39%N /\ Lookup.escapeChar c = lit "&#39;")
  \/ (Ref.isHtmlSpecial c = false /\ Lookup.escapeChar c = [c]).
Proof.
  unfold Lookup.escapeChar, Ref.isHtmlSpecial.
  destruct (N.eqb_spec c 38); [auto|].
  destruct (N.eqb_spec c 60); [auto|].
  destruct (N.eqb_spec c 62); [auto 6|].
  destruct (N.eqb_spec c 34); [auto 6|].
  destruct (N.eqb_spec c 39); [auto 7|].
  auto 8.
Qed.

Lemma escapeChar_cancel (c d : N) (r1 r2 : jsstring) :
  Lookup.escapeChar c ++ r1 = Lookup.escapeChar d ++ r2 ->
  c = d /\ r1 = r2.
Proof.
  destruct (escapeChar_cases c)
    as [[Hc ->] | [[Hc ->] | [[Hc ->] | [[Hc ->] | [[Hc ->] | [Hc ->]]]]]];
  destruct (escapeChar_cases d)
    as [[Hd ->] | [[Hd ->] | [[Hd ->] | [[Hd ->] | [[Hd ->] | [Hd ->]]]]]];
  cbn [lit map list_ascii_of_string N_of_ascii app]; intros H;
    try discriminate H;
    injection H; intros; subst;
    first [ split; reflexivity
          | vm_compute in Hc; discriminate Hc
          | vm_compute in Hd; discriminate Hd ].
Qed.

(** X25.  The output of [escapeHtml] holds none of the characters [<],
    [>], double quote and single quote, and a text without any of the
    five special characters is returned as it is. *)
Theorem X25_escapeHtml_output_is_inert (value : jsstring) :
  forallb (fun c => negb ((c =? 60) || (c =? 62) || (c =? 34)
                          || (c =? 39))%N)
          (Lookup.escapeHtml value) = true
  /\ (forallb (fun c => negb (Ref.isHtmlSpecial c)) value = true ->
      Lookup.escapeHtml value = value).
Proof.
  split.
  - induction value as [|c s IH]; [reflexivity|].
    cbn [Lookup.escapeHtml flat_map]. rewrite forallb_app.
    fold (Lookup.escapeHtml s). rewrite IH, andb_true_r.
    destruct (escapeChar_cases c)
      as [[_ E] | [[_ E] | [[_ E] | [[_ E] | [[_ E] | [Hc E]]]]]];
      rewrite E; try reflexivity.
    cbn [forallb]. rewrite andb_true_r.
    unfold Ref.isHtmlSpecial in Hc.
    destruct (c =? 38)%N; [discriminate|]. cbn [orb] in Hc.
    rewrite Hc. reflexivity.
  - induction value as [|c s IH]; [reflexivity|].
    cbn [forallb]. intros H. apply andb_true_iff in H as [Hc Hs].
    cbn [Lookup.escapeHtml flat_map]. fold (Lookup.escapeHtml s).
    rewrite (IH Hs). apply negb_true_iff in Hc.
    destruct (escapeChar_cases c)
      as [[-> _] | [[-> _] | [[-> _] | [[-> _] | [[-> _] | [_ E]]]]]];
      try discriminate Hc.
    rewrite E. reflexivity.
Qed.

(** X26.  [escapeHtml] loses nothing: two texts with the same escaped
    form are equal. *)
Theorem X26_escapeHtml_injective (a b : jsstring) :
  Lookup.escapeHtml a = Lookup.escapeHtml b -> a = b.
Proof.
  revert b. induction a as [|c a IH]; intros [|d b] H.
  - reflexivity.
  - exfalso. cbn [Lookup.escapeHtml flat_map] in H.
    destruct (escapeChar_cases d)
      as [[_ E] | [[_ E] | [[_ E] | [[_ E] | [[_ E] | [_ E]]]]]];
      rewrite E in H; discriminate H.
  - exfalso. cbn [Lookup.escapeHtml flat_map] in H.
    destruct (escapeChar_cases c)
      as [[_ E] | [[_ E] | [[_ E] | [[_ E] | [[_ E] | [_ E]]]]]];
      rewrite E in H; discriminate H.
  - cbn [Lookup.escapeHtml flat_map] in H.
    apply escapeChar_cancel in H as [-> H]. f_equal. apply IH, H.
Qed.

End Escaping.

Section StaffLookup.
Import JS.
Variable toLowerCase : jsstring -> jsstring.

Lemma Substring_refl (s : jsstring) : Spec.Substring s s.
Proof. exists [], []. rewrite app_nil_r. reflexivity. Qed.

Lemma scoreProduct_spec (product : Staff.Product) (term : jsstring) :
  let score := Lookup.scoreProduct toLowerCase product term in
  (0 <= score <= 110)%Z
  /\ ((0 < score)%Z <-> Ref.Found toLowerCase term product)
  /\ (toLowerCase (Staff.productId product) = toLowerCase term ->
      score = 100%Z).
Proof.
  unfold Lookup.scoreProduct, Ref.Found.
  set (t := toLowerCase term).
  set (pid := toLowerCase (Staff.productId product)).
  set (name := toLowerCase (Staff.name product)).
  set (desc := toLowerCase (Staff.description product)).
  cbv zeta.
  destruct (streq pid t) eqn:E.
  { apply streq_spec in E. split; [lia|]. split; [|reflexivity].
    split; [|lia]. intros _. left. rewrite E. apply Substring_refl. }
  pose proof (includes_spec pid t) as H1.
  pose proof (includes_spec name t) as H2.
  pose proof (includes_spec desc t) as H3.
  split; [|split].
  - destruct (includes pid t), (includes name t), (includes desc t); lia.
  - destruct (includes pid t), (includes name t), (includes desc t);
      (split; [intros H; try lia;
               first [ left; apply H1; reflexivity
                     | right; left; apply H2; reflexivity
                     | right; right; apply H3; reflexivity ]
              | intros [H | [H | H]]; try lia;
                first [ apply H1 in H | apply H2 in H | apply H3 in H ];
                discriminate ]).
  - intros H. apply streq_spec in H. congruence.
Qed.

Lemma StronglySorted_app_inv {X : Type} (R : X -> X -> Prop)
      (l1 l2 : list X) :
  StronglySorted R (l1 ++ l2) ->
  StronglySorted R l1
  /\ forall x y, In x l1 -> In y l2 -> R x y.
Proof.
  induction l1 as [|a l1 IH]; cbn [app]; intros H.
  - split; [constructor | intros x y []].
  - inversion H as [|? ? HS HF]; subst. destruct (IH HS) as [IH1 IH2].
    rewrite Forall_forall in HF. split.
    + constructor; [exact IH1|]. apply Forall_forall.
      intros x Hx. apply HF. apply in_or_app. auto.
    + intros x y [<- | Hx] Hy; [|apply IH2; assumption].
      apply HF. apply in_or_app. auto.
Qed.

(** X27.  For a search text that is not blank, the staff lookup counts
    all the products in which the trimmed term occurs (case folded, in
    the identifier, the name or the description), shows at most 60 of
    them in descending order of score, and no match that is left out has
    a higher score than a match that is shown. *)
Theorem X27_handleSearchInput_top_matches
        (input : jsstring) (allProducts : list Staff.Product) :
  trim input <> [] ->
  let score := fun p => Lookup.scoreProduct toLowerCase p (trim input) in
  exists results totalMatches,
    Lookup.handleSearchInput toLowerCase input allProducts
    = Some (results, totalMatches)
    /\ totalMatches
       = length (filter (fun p => (0 <? score p)%Z) allProducts)
    /\ length results = Nat.min Lookup.RESULTS_LIMIT totalMatches
    /\ (forall p, In p results ->
                  In p allProducts
                  /\ Ref.Found toLowerCase (trim input) p)
    /\ StronglySorted (fun p q => (score q <= score p)%Z) results
    /\ (forall p q, In p results -> In q allProducts ->
                    Ref.Found toLowerCase (trim input) q ->
                    ~ In q results -> (score q <= score p)%Z).
Proof.
  intros Hne score. unfold Lookup.handleSearchInput.
  apply truthy_spec in Hne. rewrite Hne. cbn [negb].
  rewrite (filter_map_swap
             (fun product =>
                (product,
                 Lookup.scoreProduct toLowerCase product (trim input)))
             (fun it => (0 <? snd it)%Z)).
  rewrite sortBy_map. unfold Lookup.lowerScore. cbn [fst snd].
  change (fun x : Staff.Product =>
            (0 <? Lookup.scoreProduct toLowerCase x (trim input))%Z)
    with (fun p : Staff.Product => (0 <? score p)%Z).
  change (fun x y : Staff.Product =>
            (0 <? Lookup.scoreProduct toLowerCase y (trim input)
                  - Lookup.scoreProduct toLowerCase x (trim input))%Z)
    with (fun x y : Staff.Product => (0 <? score y - score x)%Z).
  set (hits := filter (fun p => (0 <? score p)%Z) allProducts).
  set (gt := fun x y : Staff.Product => (0 <? score y - score x)%Z).
  assert (D : Spec.descending score gt hits).
  { intros x y _ _. unfold gt.
    destruct (Z.ltb_spec 0 (score y - score x));
      symmetry; [apply Z.ltb_lt | apply Z.ltb_ge]; lia. }
  pose proof (sortBy_sorted score gt hits D) as HS.
  pose proof (sortBy_perm gt hits) as HP.
  set (sorted := sortBy gt hits) in *.
  assert (Hlen : length sorted = length hits)
    by (apply Permutation_length; exact HP).
  assert (Hhit : forall p, In p sorted <->
                           In p allProducts
                           /\ Ref.Found toLowerCase (trim input) p).
  { intros p. unfold sorted. rewrite sortBy_In. unfold hits.
    rewrite filter_In, Z.ltb_lt.
    destruct (scoreProduct_spec p (trim input)) as (_ & H & _).
    cbv zeta in H. fold (score p) in H. rewrite H. reflexivity. }
  exists (firstn Lookup.RESULTS_LIMIT sorted), (length hits).
  split.
  { rewrite length_map, firstn_map, map_map. cbn [fst].
    rewrite map_id, Hlen. reflexivity. }
  split; [reflexivity|].
  split; [rewrite length_firstn, Hlen; reflexivity|].
  rewrite <- (firstn_skipn Lookup.RESULTS_LIMIT sorted) in HS.
  apply StronglySorted_app_inv in HS as [HS1 HS2].
  split; [|split].
  - intros p Hp. apply Hhit.
    rewrite <- (firstn_skipn Lookup.RESULTS_LIMIT sorted).
    apply in_or_app. left. exact Hp.
  - exact HS1.
  - intros p q Hp Hq Hf Hn. apply HS2; [exact Hp|].
    assert (Hin : In q sorted) by (apply Hhit; auto).
    rewrite <- (firstn_skipn Lookup.RESULTS_LIMIT sorted) in Hin.
    apply in_app_or in Hin as [Hin | Hin]; [contradiction | exact Hin].
Qed.

End StaffLookup.

(* ===================================================================== *)
(** * The further theorems at concrete inputs *)
(* ===================================================================== *)

Section MoreInstances.
Import JS.

(** X2 at a row with a blank price cell and three options: the display
    price is that of the first of the two cheapest options. *)
Lemma X2_witness :
  exists pre v post,
    Sample.options = pre ++ v :: post
    /\ (forall w, In w pre -> (Variant.priceValue v < Variant.priceValue w)%Z)
    /\ (forall w, In w post ->
                  (Variant.priceValue v <= Variant.priceValue w)%Z)
    /\ App.resolvePrice (Some [SPACE]) Sample.options
       = (Variant.price v, Variant.priceValue v)
    /\ Staff.resolvePrice (Some [SPACE]) Sample.options
       = (Variant.price v, Variant.priceValue v).
Proof.
  apply (X2_resolvePrice_cheapest_variant (Some [SPACE]) Sample.options);
    [reflexivity | discriminate].
Defined.

Example resolvePrice_of_the_options :
  App.resolvePrice (Some [SPACE]) Sample.options
  = (NAIRA :: lit "5,000", 5000%Z).
Proof. reflexivity. Qed.

(** X3 at a row with spaces around its fields. *)
Lemma X3_witness :
  App.parseCSVRow (lit " a , b,c ") = map trim (split COMMA (lit " a , b,c ")).
Proof.
  apply (X3_parseCSVRow_without_quotes (lit " a , b,c ")). reflexivity.
Defined.

(** X5 at a feed with both kinds of line ending and a blank line. *)
Lemma X5_witness :
  App.splitRows Sample.feed
  = filter Ref.nonBlank (split LF (Ref.crlfToLf Sample.feed)).
Proof.
  apply (X5_splitRows_without_quotes Sample.feed). reflexivity.
Defined.

Example rows_of_the_feed :
  App.splitRows Sample.feed = [lit "id,name"; lit "PROD-1 , Rose"].
Proof. reflexivity. Qed.

(** X7 at a usual price text. *)
Lemma X7_witness :
  Staff.parsePriceValue (NAIRA :: lit "12,500")
  = Spec.decimalValue (filter isDigit (NAIRA :: lit "12,500"))
  /\ (0 <= Staff.parsePriceValue (NAIRA :: lit "12,500") <= 2 ^ 53)%Z.
Proof.
  apply (X7_staff_parsePriceValue_reads_digits (NAIRA :: lit "12,500")).
  vm_compute. discriminate.
Defined.

(** X8 at a usual price text. *)
Lemma X8_witness :
  App.parsePriceValue (NAIRA :: lit "12,500")
  = Staff.parsePriceValue (NAIRA :: lit "12,500").
Proof.
  apply (X8_parsePriceValue_agree_on_naira_amounts (NAIRA :: lit "12,500")).
  reflexivity.
Defined.

(** X11 at the search text [rose] and the soap, whose description holds
    the word. *)
Lemma X11_witness :
  In Example.roseSoap
     (App.filteredProducts
        (App.performSearch asciiLower (lit "rose") Example.shop))
  <-> In Example.roseSoap (App.allProducts Example.shop)
      /\ (Ref.Matches asciiLower (lit "rose") (App.name Example.roseSoap)
          \/ Ref.Matches asciiLower (lit "rose")
                         (App.description Example.roseSoap)
          \/ Ref.Matches asciiLower (lit "rose")
                         (App.category Example.roseSoap)
          \/ exists v, In v (App.variants Example.roseSoap)
                /\ Ref.Matches asciiLower (lit "rose") (Variant.name v)).
Proof.
  apply (X11_performSearch_hits asciiLower (lit "rose") Example.shop
                                Example.roseSoap).
  discriminate.
Defined.

(** X12 at the catalogue of twelve, where each pinned identifier occurs
    once. *)
Lemma X12_witness :
  Permutation (App.prioritizeProducts asciiLower Example.twelve)
              Example.twelve.
Proof.
  apply (X12_prioritizeProducts_permutation asciiLower Example.twelve);
    vm_compute; lia.
Defined.

(** X13 at the second product of a feed of two. *)
Lemma X13_witness :
  find (fun q => (App.id q =? App.id Sample.ring)%nat)
       (View.loadedProducts asciiLower Example.feedWithColumn)
  = Some Sample.ring.
Proof.
  apply (X13_loaded_catalogue_ids_identify asciiLower Example.feedWithColumn
                                           Sample.ring).
  vm_compute. auto.
Defined.

(** X17 at the product numbered 7, whose code is [PROD-0007]. *)
Lemma X17_witness :
  exists ds,
    View.getProductCode Sample.unnamed = lit "PROD-" ++ ds
    /\ (4 <= length ds)%nat
    /\ forallb isDigit ds = true
    /\ parseInt ds (Some 10%Z) = Some (Z.of_nat (App.id Sample.unnamed)).
Proof.
  apply (X17_getProductCode_fallback Sample.unnamed). reflexivity.
Defined.

Example code_of_the_unnamed_product :
  View.getProductCode Sample.unnamed = lit "PROD-0007".
Proof. reflexivity. Qed.

(** X18 at a list of 120 products, after one further load: 100 cards. *)
Lemma X18_witness :
  let pg :=
    Nat.iter 1 (View.loadMoreProducts Sample.many)
             (View.renderProducts Sample.many (View.mkPage 0 [] false)) in
  View.displayedCount pg
  = Nat.min (View.BATCH_SIZE * 2) (length Sample.many)
  /\ View.grid pg = firstn (View.BATCH_SIZE * 2) Sample.many
  /\ View.gridShown pg = true.
Proof.
  apply (X18_paging_shows_prefixes Sample.many (View.mkPage 0 [] false) 1).
  intros H. vm_compute in H. discriminate H.
Defined.

(** X20 at the cart of two lines, lowering the quantity of its first
    line, which removes the line. *)
Lemma X20_witness :
  Ref.positive
    (Cart.cart (Cart.addToCart 1700000000003 (Example.plainItem 2) None
                               Sample.session))
  /\ Ref.positive
       (Cart.cart (Cart.updateQty 1700000000001 (-1) Sample.session))
  /\ Ref.positive
       (Cart.cart (Cart.removeFromCart 1700000000001 Sample.session)).
Proof.
  apply (X20_cart_quantities_stay_positive
           1700000000003 1700000000001 (-1) (Example.plainItem 2) None
           Sample.session).
  repeat constructor; vm_compute; discriminate.
Defined.

(** X21 at the same cart and the same operations. *)
Lemma X21_witness :
  Ref.distinctLines
    (Cart.cart (Cart.addToCart 1700000000003 (Example.plainItem 2) None
                               Sample.session))
  /\ Ref.distinctLines
       (Cart.cart (Cart.updateQty 1700000000001 (-1) Sample.session))
  /\ Ref.distinctLines
       (Cart.cart (Cart.removeFromCart 1700000000001 Sample.session)).
Proof.
  apply (X21_cart_lines_stay_distinct
           1700000000003 1700000000001 (-1) (Example.plainItem 2) None
           Sample.session).
  unfold Ref.distinctLines. vm_compute.
  repeat constructor; simpl; intuition discriminate.
Defined.

(** X22 at the second line of the cart. *)
Lemma X22_witness :
  Cart.updateQty 1700000000002 (-1)
                 (Cart.updateQty 1700000000002 1 Sample.session)
  = Sample.session.
Proof.
  apply (X22_updateQty_up_then_down 1700000000002 Sample.session).
  repeat constructor; vm_compute; discriminate.
Defined.

(** X23 at the first line of the cart, whose quantity is 1. *)
Lemma X23_witness :
  Cart.updateQty 1700000000001 (-1) Sample.session
  = Cart.removeFromCart 1700000000001 Sample.session.
Proof.
  apply (X23_updateQty_below_one_removes 1700000000001 (-1) Sample.session
                                         Sample.first);
    reflexivity.
Defined.

(** X26 at a text with a special character, written in two ways. *)
Lemma X26_witness : lit "a<b" = lit "a" ++ lit "<b".
Proof.
  apply (X26_escapeHtml_injective (lit "a<b") (lit "a" ++ lit "<b")).
  reflexivity.
Defined.

(** X27 at the search text [Rose] with spaces around it: three of the
    four products match. *)
Lemma X27_witness :
  exists results,
    Lookup.handleSearchInput asciiLower (lit " Rose ") Sample.desk
    = Some (results, 3%nat)
    /\ length results = 3%nat
    /\ StronglySorted
         (fun p q =>
            (Lookup.scoreProduct asciiLower q (trim (lit " Rose "))
             <= Lookup.scoreProduct asciiLower p (trim (lit " Rose ")))%Z)
         results.
Proof.
  assert (H : trim (lit " Rose ") <> []) by discriminate.
  destruct (X27_handleSearchInput_top_matches asciiLower (lit " Rose ")
              Sample.desk H)
    as (results & totalMatches & E & Ht & Hl & _ & HS & _).
  vm_compute in Ht. subst totalMatches.
  exists results. split; [exact E|]. split; [exact Hl | exact HS].
Defined.

Example lookup_of_rose :
  Lookup.handleSearchInput asciiLower (lit " Rose ") Sample.desk
  = Some ([Sample.staffProduct "PROD-ROSE-4" "Rose" "A rose";
           Sample.staffProduct "ROSE" "Plain" "";
           Sample.staffProduct "PROD-1" "Soap Box" "Smells of rose"],
          3%nat).
Proof. vm_compute. reflexivity. Qed.

End MoreInstances.
